(** * ReverseTk: gateway payload interception, shallow embedding

    Source: [src/plugins/reverseTk/index.tsx].

    The plugin works on untyped JavaScript values ([any]) that it copies
    and rewrites in place, so the embedding has a store of objects with
    locations, and every operation of the source is a computation over
    that store.  The typed parts of the source ([CallTrace],
    [buildTree], the capability bit controls) are embedded on their
    declared types. *)

From Stdlib Require Import ZArith String Ascii List Bool Lia Floats.
From Stdlib Require Import DecimalString DecimalNat DecimalFacts.
From stdpp Require Import base list strings.
Import ListNotations.
Local Open Scope string_scope.
Local Open Scope list_scope.

(** ** JavaScript values and the object store *)

Abbreviation loc := nat.

(** The values [typeof] tells apart.  Numbers in the payloads this plugin
    handles are integral (capability masks, counters, versions) and are
    kept as [Z]; symbols do not occur in payloads and are left out. *)
Inductive value : Type :=
| VUndefined
| VNull
| VBool (b : bool)
| VNumber (n : Z)
| VString (s : string)
| VBigInt (n : Z)
| VRef (l : loc).

(** The prototype of a record: [Object.prototype] (object literals, JSON),
    none ([Object.create(null)]), or the prototype of some class, known by
    its identity [c] and by the property names reachable through it.
    Class prototypes are taken to inherit from [Object.prototype]. *)
Inductive proto : Type :=
| ProtoObject
| ProtoNull
| ProtoClass (c : nat) (members : list string).

(** What a function object does when called: host code known by a
    number, or the arrow function [(...args) => obj(...args)] that
    [copy] builds around the function at [target]. *)
Inductive fcode : Type :=
| Native (id : nat)
| Forwarder (target : loc).

(** Arrays keep their elements as a list, [None] being a hole (an index
    below [length] that [delete] removed). *)
Inductive kind : Type :=
| KRecord (p : proto)
| KArray (elems : list (option value))
| KFunction (code : fcode).

(** [props] are the own enumerable string-keyed properties other than
    array elements, in [Object.keys] order. *)
Record object : Type := Obj { okind : kind; props : list (string * value) }.

Abbreviation heap := (list object).

Inductive error : Type := TypeError.

(** The ways a computation over a state [S] can end.  [OutOfFuel] is a
    recursion deeper than the fuel given.  [Unmodelled] marks the paths
    this embedding does not describe: a dangling location, the legacy
    [__proto__] accessor, inherited getters and methods. *)
Inductive outcome (S A : Type) : Type :=
| Ok (s : S) (a : A)
| Throw (s : S) (e : error)
| OutOfFuel
| Unmodelled.
Arguments Ok {S A} s a.
Arguments Throw {S A} s e.
Arguments OutOfFuel {S A}.
Arguments Unmodelled {S A}.

Definition Comp (S A : Type) : Type := S -> outcome S A.

(** Computations over the object store alone. *)
Definition M (A : Type) : Type := Comp heap A.

Definition ret {S A} (a : A) : Comp S A := fun s => Ok s a.

Definition bind {S A B} (m : Comp S A) (k : A -> Comp S B) : Comp S B :=
  fun s =>
    match m s with
    | Ok s' a => k a s'
    | Throw s' e => Throw s' e
    | OutOfFuel => OutOfFuel
    | Unmodelled => Unmodelled
    end.

Definition throw {S A} (e : error) : Comp S A := fun s => Throw s e.
Definition out_of_fuel {S A} : Comp S A := fun _ => OutOfFuel.
Definition unmodelled {S A} : Comp S A := fun _ => Unmodelled.

Notation "'let*' x ':=' m 'in' k" := (bind m (fun x => k))
  (at level 10, x pattern, m at level 100, k at level 200).
Notation "m ';;' k" := (bind m (fun _ => k))
  (at level 100, k at level 200, right associativity).

(** [for (const x of xs) body(x)] over a list already taken. *)
Fixpoint for_each {A} (xs : list A) (body : A -> M unit) : M unit :=
  match xs with
  | [] => ret tt
  | x :: rest => body x;; for_each rest body
  end.

(** [xs.map(f)] on the element list, left to right; holes are skipped
    and stay holes. *)
Fixpoint map_elems (f : value -> M value) (xs : list (option value))
  : M (list (option value)) :=
  match xs with
  | [] => ret []
  | None :: rest =>
      let* rest' := map_elems f rest in ret (None :: rest')
  | Some x :: rest =>
      let* x' := f x in
      let* rest' := map_elems f rest in ret (Some x' :: rest')
  end.

(** *** Store access *)

Definition deref (l : loc) : M object :=
  fun h => match h !! l with Some o => Ok h o | None => Unmodelled end.

Definition alloc (o : object) : M loc :=
  fun h => Ok (h ++ [o]) (length h).

Definition store (l : loc) (o : object) : M unit :=
  fun h => match h !! l with
           | Some _ => Ok (<[l := o]> h) tt
           | None => Unmodelled
           end.

(** *** Property keys *)

(** The key of array index [i]: its decimal numeral. *)
Definition index_key (i : nat) : string :=
  NilEmpty.string_of_uint (Nat.to_uint i).

(** The index below [len] that [k] names, if any. *)
Definition key_index (k : string) (len : nat) : option nat :=
  List.find (fun i => String.eqb (index_key i) k) (seq 0 len).

Definition mem_string (k : string) (ks : list string) : bool :=
  existsb (String.eqb k) ks.

Fixpoint assoc (k : string) (ps : list (string * value)) : option value :=
  match ps with
  | [] => None
  | (k', v) :: rest => if String.eqb k k' then Some v else assoc k rest
  end.

(** [o[k] = v] on a list of own properties: an existing key keeps its
    place, a new one goes last. *)
Fixpoint assoc_set (k : string) (v : value) (ps : list (string * value))
  : list (string * value) :=
  match ps with
  | [] => [(k, v)]
  | (k', v') :: rest =>
      if String.eqb k k' then (k, v) :: rest else (k', v') :: assoc_set k v rest
  end.

Fixpoint assoc_remove (k : string) (ps : list (string * value))
  : list (string * value) :=
  match ps with
  | [] => []
  | (k', v') :: rest =>
      if String.eqb k k' then rest else (k', v') :: assoc_remove k rest
  end.

(** String-keyed property names of the built-in prototypes (ECMAScript
    2023).  Only the names matter here: they decide [in]. *)
Definition Object_prototype_names : list string :=
  [ "constructor"; "__defineGetter__"; "__defineSetter__"; "hasOwnProperty";
    "__lookupGetter__"; "__lookupSetter__"; "isPrototypeOf";
    "propertyIsEnumerable"; "toString"; "valueOf"; "__proto__";
    "toLocaleString" ].

Definition Array_prototype_names : list string :=
  [ "length"; "constructor"; "at"; "concat"; "copyWithin"; "fill"; "find";
    "findIndex"; "findLast"; "findLastIndex"; "lastIndexOf"; "pop"; "push";
    "reverse"; "shift"; "unshift"; "slice"; "sort"; "splice"; "includes";
    "indexOf"; "join"; "keys"; "entries"; "values"; "forEach"; "filter";
    "flat"; "flatMap"; "map"; "every"; "some"; "reduce"; "reduceRight";
    "toLocaleString"; "toString"; "toReversed"; "toSorted"; "toSpliced";
    "with" ].

(** Names a function object answers to without any own enumerable
    property: its own [length], [name], [prototype], and what
    [Function.prototype] provides. *)
Definition Function_names : list string :=
  [ "length"; "name"; "prototype"; "arguments"; "caller"; "constructor";
    "apply"; "bind"; "call"; "toString" ].

(** The property names this plugin reads off a payload. *)
Definition payload_fields : list string :=
  [ "read_state"; "user_guild_settings"; "guilds"; "capabilities" ].

(** *** Own and inherited properties *)

Definition own_property (o : object) (k : string) : option value :=
  match okind o with
  | KArray elems =>
      match key_index k (length elems) with
      | Some i => mjoin (elems !! i)
      | None =>
          if String.eqb k "length" then Some (VNumber (Z.of_nat (length elems)))
          else assoc k (props o)
      end
  | _ => assoc k (props o)
  end.

(** Whether the prototype chain of [o] provides [k]. *)
Definition inherits (o : object) (k : string) : bool :=
  match okind o with
  | KRecord ProtoObject => mem_string k Object_prototype_names
  | KRecord ProtoNull => false
  | KRecord (ProtoClass _ members) =>
      mem_string k members || mem_string k Object_prototype_names
  | KArray _ =>
      mem_string k Array_prototype_names || mem_string k Object_prototype_names
  | KFunction _ =>
      mem_string k Function_names || mem_string k Object_prototype_names
  end.

(** What [o[k]] reads, [None] where this embedding does not say: what
    an inherited property holds (a built-in method, a getter of a
    class) is not described. *)
Definition get_property (o : object) (k : string) : option value :=
  match own_property o k with
  | Some x => Some x
  | None => if inherits o k then None else Some VUndefined
  end.

(** [k in o], [None] where this embedding does not say. *)
Definition has_property (o : object) (k : string) : option bool :=
  match own_property o k, okind o with
  | Some _, _ => Some true
  | None, KFunction _ =>
      if mem_string k Function_names then None
      else Some (mem_string k Object_prototype_names)
  | None, _ => Some (inherits o k)
  end.

(** Keys an array treats as elements or as its length. *)
Definition array_reserved_key (k : string) : bool :=
  String.eqb k "length" ||
  match k with
  | String c _ => (Ascii.leb "0" c && Ascii.leb c "9")%bool
  | EmptyString => false
  end.

(** What the [__proto__] setter of [Object.prototype] makes of [o]
    when it is given [x]: [null] takes the prototype away, any other
    primitive is ignored.  An object would become the prototype, which
    the prototypes of this embedding cannot name ([None]), and so is an
    array or a function left without prototype. *)
Definition proto_setter (o : object) (x : value) : option object :=
  match x with
  | VRef _ => None
  | VNull =>
      match okind o with
      | KRecord _ => Some (Obj (KRecord ProtoNull) (props o))
      | _ => None
      end
  | _ => Some o
  end.

(** [o[k] = x]: the assignment defines or overwrites an own data
    property.  The key [__proto__] does so only where [o] has it as an
    own property already or has no prototype; otherwise it reaches the
    setter of [Object.prototype].  Not described ([None]): an element or
    the length of an array; a name a class prototype provides, which may
    be a setter. *)
Definition put_property (o : object) (k : string) (x : value) : option object :=
  if String.eqb k "__proto__" then
    match assoc k (props o), okind o with
    | Some _, _ => Some (Obj (okind o) (assoc_set k x (props o)))
    | None, KRecord ProtoNull => Some (Obj (okind o) (assoc_set k x (props o)))
    | None, KRecord (ProtoClass _ members) =>
        if mem_string k members then None else proto_setter o x
    | None, _ => proto_setter o x
    end
  else
    match okind o with
    | KArray _ =>
        if array_reserved_key k then None
        else Some (Obj (okind o) (assoc_set k x (props o)))
    | KRecord (ProtoClass _ members) =>
        if mem_string k members then None
        else Some (Obj (okind o) (assoc_set k x (props o)))
    | _ => Some (Obj (okind o) (assoc_set k x (props o)))
    end.

(** [delete o[k]] for an own key; [None] is the [TypeError] for the
    length of an array. *)
Definition delete_property (o : object) (k : string) : option object :=
  match okind o with
  | KArray elems =>
      match key_index k (length elems) with
      | Some i => Some (Obj (KArray (<[i := None]> elems)) (props o))
      | None =>
          if String.eqb k "length" then None
          else Some (Obj (okind o) (assoc_remove k (props o)))
      end
  | _ => Some (Obj (okind o) (assoc_remove k (props o)))
  end.

Definition modelled {A} (x : option A) : M A :=
  match x with
  | Some a => ret a
  | None => unmodelled
  end.

(** [v[k]].  On a primitive only the plugin's own field names are
    looked up, and no wrapper prototype has them. *)
Definition Get (v : value) (k : string) : M value :=
  match v with
  | VUndefined | VNull => throw TypeError
  | VRef l => let* o := deref l in modelled (get_property o k)
  | _ => if mem_string k payload_fields then ret VUndefined else unmodelled
  end.

(** [k in v]: a [TypeError] unless [v] is an object. *)
Definition js_in (k : string) (v : value) : M bool :=
  match v with
  | VRef l => let* o := deref l in modelled (has_property o k)
  | _ => throw TypeError
  end.

(** [v[k] = x] in module (strict) code. *)
Definition Put (v : value) (k : string) (x : value) : M unit :=
  match v with
  | VRef l =>
      let* o := deref l in
      let* o' := modelled (put_property o k x) in
      store l o'
  | _ => throw TypeError
  end.

(** [delete v[k]] *)
Definition Delete (v : value) (k : string) : M unit :=
  match v with
  | VRef l =>
      let* o := deref l in
      match delete_property o k with
      | Some o' => store l o'
      | None => throw TypeError
      end
  | VUndefined | VNull => throw TypeError
  | _ => ret tt
  end.

(** The elements that are present, with their keys, from index [i] on. *)
Fixpoint element_entries (i : nat) (elems : list (option value))
  : list (string * value) :=
  match elems with
  | [] => []
  | None :: rest => element_entries (S i) rest
  | Some x :: rest => (index_key i, x) :: element_entries (S i) rest
  end.

(** [Object.entries(v)] of an object: elements first, by index, then
    the other own properties. *)
Definition Object_entries (v : value) : M (list (string * value)) :=
  match v with
  | VRef l =>
      let* o := deref l in
      match okind o with
      | KArray elems => ret (element_entries 0 elems ++ props o)
      | _ => ret (props o)
      end
  | VUndefined | VNull => throw TypeError
  | _ => unmodelled
  end.

Definition Object_keys (v : value) : M (list string) :=
  let* es := Object_entries v in ret (map fst es).

Definition typeof (v : value) : M string :=
  match v with
  | VUndefined => ret "undefined"
  | VNull => ret "object"
  | VBool _ => ret "boolean"
  | VNumber _ => ret "number"
  | VString _ => ret "string"
  | VBigInt _ => ret "bigint"
  | VRef l =>
      let* o := deref l in
      match okind o with
      | KFunction _ => ret "function"
      | _ => ret "object"
      end
  end.

Definition Array_isArray (v : value) : M bool :=
  match v with
  | VRef l =>
      let* o := deref l in
      match okind o with
      | KArray _ => ret true
      | _ => ret false
      end
  | _ => ret false
  end.

(** [arr.map(f)]: a new array of the same length, with [f] applied to
    the elements that are present. *)
Definition Array_map (f : value -> M value) (arr : value) : M value :=
  match arr with
  | VRef l =>
      let* o := deref l in
      match okind o with
      | KArray elems =>
          let* elems' := map_elems f elems in
          let* a := alloc (Obj (KArray elems') []) in
          ret (VRef a)
      | _ => unmodelled
      end
  | _ => unmodelled
  end.

(** ** DeepCopyEngine: [copy] *)

Definition is_undefined (v : value) : bool :=
  match v with VUndefined => true | _ => false end.

Definition is_null (v : value) : bool :=
  match v with VNull => true | _ => false end.

(** [ret.__proto__ = obj.__proto__] when [obj.__proto__] is not
    [Object.prototype].  An own [__proto__] of [obj] is what the read
    gives, and it is assigned like any value.  Otherwise the read gives
    the prototype: a record without prototype reads [undefined] there,
    and assigning [undefined] to [__proto__] changes nothing. *)
Definition copy_prototype (obj r : loc) : M unit :=
  let* o := deref obj in
  match assoc "__proto__" (props o) with
  | Some x => Put (VRef r) "__proto__" x
  | None =>
      match okind o with
      | KRecord ProtoObject => ret tt
      | KRecord ProtoNull => ret tt
      | KRecord (ProtoClass c members) =>
          if mem_string "__proto__" members then unmodelled
          else
            let* ro := deref r in
            store r (Obj (KRecord (ProtoClass c members)) (props ro))
      | _ => unmodelled
      end
  end.

(** [fuel] bounds the depth of the recursion; the source recurses on
    the nesting of its argument. *)
Fixpoint copy (fuel : nat) (obj : value) : M value :=
  match fuel with
  | O => out_of_fuel
  | S fuel' =>
      let* t := typeof obj in
      if is_undefined obj || is_null obj ||
         mem_string t ["bigint"; "boolean"; "number"; "string"]
      then ret obj
      else
        match obj with
        | VRef l =>
            if String.eqb t "function" then
              let* f := alloc (Obj (KFunction (Forwarder l)) []) in
              ret (VRef f)
            else
              let* is_array := Array_isArray obj in
              if is_array then Array_map (copy fuel') obj
              else
                let* r := alloc (Obj (KRecord ProtoObject) []) in
                let* entries := Object_entries obj in
                for_each entries
                  (fun '(k, v) =>
                     let* v' := copy fuel' v in Put (VRef r) k v');;
                copy_prototype l r;;
                ret (VRef r)
        | _ => unmodelled
        end
  end.

(** *** Calling a function object *)

Section Calls.
(** What host function number [id] does with [this] and its arguments. *)
Variable native : nat -> value -> list value -> M value.

(** [f.call(this, ...args)].  An arrow function has no [this] of its
    own, and the function it forwards to is called without one. *)
Fixpoint call (fuel : nat) (f this : value) (args : list value) : M value :=
  match fuel with
  | O => out_of_fuel
  | S fuel' =>
      match f with
      | VRef l =>
          let* o := deref l in
          match okind o with
          | KFunction (Native id) => native id this args
          | KFunction (Forwarder target) =>
              call fuel' (VRef target) VUndefined args
          | _ => throw TypeError
          end
      | _ => throw TypeError
      end
  end.
End Calls.

(** ** CallTraceTree *)

(** [Math.round] on binary64: the integer nearest to [x], ties going up;
    NaN, the infinities and the zeros are returned as they are, and a
    result of zero keeps the sign of [x]. *)
Definition Math_round (x : float) : float :=
  match Prim2SF x with
  | S754_finite s m e =>
      if (0 <=? e)%Z then x
      else
        let d := (2 ^ (- e))%Z in
        let n := if s then ((d - 2 * Z.pos m) / (2 * d))%Z
                 else ((2 * Z.pos m + d) / (2 * d))%Z in
        SF2Prim (binary_normalize prec emax n 0 s)
  | _ => x
  end.

#[local] Unset Elimination Schemes.

(** [interface CallTracePayload { micros: number; calls?: [string, CallTracePayload][] }] *)
Inductive CallTracePayload : Type :=
  Payload (micros : float) (calls : option (list (string * CallTracePayload))).

Definition micros (d : CallTracePayload) : float :=
  match d with Payload m _ => m end.

Definition payload_calls (d : CallTracePayload)
  : option (list (string * CallTracePayload)) :=
  match d with Payload _ c => c end.

(** [class CallTrace { name; duration; calls }] *)
Inductive CallTrace : Type :=
  MkCallTrace (name : string) (duration : float) (calls : list CallTrace).

Definition name (c : CallTrace) : string :=
  match c with MkCallTrace n _ _ => n end.

Definition duration (c : CallTrace) : float :=
  match c with MkCallTrace _ d _ => d end.

Definition calls (c : CallTrace) : list CallTrace :=
  match c with MkCallTrace _ _ cs => cs end.

#[local] Set Elimination Schemes.

(** [new CallTrace(name, data)] *)
Fixpoint new_CallTrace (name : string) (data : CallTracePayload) : CallTrace :=
  match data with
  | Payload micros calls =>
      MkCallTrace name (micros / 1000)%float
        (match calls with
         | Some cs => map (fun '(n, d) => new_CallTrace n d) cs
         | None => []
         end)
  end.

(** [toData()] *)
Fixpoint toData (c : CallTrace) : string * CallTracePayload :=
  match c with
  | MkCallTrace name duration calls =>
      (name, Payload (Math_round (duration * 1000)%float) (Some (map toData calls)))
  end.

(** The two directions on a list of top-level tuples. *)
Definition fromWire (t : list (string * CallTracePayload)) : list CallTrace :=
  map (fun '(n, d) => new_CallTrace n d) t.

Definition toWire (nodes : list CallTrace) : list (string * CallTracePayload) :=
  map toData nodes.

(** *** [buildTree] *)

Definition newline : string := String "010"%char EmptyString.

(** [s.split('\n')] *)
Fixpoint split_newline (s : string) : list string :=
  match s with
  | EmptyString => [EmptyString]
  | String c rest =>
      if Ascii.eqb c "010"%char then EmptyString :: split_newline rest
      else
        match split_newline rest with
        | first :: others => String c first :: others
        | [] => [String c EmptyString]
        end
  end.

(** [xs.join(sep)] *)
Fixpoint join (sep : string) (xs : list string) : string :=
  match xs with
  | [] => EmptyString
  | [x] => x
  | x :: rest => String.append x (String.append sep (join sep rest))
  end.

Section BuildTree.
(** How a number prints inside a template literal. *)
Variable Number_toString : float -> string.

(** The text one [call] adds to [result]: [buildTree([call])]. *)
Fixpoint buildTree_call (call : CallTrace) : string :=
  match call with
  | MkCallTrace name duration calls =>
      String.append
        (String.append name
           (String.append ": " (String.append (Number_toString duration) newline)))
        (if (0 <? length calls)%nat then
           join newline
             (map (fun subCall =>
                     join newline
                       (map (fun line => String.append "|  " line)
                            (split_newline (buildTree_call subCall))))
                  calls)
         else EmptyString)
  end.

Definition buildTree (calls : list CallTrace) : string :=
  fold_left (fun result call => String.append result (buildTree_call call))
            calls EmptyString.
End BuildTree.

(** ** CapabilityNegotiator *)

Local Open Scope Z_scope.

(** The 32-bit two's complement integer a bitwise operator sees. *)
Definition ToInt32 (n : Z) : Z := (n + 2 ^ 31) mod 2 ^ 32 - 2 ^ 31.

(** [a & b], [a | b], [~a], [a << b] *)
Definition js_and (a b : Z) : Z := Z.land (ToInt32 a) (ToInt32 b).
Definition js_or (a b : Z) : Z := Z.lor (ToInt32 a) (ToInt32 b).
Definition js_not (a : Z) : Z := Z.lnot (ToInt32 a).
Definition js_shl (a b : Z) : Z := ToInt32 (Z.shiftl (ToInt32 a) (b mod 32)).

Definition KNOWN_CAPABILITIES : list (string * Z * string) :=
  [ ("LAZY_USER_NOTES", js_shl 1 0, "Remove the notes field from the READY event.");
    ("NO_AFFINE_USER_IDS", js_shl 1 1, "Disable member/presence syncing for implicit relationships");
    ("VERSIONED_READ_STATES", js_shl 1 2, "Enable client state for ReadStates");
    ("VERSIONED_USER_GUILD_SETTINGS", js_shl 1 3, "Enable client state for UserGuildSettings");
    ("DEDUPE_USER_OBJECTS", js_shl 1 4, "Deduplicate user objects in READY.");
    ("PRIORITIZED_READY_PAYLOAD", js_shl 1 5, "Separate READY into two events (READY itself and READY_SUPPLEMENTAL).");
    ("MULTIPLE_GUILD_EXPERIMENT_POPULATIONS", js_shl 1 6, "Changes populations field in guild_experiments in READY to be array of populations rather than a single population");
    ("NON_CHANNEL_READ_STATES", js_shl 1 7, "Include read state tied to non-channel resources in READY");
    ("AUTH_TOKEN_REFRESH", js_shl 1 8, "Enable migration of mfa.*** tokens");
    ("USER_SETTINGS_PROTO", js_shl 1 9, "Disable legacy user settings (remove user_settings field in READY and prevent USER_SETTINGS_UPDATE event)");
    ("CLIENT_STATE_V2", js_shl 1 10, "Enable client state caching v2");
    ("PASSIVE_GUILD_UPDATE", js_shl 1 11, "Enable better passive guild updating, disables CHANNEL_UNREAD_UPDATE and enables PASSIVE_UPDATE_V1 instead");
    ("AUTO_CALL_CONNECT", js_shl 1 12, "Automatically connect to all existing calls on startup");
    ("DEBOUNCE_MESSAGE_REACTIONS", js_shl 1 13, "Debounce multiple message reaction add events");
    ("PASSIVE_GUILD_UPDATE_V2", js_shl 1 14, "Enable even better passive guild updating, disables CHANNEL_UNREAD_UPDATE/PASSIVE_UPDATE_V1 and enables PASSIVE_UPDATE_V2 enabled");
    ("PRIVATE_CHANNEL_OBFUSCATION", js_shl 1 15, "Reset all fields except 'id', 'name' (name is set to '___name___') in unavailable GuildChannel objects");
    ("UNKNOWN_BIT_16", js_shl 1 16, "Unknown bit 16");
    ("UNKNOWN_BIT_17", js_shl 1 17, "Unknown bit 17");
    ("UNKNOWN_BIT_18", js_shl 1 18, "Unknown bit 18");
    ("UNKNOWN_BIT_19", js_shl 1 19, "Unknown bit 19");
    ("UNKNOWN_BIT_20", js_shl 1 20, "Unknown bit 20");
    ("UNKNOWN_BIT_21", js_shl 1 21, "Unknown bit 21");
    ("UNKNOWN_BIT_22", js_shl 1 22, "Unknown bit 22");
    ("UNKNOWN_BIT_23", js_shl 1 23, "Unknown bit 23");
    ("UNKNOWN_BIT_24", js_shl 1 24, "Unknown bit 24");
    ("UNKNOWN_BIT_25", js_shl 1 25, "Unknown bit 25");
    ("UNKNOWN_BIT_26", js_shl 1 26, "Unknown bit 26");
    ("UNKNOWN_BIT_27", js_shl 1 27, "Unknown bit 27");
    ("UNKNOWN_BIT_28", js_shl 1 28, "Unknown bit 28");
    ("UNKNOWN_BIT_29", js_shl 1 29, "Unknown bit 29");
    ("UNKNOWN_BIT_30", js_shl 1 30, "Unknown bit 30");
    ("UNKNOWN_BIT_31", js_shl 1 31, "Unknown bit 31") ].

(** The [onChange] handler of the checkbox of an entry with mask
    [value], on the number that [capabilities] holds:
    [if (capabilities & value) capabilities &= ~value; else capabilities |= value;] *)
Definition capability_onChange (value capabilities : Z) : Z :=
  if negb (js_and capabilities value =? 0)
  then js_and capabilities (js_not value)
  else js_or capabilities value.

(** The [value] the checkbox of an entry shows: [!!(capabilities & value)]. *)
Definition capability_checked (value capabilities : Z) : bool :=
  negb (js_and capabilities value =? 0).

Local Close Scope Z_scope.

(** ** SchemaNormalizer and PayloadInterceptionPipeline *)

(** [for (const x of iterable) body(x)].  An array is walked by index
    up to its length, each element read when its turn comes, a hole
    reading [undefined]; nothing in this plugin changes the length of an
    array.  A string yields its characters.  The other values here have
    no iterator. *)
Definition array_element (l : loc) (i : nat) : M value :=
  let* o := deref l in
  match okind o with
  | KArray elems => ret (default VUndefined (mjoin (elems !! i)))
  | _ => unmodelled
  end.

Definition string_chars (s : string) : list string :=
  map (fun c => String c EmptyString) (list_ascii_of_string s).

Definition for_of (iterable : value) (body : value -> M unit) : M unit :=
  match iterable with
  | VRef l =>
      let* o := deref l in
      match okind o with
      | KArray elems =>
          for_each (seq 0 (length elems))
            (fun i => let* x := array_element l i in body x)
      | KRecord (ProtoClass _ _) => unmodelled
      | _ => throw TypeError
      end
  | VString s => for_each (string_chars s) (fun c => body (VString c))
  | _ => throw TypeError
  end.

Definition outerFields : list string :=
  [ "id"; "data_mode"; "partial_updates"; "channel_updates";
    "guild_scheduled_events"; "joined_at"; "last_messages"; "member_count";
    "members"; "premium_subscription_count"; "roles"; "stage_instances";
    "unable_to_sync_deletes"; "threads"; "version"; "has_threads_subscription";
    "stickers"; "presences"; "activity_instances"; "voice_states" ].

(** [key in arr] for an array literal: [key] is one of its indices, or
    a name every array has. *)
Definition in_array (key : string) (arr : list string) : bool :=
  match key_index key (length arr) with
  | Some _ => true
  | None =>
      mem_string key Array_prototype_names ||
      mem_string key Object_prototype_names
  end.

(** The body of the loop over [data.guilds]. *)
Definition normalize_guild (guildData : value) : M unit :=
  let* has_properties := js_in "properties" guildData in
  if negb has_properties then
    let* properties := alloc (Obj (KRecord ProtoObject) []) in
    let* keys := Object_keys guildData in
    for_each keys
      (fun key =>
         if in_array key outerFields then
           let* x := Get guildData key in
           Put (VRef properties) key x;;
           Delete guildData key
         else ret tt);;
    Put guildData "properties" (VRef properties)
  else ret tt.

(** [_interceptIncomingDispatchPayload(type, data, extra)], with the
    setting [settings.store.fixReady] as [fixReady].  The pair returned
    stands for the array [[type, data]]. *)
Definition _interceptIncomingDispatchPayload
    (fixReady : bool) (type : string) (data extra : value) : M (string * value) :=
  (if String.eqb type "READY" && fixReady then
     let* read_state := Get data "read_state" in
     let* is_array := Array_isArray read_state in
     (if is_array then
        let* entries := Get data "read_state" in
        let* versioned :=
          alloc (Obj (KRecord ProtoObject)
                   [("entries", entries); ("partial", VBool false);
                    ("version", VNumber 1)]) in
        Put data "read_state" (VRef versioned)
      else ret tt);;
     let* user_guild_settings := Get data "user_guild_settings" in
     let* is_array := Array_isArray user_guild_settings in
     (if is_array then
        let* entries := Get data "user_guild_settings" in
        let* versioned :=
          alloc (Obj (KRecord ProtoObject)
                   [("entries", entries); ("partial", VBool false);
                    ("version", VNumber 1)]) in
        Put data "user_guild_settings" (VRef versioned)
      else ret tt);;
     let* guilds := Get data "guilds" in
     for_of guilds normalize_guild
   else ret tt);;
  ret (type, data).

(** [_interceptIncomingHello(data)] *)
Definition _interceptIncomingHello (data : value) : M value := ret data.

(** The plugin's state: the object store and the module variable
    [let capabilities: number | undefined]. *)
Record state : Type := State { objects : heap; capabilities : value }.

(** A computation on the object store, run inside the plugin's state. *)
Definition on_objects {A} (m : M A) : Comp state A :=
  fun s =>
    match m (objects s) with
    | Ok h a => Ok (State h (capabilities s)) a
    | Throw h e => Throw (State h (capabilities s)) e
    | OutOfFuel => OutOfFuel
    | Unmodelled => Unmodelled
    end.

Definition read_capabilities : Comp state value :=
  fun s => Ok s (capabilities s).

Definition write_capabilities (v : value) : Comp state unit :=
  fun s => Ok (State (objects s) v) tt.

(** [_interceptOutgoingPayload(opcode, data, checkSessionEstablished)];
    [None] is an argument left out or [undefined].  [fuel] is what
    [copy] may use. *)
Definition _interceptOutgoingPayload
    (fuel : nat) (opcode : Z) (data : value)
    (checkSessionEstablished : option bool)
  : Comp state (Z * value * bool) :=
  let checkSessionEstablished :=
    match checkSessionEstablished with
    | None => true
    | Some b => b
    end in
  let* data :=
    (if (opcode =? 2)%Z then
       let* current := read_capabilities in
       (if is_undefined current then
          let* c := on_objects (Get data "capabilities") in
          write_capabilities c
        else ret tt);;
       let* data := on_objects (copy fuel data) in
       let* current := read_capabilities in
       on_objects (Put data "capabilities" current);;
       ret data
     else ret data) in
  ret (opcode, data, checkSessionEstablished).

(** [_captureConnectionStateUpdate(oldState, newState)]: an empty body. *)
Inductive ConnectionState : Type :=
| CLOSED | WILL_RECONNECT | CONNECTING | IDENTIFYING | RESUMING
| SESSION_ESTABLISHED.

Definition _captureConnectionStateUpdate (oldState newState : ConnectionState)
  : Comp state unit := ret tt.


(** ** The modal *)

(** The [onChange] handler of a capability checkbox on the plugin's
    state.  The checkboxes are rendered only when [capabilities] is not
    [undefined]; what the bitwise operators make of a value that is not
    a number is not described. *)
Definition capability_checkbox_onChange (value : Z) : Comp state unit :=
  let* current := read_capabilities in
  match current with
  | VNumber c => write_capabilities (VNumber (capability_onChange value c))
  | _ => unmodelled
  end.

(** [enum ReverseTkModalTab { GATEWAY_TAB, LOGS_TAB, EVENTS_TAB }] *)
Definition ReverseTkModalTab : list (string * Z) :=
  [ ("GATEWAY_TAB", 0%Z); ("LOGS_TAB", 1%Z); ("EVENTS_TAB", 2%Z) ].

(** What the content area of the modal holds. *)
Inductive tab_content : Type :=
| GatewayControls      (* the reconnect controls and the capability boxes *)
| LogsNotDone          (* "Sorry, thats not done yet." *)
| EventsNotAvailable   (* "Not avaiablle currently." *)
| NavigateManually.    (* "Sorry, the plugin is buggy mess. Please navigate
                          to Gateway tab manually." *)

(** The property key a value used as [obj[value]] stands for; numbers
    are integers below [10^21] here, which print in decimal. *)
Definition property_key (v : value) : option string :=
  match v with
  | VString s => Some s
  | VNumber n =>
      if (Z.abs n <? 10 ^ 21)%Z then
        Some (if (n <? 0)%Z then String "-" (index_key (Z.to_nat (- n)))
              else index_key (Z.to_nat n))
      else None
  | VUndefined => Some "undefined"
  | VNull => Some "null"
  | VBool true => Some "true"
  | VBool false => Some "false"
  | _ => None
  end.

(** [({[GATEWAY_TAB]: ..., [LOGS_TAB]: ..., [EVENTS_TAB]: ...})[currentTab]?.() ?? ...]:
    the content for [currentTab].  A name that [Object.prototype]
    provides reaches a built-in, which is not described. *)
Definition ReverseTkModalContent (currentTab : value) : option tab_content :=
  match property_key currentTab with
  | Some key =>
      if String.eqb key "0" then Some GatewayControls
      else if String.eqb key "1" then Some LogsNotDone
      else if String.eqb key "2" then Some EventsNotAvailable
      else if mem_string key Object_prototype_names then None
      else Some NavigateManually
  | None => None
  end.

(** [toolboxActions]: the label of each action and the [defaultTab] it
    opens the modal with, which is the first [currentTab]. *)
Definition toolboxActions : list (string * value) :=
  [ ("Gateway", VString "GATEWAY_TAB"); ("Logs", VString "LOGS_TAB") ].
(** * Vocabulary of the properties *)

(** ** CallTraceTree *)

Definition roundtrip_micros (m : float) : float :=
  Math_round (m / 1000 * 1000)%float.

Fixpoint roundtrip_payload (d : CallTracePayload) : CallTracePayload :=
  match d with
  | Payload m cs =>
      Payload (roundtrip_micros m)
        (Some (match cs with
               | Some l => map (fun '(n, d') => (n, roundtrip_payload d')) l
               | None => []
               end))
  end.

#[local] Unset Elimination Schemes.
Inductive lossless : CallTracePayload -> Prop :=
| lossless_payload m cs :
    roundtrip_micros m = m ->
    Forall (fun p => lossless p.2) cs ->
    lossless (Payload m (Some cs)).

#[local] Set Elimination Schemes.

Section CallTracePayload_induction.
Variable P : CallTracePayload -> Prop.
Hypothesis P_leaf : forall m, P (Payload m None).
Hypothesis P_node : forall m cs, Forall (fun p => P p.2) cs -> P (Payload m (Some cs)).

Fixpoint CallTracePayload_nested_ind (d : CallTracePayload) : P d :=
  match d with
  | Payload m None => P_leaf m
  | Payload m (Some cs) =>
      P_node m cs
        ((fix all (l : list (string * CallTracePayload))
            : Forall (fun p => P p.2) l :=
            match l with
            | [] => List.Forall_nil _
            | (n, d') :: rest =>
                List.Forall_cons _ (n, d') rest (CallTracePayload_nested_ind d') (all rest)
            end) cs)
  end.
End CallTracePayload_induction.

(** ** CapabilityNegotiator *)

(** The numbers the bitwise operators return. *)
Definition int32 (n : Z) : Prop := (- 2 ^ 31 <= n < 2 ^ 31)%Z.

(** ** DeepCopyEngine *)

Definition primitive (v : value) : Prop :=
  match v with VRef _ => False | _ => True end.

Definition copied_proto (p : proto) : proto :=
  match p with ProtoNull => ProtoObject | _ => p end.

Definition proto_members (p : proto) : list string :=
  match p with ProtoClass _ members => members | _ => [] end.

(** The inputs [copy] reproduces: nested at most [n] deep from
    primitives, functions, arrays that carry no named property, and
    records whose keys are distinct, none of them [__proto__], and
    whose class, if any, does not provide [__proto__]. *)
Fixpoint structural (n : nat) (h : heap) (v : value) : Prop :=
  match v with
  | VRef l =>
      match n with
      | O => False
      | S n' =>
          match h !! l with
          | Some (Obj (KFunction _) _) => True
          | Some (Obj (KArray elems) ps) =>
              ps = [] /\
              Forall (fun e => match e with
                               | Some x => structural n' h x
                               | None => True
                               end) elems
          | Some (Obj (KRecord p) ps) =>
              NoDup (map fst ps) /\
              ("__proto__" ∉ map fst ps) /\
              ("__proto__" ∉ proto_members p) /\
              Forall (fun kv => structural n' h kv.2) ps
          | None => False
          end
      end
  | _ => True
  end.

#[local] Unset Elimination Schemes.
Inductive deep_copy (h h' : heap) (lo : nat) : value -> value -> Prop :=
| deep_copy_primitive v :
    primitive v -> deep_copy h h' lo v v
| deep_copy_function l l' code ps :
    h !! l = Some (Obj (KFunction code) ps) ->
    lo <= l' ->
    h' !! l' = Some (Obj (KFunction (Forwarder l)) []) ->
    deep_copy h h' lo (VRef l) (VRef l')
| deep_copy_array l l' elems elems' :
    h !! l = Some (Obj (KArray elems) []) ->
    lo <= l' ->
    h' !! l' = Some (Obj (KArray elems') []) ->
    Forall2 (option_Forall2 (deep_copy h h' lo)) elems elems' ->
    deep_copy h h' lo (VRef l) (VRef l')
| deep_copy_record l l' p ps ps' :
    h !! l = Some (Obj (KRecord p) ps) ->
    lo <= l' ->
    h' !! l' = Some (Obj (KRecord (copied_proto p)) ps') ->
    Forall2 (fun kv kv' => kv.1 = kv'.1 /\ deep_copy h h' lo kv.2 kv'.2) ps ps' ->
    deep_copy h h' lo (VRef l) (VRef l').
#[local] Set Elimination Schemes.

Section deep_copy_induction.
Variables (h h' : heap) (lo : nat) (P : value -> value -> Prop).
Hypothesis P_primitive : forall v, primitive v -> P v v.
Hypothesis P_function : forall l l' code ps,
  h !! l = Some (Obj (KFunction code) ps) ->
  lo <= l' ->
  h' !! l' = Some (Obj (KFunction (Forwarder l)) []) ->
  P (VRef l) (VRef l').
Hypothesis P_array : forall l l' elems elems',
  h !! l = Some (Obj (KArray elems) []) ->
  lo <= l' ->
  h' !! l' = Some (Obj (KArray elems') []) ->
  Forall2 (option_Forall2 P) elems elems' ->
  P (VRef l) (VRef l').
Hypothesis P_record : forall l l' p ps ps',
  h !! l = Some (Obj (KRecord p) ps) ->
  lo <= l' ->
  h' !! l' = Some (Obj (KRecord (copied_proto p)) ps') ->
  Forall2 (fun kv kv' => kv.1 = kv'.1 /\ P kv.2 kv'.2) ps ps' ->
  P (VRef l) (VRef l').

Fixpoint deep_copy_nested_ind (v v' : value) (H : deep_copy h h' lo v v')
  {struct H} : P v v' :=
  match H in deep_copy _ _ _ v v' return P v v' with
  | deep_copy_primitive _ _ _ v Hv => P_primitive v Hv
  | deep_copy_function _ _ _ l l' code ps Hl Hlo Hl' =>
      P_function l l' code ps Hl Hlo Hl'
  | deep_copy_array _ _ _ l l' elems elems' Hl Hlo Hl' Hall =>
      P_array l l' elems elems' Hl Hlo Hl'
        ((fix all es es' (Hes : Forall2 (option_Forall2 (deep_copy h h' lo)) es es')
            : Forall2 (option_Forall2 P) es es' :=
            match Hes in Forall2 _ es es'
                  return Forall2 (option_Forall2 P) es es' with
            | @List.Forall2_nil _ _ _ => List.Forall2_nil _
            | @List.Forall2_cons _ _ _ e e' r r' He Hr =>
                @List.Forall2_cons _ _ _ e e' r r'
                  (match He in option_Forall2 _ e e'
                         return option_Forall2 P e e' with
                   | Some_Forall2 _ x y Hxy =>
                       Some_Forall2 _ x y (deep_copy_nested_ind x y Hxy)
                   | None_Forall2 _ => None_Forall2 _
                   end)
                  (all r r' Hr)
            end) elems elems' Hall)
  | deep_copy_record _ _ _ l l' p ps ps' Hl Hlo Hl' Hall =>
      P_record l l' p ps ps' Hl Hlo Hl'
        ((fix all es es'
            (Hes : Forall2 (fun kv kv' => kv.1 = kv'.1 /\ deep_copy h h' lo kv.2 kv'.2) es es')
            : Forall2 (fun kv kv' => kv.1 = kv'.1 /\ P kv.2 kv'.2) es es' :=
            match Hes in Forall2 _ es es'
                  return Forall2 (fun kv kv' => kv.1 = kv'.1 /\ P kv.2 kv'.2) es es' with
            | @List.Forall2_nil _ _ _ => List.Forall2_nil _
            | @List.Forall2_cons _ _ _ e e' r r' He Hr =>
                @List.Forall2_cons _ _ _ e e' r r'
                  (match He with
                   | conj Hk Hv => conj Hk (deep_copy_nested_ind e.2 e'.2 Hv)
                   end)
                  (all r r' Hr)
            end) ps ps' Hall)
  end.
End deep_copy_induction.

(** every cell of [h] is still there in [h'], unchanged *)
Definition preserved (h h' : heap) : Prop :=
  forall l o, h !! l = Some o -> h' !! l = Some o.


(** A computation that, run from any store in which the cells of [h0]
    are unchanged, ends with them still unchanged. *)
Definition leaves_alone (h0 : heap) {A} (m : M A) : Prop :=
  forall h, preserved h0 h ->
    match m h with
    | Ok h' _ | Throw h' _ => preserved h0 h'
    | OutOfFuel | Unmodelled => True
    end.

(** ** PayloadInterceptionPipeline *)

(** [data] is an object nested at most [n] deep that carries
    [capabilities: c] as an own property, and whose class, if it has
    one, does not provide that name. *)
Definition identify_data (n : nat) (h : heap) (data c : value) : Prop :=
  exists l p ps,
    data = VRef l /\
    h !! l = Some (Obj (KRecord p) ps) /\
    assoc "capabilities" ps = Some c /\
    mem_string "capabilities" (proto_members p) = false /\
    structural n h data.

(** ** SchemaNormalizer *)

(** What an object is, whatever its elements and properties hold. *)
Definition shape (o : object) : kind :=
  match okind o with
  | KArray _ => KArray []
  | other => other
  end.

(** [o'] is what an object [o] may have become: the same kind of
    object, with the same value under every key in [K], and still with
    an own [properties] if it had one. *)
Definition later_object (K : string -> Prop) (o o' : object) : Prop :=
  shape o' = shape o /\
  (forall k, K k -> own_property o' k = own_property o k) /\
  (is_Some (own_property o "properties") -> is_Some (own_property o' "properties")).

Definition evolves (K : string -> Prop) (h h' : heap) : Prop :=
  forall l o, h !! l = Some o -> exists o', h' !! l = Some o' /\ later_object K o o'.

(** The keys the loop over the guild list never touches. *)
Definition kept_key (k : string) : Prop :=
  in_array k outerFields = false /\ k <> "properties".

(** In [h], [data[f]] reads a value that is not an array. *)
Definition not_array_field (h : heap) (data : value) (f : string) : Prop :=
  exists x, Get data f h = Ok h x /\ Array_isArray x h = Ok h false.

(** The array under [data.guilds], if there is one, is not one of its
    own elements. *)
Definition guilds_not_nested (h : heap) (data : value) : Prop :=
  forall l o lg G elems i,
    data = VRef l -> h !! l = Some o ->
    own_property o "guilds" = Some (VRef lg) ->
    h !! lg = Some G -> okind G = KArray elems ->
    elems !! i <> Some (Some (VRef lg)).

(** The block [_interceptIncomingDispatchPayload] applies to
    [read_state] and then to [user_guild_settings], for a field [f]. *)
Definition wrap_versioned (f : string) (data : value) : M unit :=
  let* x := Get data f in
  let* is_array := Array_isArray x in
  if is_array then
    let* entries := Get data f in
    let* versioned :=
      alloc (Obj (KRecord ProtoObject)
               [("entries", entries); ("partial", VBool false);
                ("version", VNumber 1)]) in
    Put data f (VRef versioned)
  else ret tt.

(** A JSON object: a record with [Object.prototype] and distinct keys.
    Its entry under [__proto__], if it has one, holds a primitive (an
    object there would become the prototype of the object the entry is
    assigned to, which [proto] cannot express). *)
Definition plain_record (h : heap) (l : loc) : Prop :=
  exists ps,
    h !! l = Some (Obj (KRecord ProtoObject) ps) /\
    NoDup (map fst ps) /\
    (forall x, assoc "__proto__" ps = Some x -> primitive x).

(** The entries the loop over the keys moves, and those it leaves. *)
Definition moved_entries (ps : list (string * value)) : list (string * value) :=
  List.filter (fun kv => in_array kv.1 outerFields) ps.

Definition without_proto_key (ps : list (string * value)) : list (string * value) :=
  List.filter (fun kv => negb (String.eqb kv.1 "__proto__")) ps.

(** The object the loop over the keys of a JSON object with entries
    [ps] fills.  [properties["__proto__"] = x] reaches the setter of
    [Object.prototype]: it adds no key, and takes the prototype away
    when [x] is [null]. *)
Definition moved_object (ps : list (string * value)) : object :=
  Obj (KRecord (match assoc "__proto__" ps with
                | Some VNull => ProtoNull
                | _ => ProtoObject
                end))
      (without_proto_key (moved_entries ps)).

Definition left_entries (ps : list (string * value)) : list (string * value) :=
  List.filter (fun kv => negb (in_array kv.1 outerFields)) ps.

(** No property of the object at [l] is a dangling reference. *)
Definition fields_valid (h : heap) (l : loc) : Prop :=
  forall o k l', h !! l = Some o -> assoc k (props o) = Some (VRef l') ->
                 is_Some (h !! l').
(** * Properties *)

(** ** Running the computations *)

#[local] Arguments bind : simpl never.
#[local] Arguments deref : simpl never.
#[local] Arguments alloc : simpl never.
#[local] Arguments store : simpl never.
#[local] Arguments Get : simpl never.
#[local] Arguments Put : simpl never.
#[local] Arguments Delete : simpl never.
#[local] Arguments js_in : simpl never.
#[local] Arguments Object_entries : simpl never.
#[local] Arguments Object_keys : simpl never.
#[local] Arguments typeof : simpl never.
#[local] Arguments Array_isArray : simpl never.
#[local] Arguments Array_map : simpl never.
#[local] Arguments copy_prototype : simpl never.
#[local] Arguments copy : simpl never.
#[local] Arguments modelled : simpl never.

Lemma bind_Ok {S A B} (m : Comp S A) (k : A -> Comp S B) s s' a :
  m s = Ok s' a -> bind m k s = k a s'.
Proof. unfold bind. by intros ->. Qed.

Lemma bind_assoc {S A B C} (m : Comp S A) (f : A -> Comp S B) (g : B -> Comp S C) s :
  bind (bind m f) g s = bind m (fun x => bind (f x) g) s.
Proof. unfold bind. by destruct (m s). Qed.

(** Run the first computation of a sequence, given what it returns. *)
Ltac mstep H :=
  repeat rewrite bind_assoc; rewrite (bind_Ok _ _ _ _ _ H); simpl.

Lemma deref_Ok h l o : h !! l = Some o -> deref l h = Ok h o.
Proof. unfold deref. by intros ->. Qed.

Lemma store_Ok h l o o' : h !! l = Some o' -> store l o h = Ok (<[l := o]> h) tt.
Proof. unfold store. by intros ->. Qed.

Lemma alloc_Ok o h : alloc o h = Ok (h ++ [o]) (length h).
Proof. reflexivity. Qed.

Lemma modelled_Some {A} (a : A) h : modelled (Some a) h = Ok h a.
Proof. reflexivity. Qed.

Lemma Get_ref h l o x k :
  h !! l = Some o -> get_property o k = Some x -> Get (VRef l) k h = Ok h x.
Proof.
  intros H Hx. unfold Get.
  rewrite (bind_Ok _ _ _ _ _ (deref_Ok _ _ _ H)), Hx. reflexivity.
Qed.

Lemma js_in_ref h l o b k :
  h !! l = Some o -> has_property o k = Some b -> js_in k (VRef l) h = Ok h b.
Proof.
  intros H Hb. unfold js_in.
  rewrite (bind_Ok _ _ _ _ _ (deref_Ok _ _ _ H)), Hb. reflexivity.
Qed.

Lemma Put_ref h l o o' k x :
  h !! l = Some o -> put_property o k x = Some o' ->
  Put (VRef l) k x h = Ok (<[l := o']> h) tt.
Proof.
  intros H Ho'. unfold Put.
  rewrite (bind_Ok _ _ _ _ _ (deref_Ok _ _ _ H)), Ho'.
  rewrite (bind_Ok _ _ _ _ _ (modelled_Some _ _)).
  by apply store_Ok with o.
Qed.

Lemma Delete_ref h l o o' k :
  h !! l = Some o -> delete_property o k = Some o' ->
  Delete (VRef l) k h = Ok (<[l := o']> h) tt.
Proof.
  intros H Ho'. unfold Delete.
  rewrite (bind_Ok _ _ _ _ _ (deref_Ok _ _ _ H)), Ho'.
  by apply store_Ok with o.
Qed.

Lemma typeof_ref h l o :
  h !! l = Some o ->
  typeof (VRef l) h =
  Ok h (match okind o with KFunction _ => "function" | _ => "object" end).
Proof.
  intros H. unfold typeof. rewrite (bind_Ok _ _ _ _ _ (deref_Ok _ _ _ H)).
  by destruct (okind o).
Qed.

Lemma Array_isArray_ref h l o :
  h !! l = Some o ->
  Array_isArray (VRef l) h =
  Ok h (match okind o with KArray _ => true | _ => false end).
Proof.
  intros H. unfold Array_isArray. rewrite (bind_Ok _ _ _ _ _ (deref_Ok _ _ _ H)).
  by destruct (okind o).
Qed.

(** ** CallTraceTree: the wire round trip *)

Lemma toData_new_CallTrace n d :
  toData (new_CallTrace n d) = (n, roundtrip_payload d).
Proof.
  revert n. induction d as [m | m cs IH] using CallTracePayload_nested_ind; intros n.
  - reflexivity.
  - simpl. unfold roundtrip_micros. do 3 f_equal.
    rewrite map_map.
    induction IH as [| [n' d'] rest Hd _ IHrest]; simpl.
    + reflexivity.
    + f_equal; [apply Hd | apply IHrest].
Qed.

Lemma toWire_fromWire t :
  toWire (fromWire t) = map (fun '(n, d) => (n, roundtrip_payload d)) t.
Proof.
  unfold toWire, fromWire. rewrite map_map.
  apply map_ext. intros [n d]. apply toData_new_CallTrace.
Qed.

Lemma lossless_roundtrip d : lossless d -> roundtrip_payload d = d.
Proof.
  induction d as [m | m cs IH] using CallTracePayload_nested_ind; intros H.
  - inversion H.
  - inversion H as [m' cs' Hm Hcs]; subst. simpl. rewrite Hm. do 2 f_equal.
    induction IH as [| [n' d'] rest Hd _ IHrest]; simpl.
    + reflexivity.
    + inversion Hcs; subst. f_equal; [f_equal; auto | auto].
      apply IHrest; [constructor|]; assumption.
Qed.

(** C3.  [toWire (fromWire t)] is [t] for every tuple list [t] in which
    each payload, at every depth, carries the [calls] key and a [micros]
    that [Math.round(micros / 1000 * 1000)] gives back. *)
Theorem wire_roundtrip t :
  Forall (fun p => lossless p.2) t -> toWire (fromWire t) = t.
Proof.
  intros H. rewrite toWire_fromWire.
  induction H as [| [n d] rest Hd _ IH]; simpl; [reflexivity|].
  rewrite (lossless_roundtrip d Hd), IH. reflexivity.
Qed.

Lemma wire_roundtrip_witness :
  let t := [("root", Payload 2500 (Some [("child", Payload 1000 (Some []))]))] in
  Forall (fun p => lossless p.2) t /\ toWire (fromWire t) = t.
Proof.
  assert (H : Forall (fun p => lossless p.2)
      [("root", Payload 2500 (Some [("child", Payload 1000 (Some []))]))]).
  { repeat constructor. }
  split; [exact H | exact (wire_roundtrip _ H)].
Defined.

(** Two tuple lists with integer [micros] that do not come back: one
    whose payload has no [calls] key ([toData] always writes the key),
    and one whose [micros] is not the nearest double of its
    thousandth times 1000. *)
Lemma wire_roundtrip_counterexample :
  (let t := [("child", Payload 1000 None)] in toWire (fromWire t) <> t) /\
  (let t := [("root", Payload 284135807365282400 (Some []))] in toWire (fromWire t) <> t).
Proof.
  split; intros t H.
  - discriminate H.
  - apply (f_equal (fun t => match t with
                             | (_, Payload m _) :: _ => PrimFloat.eqb m 284135807365282400
                             | _ => false
                             end)) in H.
    vm_compute in H. discriminate H.
Qed.
(** ** CapabilityNegotiator: the bit controls *)

Local Open Scope Z_scope.

Lemma ToInt32_range n : int32 (ToInt32 n).
Proof.
  unfold int32, ToInt32.
  pose proof (Z.mod_pos_bound (n + 2 ^ 31) (2 ^ 32) ltac:(lia)). lia.
Qed.

Lemma ToInt32_int32 n : int32 n -> ToInt32 n = n.
Proof.
  unfold int32, ToInt32. intros H.
  rewrite Z.mod_small by lia. lia.
Qed.

(* sign extension *)
Lemma testbit_above a j : 0 <= a < 2 ^ 31 -> 31 <= j -> Z.testbit a j = false.
Proof.
  intros Ha Hj.
  destruct (Z.eq_dec a 0) as [->|Hnz]; [apply Z.bits_0|].
  apply Z.bits_above_log2; [lia|].
  apply Z.lt_le_trans with 31; [|assumption].
  apply Z.log2_lt_pow2; lia.
Qed.

Lemma int32_testbit n j : int32 n -> 31 <= j -> Z.testbit n j = Z.testbit n 31.
Proof.
  unfold int32. intros Hn Hj.
  destruct (Z.neg_nonneg_cases n) as [Hneg | Hpos].
  - rewrite <- (Z.lnot_involutive n).
    rewrite !(Z.lnot_spec (Z.lnot n)) by lia.
    assert (Hb : 0 <= Z.lnot n < 2 ^ 31) by (unfold Z.lnot, Z.pred; lia).
    rewrite !testbit_above by lia. reflexivity.
  - rewrite !testbit_above by lia. reflexivity.
Qed.

Lemma testbit_int32 n :
  (forall j, 31 <= j -> Z.testbit n j = Z.testbit n 31) -> int32 n.
Proof.
  intros H. unfold int32.
  destruct (Z.testbit n 31) eqn:E.
  - (* negative *)
    assert (Hneg : n < 0).
    { destruct (Z.neg_nonneg_cases n) as [|Hp]; [assumption|].
      exfalso.
      pose proof (Z.bits_above_log2 n (Z.max 31 (Z.succ (Z.log2 n))) Hp ltac:(lia)) as Hb.
      rewrite H in Hb by lia. congruence. }
    split; [|lia].
    assert (Hl : 0 <= Z.lnot n) by (unfold Z.lnot, Z.pred; lia).
    enough (Z.lnot n < 2 ^ 31) by (unfold Z.lnot, Z.pred in *; lia).
    destruct (Z.eq_dec (Z.lnot n) 0) as [->|Hnz]; [lia|].
    apply Z.log2_lt_pow2; [lia|].
    destruct (Z_lt_le_dec (Z.log2 (Z.lnot n)) 31) as [|Hge]; [assumption|].
    exfalso.
    pose proof (Z.bit_log2 (Z.lnot n) ltac:(lia)) as Hb.
    rewrite Z.lnot_spec in Hb by (apply Z.log2_nonneg).
    rewrite H in Hb by lia. discriminate.
  - assert (Hp : 0 <= n).
    { destruct (Z.neg_nonneg_cases n) as [Hn|]; [|assumption].
      exfalso.
      pose proof (Z.bits_above_log2_neg n (Z.max 31 (Z.succ (Z.log2 (Z.pred (- n))))) Hn ltac:(lia)) as Hb.
      rewrite H in Hb by lia. congruence. }
    split; [lia|].
    destruct (Z.eq_dec n 0) as [->|Hnz]; [lia|].
    apply Z.log2_lt_pow2; [lia|].
    destruct (Z_lt_le_dec (Z.log2 n) 31) as [|Hge]; [assumption|].
    exfalso.
    pose proof (Z.bit_log2 n ltac:(lia)) as Hb.
    rewrite H in Hb by lia. congruence.
Qed.

Lemma int32_land a b : int32 a -> int32 b -> int32 (Z.land a b).
Proof.
  intros Ha Hb. apply testbit_int32. intros j Hj.
  rewrite !Z.land_spec, (int32_testbit a j), (int32_testbit b j) by assumption.
  reflexivity.
Qed.

Lemma int32_lor a b : int32 a -> int32 b -> int32 (Z.lor a b).
Proof.
  intros Ha Hb. apply testbit_int32. intros j Hj.
  rewrite !Z.lor_spec, (int32_testbit a j), (int32_testbit b j) by assumption.
  reflexivity.
Qed.

Lemma int32_lnot a : int32 a -> int32 (Z.lnot a).
Proof. unfold int32, Z.lnot, Z.pred. lia. Qed.

(* the mask of bit k *)
Lemma js_shl_1 k : 0 <= k < 32 -> js_shl 1 k = ToInt32 (2 ^ k).
Proof.
  intros Hk. unfold js_shl.
  rewrite (ToInt32_int32 1) by (unfold int32; lia).
  rewrite Z.mod_small by lia.
  rewrite Z.shiftl_1_l. reflexivity.
Qed.

Lemma mask_testbit k j :
  0 <= k < 32 -> 0 <= j < 32 ->
  Z.testbit (ToInt32 (2 ^ k)) j = Z.eqb k j.
Proof.
  intros Hk Hj.
  destruct (Z.eq_dec k 31) as [->|Hne].
  - change (ToInt32 (2 ^ 31)) with (- 2 ^ 31).
    destruct (Z.eqb_spec 31 j) as [<-|Hd].
    + reflexivity.
    + replace (- 2 ^ 31) with (Z.lnot (Z.ones 31)) by reflexivity.
      rewrite Z.lnot_spec by lia.
      rewrite Z.ones_spec_low by lia. reflexivity.
  - rewrite ToInt32_int32.
    + rewrite Z.pow2_bits_eqb by lia. reflexivity.
    + unfold int32. split.
      * pose proof (Z.pow_nonneg 2 k). lia.
      * apply Z.pow_lt_mono_r; lia.
Qed.

Lemma known_capability_mask k entry :
  KNOWN_CAPABILITIES !! k = Some entry ->
  entry.1.2 = ToInt32 (2 ^ Z.of_nat k) /\ (k < 32)%nat.
Proof.
  intros H.
  assert (Hk : (k < 32)%nat).
  { apply lookup_lt_Some in H. exact H. }
  split; [|assumption].
  do 32 (destruct k as [|k]; [injection H as <-; reflexivity|]).
  simpl in Hk. lia.
Qed.

Lemma int32_bits_inj a b :
  int32 a -> int32 b ->
  (forall j, 0 <= j < 32 -> Z.testbit a j = Z.testbit b j) -> a = b.
Proof.
  intros Ha Hb H. apply Z.bits_inj'. intros j Hj.
  destruct (Z_lt_le_dec j 32) as [Hlt|Hge].
  - apply H. lia.
  - rewrite (int32_testbit a j), (int32_testbit b j) by (assumption || lia).
    apply H. lia.
Qed.

Lemma capability_onChange_int32 k c :
  int32 c -> int32 (capability_onChange (ToInt32 (2 ^ k)) c).
Proof.
  intros Hc. unfold capability_onChange, js_and, js_or, js_not.
  destruct (negb _).
  - apply int32_land; apply ToInt32_range.
  - apply int32_lor; apply ToInt32_range.
Qed.

(* what one toggle does to each of the 32 bits *)
Lemma toggle_testbit k c j :
  0 <= k < 32 -> int32 c -> 0 <= j < 32 ->
  Z.testbit (capability_onChange (ToInt32 (2 ^ k)) c) j =
  if Z.eqb k j then negb (Z.testbit c j) else Z.testbit c j.
Proof.
  intros Hk Hc Hj.
  unfold capability_onChange, js_and, js_or, js_not.
  rewrite (ToInt32_int32 c) by assumption.
  rewrite (ToInt32_int32 (ToInt32 (2 ^ k))) by apply ToInt32_range.
  rewrite (ToInt32_int32 (Z.lnot _)) by (apply int32_lnot, ToInt32_range).
  assert (Hand : (Z.land c (ToInt32 (2 ^ k)) =? 0) = negb (Z.testbit c k)).
  { destruct (Z.testbit c k) eqn:E; simpl.
    - apply Z.eqb_neq. intros H0.
      assert (Z.testbit (Z.land c (ToInt32 (2 ^ k))) k = false)
        by (rewrite H0; apply Z.bits_0).
      rewrite Z.land_spec, E, mask_testbit, Z.eqb_refl in H by lia.
      discriminate.
    - apply Z.eqb_eq.
      apply int32_bits_inj.
      + apply int32_land; [assumption | apply ToInt32_range].
      + unfold int32; lia.
      + intros i Hi. rewrite Z.land_spec, mask_testbit, Z.bits_0 by lia.
        destruct (Z.eqb_spec k i) as [<-|]; [rewrite E|]; auto using andb_false_r. }
  rewrite Hand, negb_involutive.
  destruct (Z.testbit c k) eqn:E.
  - rewrite Z.land_spec, Z.lnot_spec, mask_testbit by lia.
    destruct (Z.eqb_spec k j) as [<-|]; [rewrite E|]; simpl; auto using andb_true_r.
  - rewrite Z.lor_spec, mask_testbit by lia.
    destruct (Z.eqb_spec k j) as [<-|]; [rewrite E|]; simpl; auto using orb_false_r.
Qed.

(* the operators read a number through [ToInt32] *)
Lemma ToInt32_idem n : ToInt32 (ToInt32 n) = ToInt32 n.
Proof. apply ToInt32_int32, ToInt32_range. Qed.

Lemma capability_onChange_ToInt32 value c :
  capability_onChange value c = capability_onChange value (ToInt32 c).
Proof.
  unfold capability_onChange, js_and, js_or. by rewrite ToInt32_idem.
Qed.

Lemma ToInt32_testbit n j : 0 <= j < 32 -> Z.testbit (ToInt32 n) j = Z.testbit n j.
Proof.
  intros Hj.
  rewrite <- (Z.mod_pow2_bits_low (ToInt32 n) 32 j), <- (Z.mod_pow2_bits_low n 32 j) by lia.
  f_equal. unfold ToInt32.
  pose proof (Z.div_mod (n + 2 ^ 31) (2 ^ 32) ltac:(lia)) as Hdiv.
  replace ((n + 2 ^ 31) mod 2 ^ 32 - 2 ^ 31)
    with (n + - ((n + 2 ^ 31) / 2 ^ 32) * 2 ^ 32) by lia.
  apply Z.mod_add. lia.
Qed.

(** C10.  For the checkbox of every entry [k] of [KNOWN_CAPABILITIES]
    and every number [c] held in [capabilities]: one change of the
    checkbox inverts bit [k] of [c] and keeps each other bit among the
    low 32; two changes give [ToInt32 c], the signed 32-bit integer with
    the low 32 bits of [c].  That is [c] itself when
    [-2^31 <= c < 2^31]. *)
Theorem toggle_twice (k : nat) (entry : string * Z * string) (c : Z) :
  KNOWN_CAPABILITIES !! k = Some entry ->
  let value := entry.1.2 in
  capability_onChange value (capability_onChange value c) = ToInt32 c /\
  (- 2 ^ 31 <= c < 2 ^ 31 ->
   capability_onChange value (capability_onChange value c) = c) /\
  (forall j, 0 <= j < 32 ->
     Z.testbit (capability_onChange value c) j =
     if Z.eqb (Z.of_nat k) j then negb (Z.testbit c j) else Z.testbit c j).
Proof.
  intros He value.
  destruct (known_capability_mask k entry He) as [Hv Hk].
  subst value. rewrite Hv.
  assert (Hk' : 0 <= Z.of_nat k < 32) by lia.
  assert (Hc : int32 (ToInt32 c)) by apply ToInt32_range.
  assert (Htwice : capability_onChange (ToInt32 (2 ^ Z.of_nat k))
                     (capability_onChange (ToInt32 (2 ^ Z.of_nat k)) c) = ToInt32 c).
  { rewrite (capability_onChange_ToInt32 _ c).
    apply int32_bits_inj.
    - apply capability_onChange_int32, capability_onChange_int32, Hc.
    - exact Hc.
    - intros j Hj.
      rewrite !toggle_testbit by (assumption || apply capability_onChange_int32, Hc).
      destruct (Z.of_nat k =? j); [apply negb_involutive | reflexivity]. }
  split; [exact Htwice|]. split.
  - intros Hr. rewrite Htwice. by apply ToInt32_int32.
  - intros j Hj. rewrite (capability_onChange_ToInt32 _ c).
    rewrite toggle_testbit by assumption.
    by rewrite ToInt32_testbit.
Qed.

Lemma toggle_twice_witness :
  let c := 5 in
  let value := js_shl 1 2 in
  KNOWN_CAPABILITIES !! 2%nat
    = Some ("VERSIONED_READ_STATES", value, "Enable client state for ReadStates") /\
  capability_onChange value c = 1 /\
  capability_onChange value (capability_onChange value c) = c.
Proof.
  intros c value. split; [reflexivity|]. split; [reflexivity|].
  exact (proj1 (proj2 (toggle_twice 2 _ c eq_refl)) ltac:(lia)).
Defined.

(** An unsigned 32-bit bitmask with bit 31 set does not come back:
    [2147483648] becomes [-2147483647] at the first change of the
    checkbox of bit 0 and [-2147483648] at the second. *)
Lemma toggle_twice_uint32_counterexample :
  let value := js_shl 1 0 in
  let c := 2147483648 in
  KNOWN_CAPABILITIES !! 0%nat
    = Some ("LAZY_USER_NOTES", value, "Remove the notes field from the READY event.") /\
  0 <= c < 2 ^ 32 /\
  capability_onChange value c = -2147483647 /\
  capability_onChange value (capability_onChange value c) = -2147483648 /\
  capability_onChange value (capability_onChange value c) <> c.
Proof.
  intros value c. split; [reflexivity|]. split; [lia|].
  split; [reflexivity|]. split; [reflexivity|]. discriminate.
Qed.

Local Close Scope Z_scope.
(** ** DeepCopyEngine *)

Lemma deep_copy_mono h h1 h2 lo lo' v v' :
  deep_copy h h1 lo v v' ->
  lo' <= lo ->
  (forall l o, lo <= l -> h1 !! l = Some o -> h2 !! l = Some o) ->
  deep_copy h h2 lo' v v'.
Proof.
  intros H Hlo Hagree.
  induction H using deep_copy_nested_ind.
  - by apply deep_copy_primitive.
  - eapply deep_copy_function; eauto. lia.
  - eapply deep_copy_array; eauto. lia.
  - eapply deep_copy_record; eauto. lia.
Qed.

Lemma copy_unfold n obj :
  copy (S n) obj =
  (let* t := typeof obj in
   if is_undefined obj || is_null obj ||
      mem_string t ["bigint"; "boolean"; "number"; "string"]
   then ret obj
   else
     match obj with
     | VRef l =>
         if String.eqb t "function" then
           let* f := alloc (Obj (KFunction (Forwarder l)) []) in
           ret (VRef f)
         else
           let* is_array := Array_isArray obj in
           if is_array then Array_map (copy n) obj
           else
             let* r := alloc (Obj (KRecord ProtoObject) []) in
             let* entries := Object_entries obj in
             for_each entries
               (fun '(k, v) =>
                  let* v' := copy n v in Put (VRef r) k v');;
             copy_prototype l r;;
             ret (VRef r)
     | _ => unmodelled
     end).
Proof. reflexivity. Qed.

Lemma copy_primitive n v h : primitive v -> copy (S n) v h = Ok h v.
Proof. by destruct v. Qed.

Lemma copy_function n l code ps h :
  h !! l = Some (Obj (KFunction code) ps) ->
  copy (S n) (VRef l) h =
  Ok (h ++ [Obj (KFunction (Forwarder l)) []]) (VRef (length h)).
Proof.
  intros H. rewrite copy_unfold.
  rewrite (bind_Ok _ _ _ _ _ (typeof_ref _ _ _ H)). reflexivity.
Qed.

Lemma copy_array n l elems ps h :
  h !! l = Some (Obj (KArray elems) ps) ->
  copy (S n) (VRef l) h =
  (let* elems' := map_elems (copy n) elems in
   let* a := alloc (Obj (KArray elems') []) in
   ret (VRef a)) h.
Proof.
  intros H. rewrite copy_unfold.
  rewrite (bind_Ok _ _ _ _ _ (typeof_ref _ _ _ H)). simpl.
  rewrite (bind_Ok _ _ _ _ _ (Array_isArray_ref _ _ _ H)). simpl.
  unfold Array_map. rewrite (bind_Ok _ _ _ _ _ (deref_Ok _ _ _ H)). reflexivity.
Qed.

Lemma copy_record n l p ps h :
  h !! l = Some (Obj (KRecord p) ps) ->
  copy (S n) (VRef l) h =
  (for_each ps
     (fun '(k, v) => let* v' := copy n v in Put (VRef (length h)) k v');;
   copy_prototype l (length h);;
   ret (VRef (length h))) (h ++ [Obj (KRecord ProtoObject) []]).
Proof.
  intros H. rewrite copy_unfold.
  rewrite (bind_Ok _ _ _ _ _ (typeof_ref _ _ _ H)). simpl.
  rewrite (bind_Ok _ _ _ _ _ (Array_isArray_ref _ _ _ H)). simpl.
  rewrite (bind_Ok _ _ _ _ _ (alloc_Ok _ _)).
  assert (Hl : (h ++ [Obj (KRecord ProtoObject) []]) !! l = Some (Obj (KRecord p) ps)).
  { apply lookup_app_l_Some. exact H. }
  unfold Object_entries at 1.
  rewrite (bind_Ok _ _ _ _ _ (bind_Ok _ _ _ _ _ (deref_Ok _ _ _ Hl))).
  reflexivity.
Qed.

Lemma preserved_refl h : preserved h h.
Proof. by intros l o. Qed.

Lemma preserved_trans h1 h2 h3 :
  preserved h1 h2 -> preserved h2 h3 -> preserved h1 h3.
Proof. intros H12 H23 l o H. by apply H23, H12. Qed.

Lemma preserved_length h h' : preserved h h' -> length h <= length h'.
Proof.
  intros H. destruct (le_lt_dec (length h) (length h')) as [|Hlt]; [done|].
  destruct (lookup_lt_is_Some_2 h (length h') Hlt) as [o Ho].
  apply H, lookup_lt_Some in Ho. lia.
Qed.

Lemma preserved_alloc h o : preserved h (h ++ [o]).
Proof. intros l o' H. by apply lookup_app_l_Some. Qed.

Lemma preserved_store h0 h r o :
  preserved h0 h -> length h0 <= r -> preserved h0 (<[r := o]> h).
Proof.
  intros H Hr l o' Hl.
  rewrite list_lookup_insert_ne; [by apply H|].
  apply lookup_lt_Some in Hl. lia.
Qed.

Lemma assoc_set_fresh k v ps :
  k ∉ map fst ps -> assoc_set k v ps = ps ++ [(k, v)].
Proof.
  induction ps as [|[k' v'] ps IH]; simpl; intros H; [done|].
  apply not_elem_of_cons in H as [Hne Hin].
  destruct (String.eqb_spec k k') as [->|_]; [done|].
  by rewrite IH.
Qed.

Lemma assoc_not_key k (ps : list (string * value)) :
  k ∉ map fst ps -> assoc k ps = None.
Proof.
  induction ps as [|[k' v'] ps IH]; simpl; [done|]. intros Hk.
  apply not_elem_of_cons in Hk as [Hne Hk].
  destruct (String.eqb_spec k k'); [done | by apply IH].
Qed.

Lemma Put_record h r p ps k v :
  h !! r = Some (Obj (KRecord p) ps) ->
  k <> "__proto__" ->
  mem_string k (proto_members p) = false ->
  Put (VRef r) k v h = Ok (<[r := Obj (KRecord p) (assoc_set k v ps)]> h) tt.
Proof.
  intros H Hk Hm.
  apply Put_ref with (o := Obj (KRecord p) ps); [done|].
  unfold put_property.
  destruct (String.eqb_spec k "__proto__") as [|_]; [done|].
  simpl. destruct p as [| |c ms]; simpl in *; by try rewrite Hm.
Qed.

Section copy_step.
Variables (n : nat) (h0 : heap).
Hypothesis copy_children : forall h v,
  structural n h0 v -> preserved h0 h ->
  exists h' v', copy (S n) v h = Ok h' v' /\ preserved h h' /\
                deep_copy h0 h' (length h) v v'.

Lemma copy_elems elems : forall h,
  preserved h0 h ->
  Forall (fun e => match e with Some x => structural n h0 x | None => True end) elems ->
  exists h' elems',
    map_elems (copy (S n)) elems h = Ok h' elems' /\ preserved h h' /\
    Forall2 (option_Forall2 (deep_copy h0 h' (length h))) elems elems'.
Proof.
  induction elems as [|[x|] rest IH]; intros h Hh Hall.
  - exists h, []. split; [done|]. split; [apply preserved_refl | constructor].
  - apply Forall_cons in Hall as [Hx Hrest].
    destruct (copy_children h x Hx Hh) as (h1 & x' & Hc & Hp1 & Hd).
    destruct (IH h1 (preserved_trans _ _ _ Hh Hp1) Hrest)
      as (h2 & rest' & Hm & Hp2 & Hall2).
    exists h2, (Some x' :: rest'). simpl.
    rewrite (bind_Ok _ _ _ _ _ Hc), (bind_Ok _ _ _ _ _ Hm).
    split; [done|]. split; [by eapply preserved_trans|].
    constructor.
    + constructor. eapply deep_copy_mono; [exact Hd | done | intros; by apply Hp2].
    + eapply Forall2_impl; [exact Hall2|].
      intros e e' He. destruct He; constructor.
      eapply deep_copy_mono; [eassumption | by apply preserved_length | done].
  - apply Forall_cons in Hall as [_ Hrest].
    destruct (IH h Hh Hrest) as (h2 & rest' & Hm & Hp2 & Hall2).
    exists h2, (None :: rest'). simpl.
    rewrite (bind_Ok _ _ _ _ _ Hm).
    split; [done|]. split; [done|]. constructor; [constructor | done].
Qed.

Lemma copy_entries r ps : forall acc h,
  preserved h0 h -> length h0 <= r ->
  h !! r = Some (Obj (KRecord ProtoObject) acc) ->
  Forall (fun kv => structural n h0 kv.2) ps ->
  NoDup (map fst acc ++ map fst ps) ->
  "__proto__" ∉ map fst ps ->
  exists h' ps',
    for_each ps (fun '(k, v) => let* v' := copy (S n) v in Put (VRef r) k v') h
      = Ok h' tt /\
    preserved h0 h' /\
    (forall l o, l <> r -> h !! l = Some o -> h' !! l = Some o) /\
    h' !! r = Some (Obj (KRecord ProtoObject) (acc ++ ps')) /\
    Forall2 (fun kv kv' => kv.1 = kv'.1 /\ deep_copy h0 h' (S r) kv.2 kv'.2) ps ps'.
Proof.
  induction ps as [|[k v] ps IH]; intros acc h Hh Hr Hacc Hall Hnd Hproto.
  - exists h, []. rewrite app_nil_r. repeat split; try done.
  - apply Forall_cons in Hall as [Hv Hrest].
    simpl in Hproto. apply not_elem_of_cons in Hproto as [Hk Hproto].
    simpl in Hnd.
    destruct (copy_children h v Hv Hh) as (h1 & v' & Hc & Hp1 & Hd).
    assert (Hfresh : k ∉ map fst acc).
    { apply NoDup_app in Hnd as (_ & Hdisj & _).
      intros Hin. apply (Hdisj k Hin). by left. }
    pose proof (Put_record h1 r ProtoObject acc k v' (Hp1 _ _ Hacc)
                  (not_eq_sym Hk) eq_refl) as HPut.
    rewrite (assoc_set_fresh _ _ _ Hfresh) in HPut.
    set (h2 := <[r := Obj (KRecord ProtoObject) (acc ++ [(k, v')])]> h1) in *.
    assert (Hr1 : r < length h1) by (eapply lookup_lt_Some, Hp1, Hacc).
    destruct (IH (acc ++ [(k, v')]) h2) as (h' & ps' & Hloop & Hp' & Hkeep & Hr' & Hall');
      try done.
    { apply preserved_store; [by eapply preserved_trans | done]. }
    { unfold h2. by rewrite list_lookup_insert_eq. }
    { rewrite map_app. simpl. by rewrite <- app_assoc. }
    exists h', ((k, v') :: ps'). simpl.
    rewrite bind_assoc, (bind_Ok _ _ _ _ _ Hc), (bind_Ok _ _ _ _ _ HPut). fold h2.
    repeat split; try done.
    + intros l o Hl Hlo. apply Hkeep; [done|].
      unfold h2. rewrite list_lookup_insert_ne by done. by apply Hp1.
    + by rewrite <- app_assoc in Hr'.
    + constructor; [|done]. split; [done|]. simpl.
      assert (Hrh : r < length h) by (eapply lookup_lt_Some, Hacc).
      eapply deep_copy_mono; [exact Hd | lia |].
      intros l o Hl Hlo. apply Hkeep; [lia|].
      unfold h2. rewrite list_lookup_insert_ne by lia. done.
Qed.
End copy_step.

Theorem copy_correct n : forall h0 h v,
  structural n h0 v -> preserved h0 h ->
  exists h' v', copy (S n) v h = Ok h' v' /\ preserved h h' /\
                deep_copy h0 h' (length h) v v'.
Proof.
  induction n as [|n IH]; intros h0 h v Hv Hh.
  - destruct v; try (eexists h, _; repeat split;
      [apply preserved_refl | by apply deep_copy_primitive]). done.
  - destruct v as [| | | | | |l]; try (eexists h, _; repeat split;
      [apply preserved_refl | by apply deep_copy_primitive]).
    simpl in Hv. destruct (h0 !! l) as [[[p|elems|code] ps]|] eqn:Hl; [| | |done].
    + (* record *)
      destruct Hv as (Hnd & Hproto & Hmem & Hall).
      rewrite (copy_record _ _ _ _ _ (Hh _ _ Hl)).
      set (r := length h). set (ha := h ++ [Obj (KRecord ProtoObject) []]).
      destruct (copy_entries n h0 (IH h0) r ps [] ha) as (h' & ps' & Hloop & Hp' & Hkeep & Hr' & Hall');
        try done.
      { eapply preserved_trans; [exact Hh | apply preserved_alloc]. }
      { by apply preserved_length. }
      { unfold ha, r. by rewrite list_lookup_middle. }
      rewrite (bind_Ok _ _ _ _ _ Hloop). simpl in Hr'.
      assert (Hrh' : r < length h') by (eapply lookup_lt_Some, Hr').
      assert (Hkeep' : preserved h h').
      { intros l' o' Hl'. apply Hkeep.
        - apply lookup_lt_Some in Hl'. unfold r. lia.
        - by apply preserved_alloc. }
      unfold copy_prototype.
      rewrite bind_assoc, (bind_Ok _ _ _ _ _ (deref_Ok _ _ _ (Hp' _ _ Hl))).
      cbn [props okind]. rewrite (assoc_not_key _ _ Hproto).
      destruct p as [| |c ms]; simpl.
      * exists h', (VRef r). repeat split; [done|].
        eapply deep_copy_record; [exact Hl | done | exact Hr' |].
        eapply Forall2_impl; [exact Hall'|]. intros kv kv' [Hk Hd]. split; [done|].
        eapply deep_copy_mono; [exact Hd | unfold r; lia | done].
      * exists h', (VRef r). repeat split; [done|].
        eapply deep_copy_record; [exact Hl | done | exact Hr' |].
        eapply Forall2_impl; [exact Hall'|]. intros kv kv' [Hk Hd]. split; [done|].
        eapply deep_copy_mono; [exact Hd | unfold r; lia | done].
      * simpl in Hmem.
        assert (Hms : mem_string "__proto__" ms = false).
        { apply not_true_is_false. intros Hin. apply Hmem.
          unfold mem_string in Hin. apply existsb_exists in Hin as (x & Hx & Heq).
          apply String.eqb_eq in Heq as <-. by apply list_elem_of_In. }
        rewrite Hms.
        rewrite bind_assoc, (bind_Ok _ _ _ _ _ (deref_Ok _ _ _ Hr')).
        rewrite (bind_Ok _ _ _ _ _ (store_Ok _ _ _ _ Hr')). simpl.
        eexists _, (VRef r). repeat split.
        -- intros l' o' Hl'. rewrite list_lookup_insert_ne; [by apply Hkeep'|].
           apply lookup_lt_Some in Hl'. unfold r. lia.
        -- eapply deep_copy_record; [exact Hl | done | by rewrite list_lookup_insert_eq |].
           eapply Forall2_impl; [exact Hall'|]. intros kv kv' [Hk Hd]. split; [done|].
           eapply deep_copy_mono; [exact Hd | unfold r; lia |].
           intros l' o' Hl' Ho'. rewrite list_lookup_insert_ne by lia. done.
    + (* array *)
      destruct Hv as (-> & Hall).
      rewrite (copy_array _ _ _ _ _ (Hh _ _ Hl)).
      destruct (copy_elems n h0 (IH h0) elems h Hh Hall) as (h' & elems' & Hm & Hp & Hall').
      rewrite (bind_Ok _ _ _ _ _ Hm), (bind_Ok _ _ _ _ _ (alloc_Ok _ _)).
      eexists _, _. repeat split.
      * eapply preserved_trans; [exact Hp | apply preserved_alloc].
      * eapply deep_copy_array; [exact Hl | by apply preserved_length | by rewrite list_lookup_middle |].
        eapply Forall2_impl; [exact Hall'|].
        intros e e' He. destruct He; constructor.
        eapply deep_copy_mono; [eassumption | done | intros; by apply preserved_alloc].
    + (* function *)
      rewrite (copy_function _ _ _ _ _ (Hh _ _ Hl)).
      eexists _, _. repeat split; [apply preserved_alloc|].
      eapply deep_copy_function; [exact Hl | done | by rewrite list_lookup_middle].
Qed.
(** *** The store [copy] starts from is left alone *)

Lemma bind_inv_Ok {S A B} (m : Comp S A) (k : A -> Comp S B) s s' b :
  bind m k s = Ok s' b -> exists s1 a, m s = Ok s1 a /\ k a s1 = Ok s' b.
Proof. unfold bind. destruct (m s) as [s1 a| | |]; try done. eauto. Qed.

Lemma bind_inv_Throw {S A B} (m : Comp S A) (k : A -> Comp S B) s s' e :
  bind m k s = Throw s' e ->
  m s = Throw s' e \/ exists s1 a, m s = Ok s1 a /\ k a s1 = Throw s' e.
Proof.
  unfold bind. destruct (m s) as [s1 a|s1 e1| |]; intros H; try done.
  - right. eauto.
  - left. by injection H as -> ->.
Qed.

Section leaves_alone.
Variable h0 : heap.

Lemma la_ret {A} (a : A) : leaves_alone h0 (ret a).
Proof. by intros h Hh. Qed.

Lemma la_throw {A} e : leaves_alone h0 (@throw heap A e).
Proof. by intros h Hh. Qed.

Lemma la_unmodelled {A} : leaves_alone h0 (@unmodelled heap A).
Proof. by intros h Hh. Qed.

Lemma la_out_of_fuel {A} : leaves_alone h0 (@out_of_fuel heap A).
Proof. by intros h Hh. Qed.

Lemma la_modelled {A} (x : option A) : leaves_alone h0 (modelled x).
Proof. destruct x; [apply la_ret | apply la_unmodelled]. Qed.

Lemma la_bind {A B} (m : M A) (k : A -> M B) :
  leaves_alone h0 m -> (forall a, leaves_alone h0 (k a)) ->
  leaves_alone h0 (bind m k).
Proof.
  intros Hm Hk h Hh. unfold bind. specialize (Hm h Hh).
  destruct (m h) as [h1 a| | |]; try done. by apply Hk.
Qed.

Lemma la_deref l : leaves_alone h0 (deref l).
Proof. intros h Hh. unfold deref. by destruct (h !! l). Qed.

Lemma la_alloc_bind {B} o (k : loc -> M B) :
  (forall r, length h0 <= r -> leaves_alone h0 (k r)) ->
  leaves_alone h0 (bind (alloc o) k).
Proof.
  intros Hk h Hh. unfold bind, alloc.
  apply Hk; [by apply preserved_length|].
  eapply preserved_trans; [exact Hh | apply preserved_alloc].
Qed.

Lemma la_store r o : length h0 <= r -> leaves_alone h0 (store r o).
Proof.
  intros Hr h Hh. unfold store. destruct (h !! r); simpl; [|done].
  by apply preserved_store.
Qed.

Lemma la_typeof v : leaves_alone h0 (typeof v).
Proof.
  destruct v; try apply la_ret.
  apply la_bind; [apply la_deref|]. intros o. destruct (okind o); apply la_ret.
Qed.

Lemma la_Array_isArray v : leaves_alone h0 (Array_isArray v).
Proof.
  destruct v; try apply la_ret.
  apply la_bind; [apply la_deref|]. intros o. destruct (okind o); apply la_ret.
Qed.

Lemma la_Object_entries v : leaves_alone h0 (Object_entries v).
Proof.
  destruct v; try apply la_unmodelled; try apply la_throw.
  apply la_bind; [apply la_deref|]. intros o. destruct (okind o); apply la_ret.
Qed.

Lemma la_Get v k : leaves_alone h0 (Get v k).
Proof.
  destruct v; unfold Get; try apply la_throw;
    try (destruct (mem_string k payload_fields); [apply la_ret | apply la_unmodelled]).
  apply la_bind; [apply la_deref|]. intros o. apply la_modelled.
Qed.

Lemma la_Put v k x :
  (forall r, v = VRef r -> length h0 <= r) -> leaves_alone h0 (Put v k x).
Proof.
  intros Hv. destruct v; try apply la_throw.
  apply la_bind; [apply la_deref|]. intros o.
  apply la_bind; [apply la_modelled|]. intros o'.
  apply la_store. by apply Hv.
Qed.

Lemma la_for_each {A} (xs : list A) (body : A -> M unit) :
  (forall x, leaves_alone h0 (body x)) -> leaves_alone h0 (for_each xs body).
Proof.
  intros Hbody. induction xs as [|x xs IH]; simpl; [apply la_ret|].
  apply la_bind; [apply Hbody | intros _; apply IH].
Qed.

Lemma la_map_elems f xs :
  (forall x, leaves_alone h0 (f x)) -> leaves_alone h0 (map_elems f xs).
Proof.
  intros Hf. induction xs as [|[x|] xs IH]; simpl; [apply la_ret | |].
  - apply la_bind; [apply Hf|]. intros x'.
    apply la_bind; [apply IH|]. intros rest'. apply la_ret.
  - apply la_bind; [apply IH|]. intros rest'. apply la_ret.
Qed.

Lemma la_Array_map f v :
  (forall x, leaves_alone h0 (f x)) -> leaves_alone h0 (Array_map f v).
Proof.
  intros Hf. destruct v; try apply la_unmodelled.
  apply la_bind; [apply la_deref|]. intros o.
  destruct (okind o); try apply la_unmodelled.
  apply la_bind; [by apply la_map_elems|]. intros elems'.
  apply la_alloc_bind. intros r _. apply la_ret.
Qed.

Lemma la_copy_prototype l r :
  length h0 <= r -> leaves_alone h0 (copy_prototype l r).
Proof.
  intros Hr. apply la_bind; [apply la_deref|]. intros o.
  destruct (assoc "__proto__" (props o)).
  { apply la_Put. by intros ? [= <-]. }
  destruct (okind o) as [[| |c ms]| |]; try apply la_ret; try apply la_unmodelled.
  destruct (mem_string "__proto__" ms); [apply la_unmodelled|].
  apply la_bind; [apply la_deref|]. intros ro. by apply la_store.
Qed.

Lemma la_copy fuel : forall v, leaves_alone h0 (copy fuel v).
Proof.
  induction fuel as [|n IH]; intros v; [apply la_out_of_fuel|].
  rewrite copy_unfold.
  apply la_bind; [apply la_typeof|]. intros t.
  destruct (_ || _); [apply la_ret|].
  destruct v as [| | | | | |l]; try apply la_unmodelled.
  destruct (String.eqb t "function").
  { apply la_alloc_bind. intros f _. apply la_ret. }
  apply la_bind; [apply la_Array_isArray|]. intros [|].
  { by apply la_Array_map. }
  apply la_alloc_bind. intros r Hr.
  apply la_bind; [apply la_Object_entries|]. intros entries.
  apply la_bind.
  { apply la_for_each. intros [k x].
    apply la_bind; [apply IH|]. intros x'.
    apply la_Put. by intros ? [= <-]. }
  intros _. apply la_bind; [by apply la_copy_prototype|]. intros _. apply la_ret.
Qed.
End leaves_alone.

(** Whatever [copy] is given, the cells that were there stay as they
    were. *)
Lemma copy_preserves fuel v h :
  match copy fuel v h with
  | Ok h' _ | Throw h' _ => preserved h h'
  | OutOfFuel | Unmodelled => True
  end.
Proof. apply (la_copy h fuel v h), preserved_refl. Qed.

(** The copy of an object is an object that was not there before. *)
Lemma copy_ref_fresh fuel l h h' v' :
  copy fuel (VRef l) h = Ok h' v' ->
  exists l', v' = VRef l' /\ length h <= l'.
Proof.
  destruct fuel as [|n]; [done|]. rewrite copy_unfold. intros H.
  apply bind_inv_Ok in H as (h1 & t & Ht & H).
  unfold typeof in Ht. apply bind_inv_Ok in Ht as (h2 & o & Ho & Ht).
  unfold deref in Ho. destruct (h !! l) as [o'|] eqn:Hl; [|done].
  injection Ho as <- <-.
  destruct (okind o') as [p|elems|code] eqn:Hkind; injection Ht as <- <-; simpl in H.
  - apply bind_inv_Ok in H as (h1 & b & Hb & H).
    rewrite (Array_isArray_ref _ _ _ Hl), Hkind in Hb. injection Hb as <- <-.
    apply bind_inv_Ok in H as (h1 & r & Hr & H). injection Hr as <- <-.
    apply bind_inv_Ok in H as (h2 & es & _ & H).
    apply bind_inv_Ok in H as (h3 & [] & Hloop & H).
    apply bind_inv_Ok in H as (h4 & [] & Hproto & H).
    injection H as <- <-. eauto.
  - apply bind_inv_Ok in H as (h1 & b & Hb & H).
    rewrite (Array_isArray_ref _ _ _ Hl), Hkind in Hb. injection Hb as <- <-.
    unfold Array_map in H.
    apply bind_inv_Ok in H as (h1 & o & Ho & H).
    rewrite (deref_Ok _ _ _ Hl) in Ho. injection Ho as <- <-. rewrite Hkind in H.
    apply bind_inv_Ok in H as (h2 & elems' & Hm & H).
    apply bind_inv_Ok in H as (h3 & a & Ha & H).
    injection Ha as <- <-. injection H as <- <-.
    eexists. split; [done|].
    pose proof (la_map_elems h (copy n) elems (la_copy h n) h (preserved_refl h)) as Hp.
    rewrite Hm in Hp. by apply preserved_length.
  - apply bind_inv_Ok in H as (h1 & f & Hf & H).
    injection Hf as <- <-. injection H as <- <-. eauto.
Qed.

(** *** The claim about [copy] *)

Section copy_claim.
Variable native : nat -> value -> list value -> M value.

Lemma call_forwarder fuel h lf target ps this args :
  h !! lf = Some (Obj (KFunction (Forwarder target)) ps) ->
  call native (S fuel) (VRef lf) this args h =
  call native fuel (VRef target) VUndefined args h.
Proof. intros H. simpl. by mstep (deref_Ok _ _ _ H). Qed.

(** C5. For an input [x] nested at most [n] deep from primitives,
    functions, arrays that carry no named property and records that
    have no own [__proto__] key, [copy x] returns; the store it
    started from is unchanged; the result is a deep copy: at every level
    an array or record of the result is an object that was not in the
    store before, with the same keys and, at the leaves that are not
    functions, the same values as the original; and a function of the
    result, called with any [this] and any arguments, is a call of the
    original with these arguments and no [this]. *)
Theorem copy_is_deep_copy (n : nat) (h : heap) (x : value) :
  structural n h x ->
  exists h' x',
    copy (S n) x h = Ok h' x' /\
    preserved h h' /\
    deep_copy h h' (length h) x x' /\
    (forall lf target ps fuel this args,
       h' !! lf = Some (Obj (KFunction (Forwarder target)) ps) ->
       call native (S fuel) (VRef lf) this args h' =
       call native fuel (VRef target) VUndefined args h').
Proof.
  intros Hx.
  destruct (copy_correct n h h x Hx (preserved_refl h)) as (h' & x' & Hc & Hp & Hd).
  exists h', x'. repeat split; try done.
  intros. by apply call_forwarder with ps.
Qed.
End copy_claim.

Ltac solve_structural :=
  simpl;
  repeat match goal with
         | |- _ /\ _ => split
         | |- NoDup _ => compute_done
         | |- _ ∉ _ => compute_done
         | |- Forall _ _ => constructor
         | |- True => exact I
         | |- _ = _ => reflexivity
         | |- _ => progress simpl
         end.

Lemma copy_is_deep_copy_witness :
  let h := [ Obj (KRecord ProtoObject)
               [("op", VNumber 2); ("f", VRef 1); ("xs", VRef 2)];
             Obj (KFunction (Native 0)) [];
             Obj (KArray [Some (VRef 3); Some VNull]) [];
             Obj (KRecord (ProtoClass 7 ["describe"])) [("token", VString "x")] ] in
  let native := fun (_ : nat) (_ : value) (_ : list value) => ret VUndefined in
  structural 3 h (VRef 0) /\
  exists h' x',
    copy 4 (VRef 0) h = Ok h' x' /\
    preserved h h' /\
    deep_copy h h' (length h) (VRef 0) x' /\
    (forall lf target ps fuel this args,
       h' !! lf = Some (Obj (KFunction (Forwarder target)) ps) ->
       call native (S fuel) (VRef lf) this args h' =
       call native fuel (VRef target) VUndefined args h').
Proof.
  intros h native.
  assert (H : structural 3 h (VRef 0)) by (unfold h; solve_structural).
  split; [exact H | exact (copy_is_deep_copy native 3 h (VRef 0) H)].
Defined.

(** Where [copy] does not give a deep copy.  An own [__proto__] key is
    lost: [{"__proto__": 5, "b": 2}] comes back as [{b: 2}], the
    assignment [ret["__proto__"] = 5] reaching the setter of
    [Object.prototype].  A named property of an array is lost, [map]
    taking the elements only.  And a copied function does not pass its
    [this] on: for a function that returns its [this], the original
    called on [1] returns [1] and the copy called on [1] returns
    [undefined]. *)
Lemma copy_is_deep_copy_counterexample :
  (let h := [Obj (KRecord ProtoObject) [("__proto__", VNumber 5); ("b", VNumber 2)]] in
   let h' := h ++ [Obj (KRecord ProtoObject) [("b", VNumber 2)]] in
   copy 2 (VRef 0) h = Ok h' (VRef 1) /\
   Object_keys (VRef 0) h' = Ok h' ["__proto__"; "b"] /\
   Object_keys (VRef 1) h' = Ok h' ["b"] /\
   ~ deep_copy h h' (length h) (VRef 0) (VRef 1)) /\
  (let h := [Obj (KArray [Some (VNumber 1)]) [("tag", VNumber 7)]] in
   let h' := h ++ [Obj (KArray [Some (VNumber 1)]) []] in
   copy 2 (VRef 0) h = Ok h' (VRef 1) /\
   Get (VRef 0) "tag" h' = Ok h' (VNumber 7) /\
   Get (VRef 1) "tag" h' = Ok h' VUndefined /\
   ~ deep_copy h h' (length h) (VRef 0) (VRef 1)) /\
  (let native := fun (_ : nat) (this : value) (_ : list value) => ret this in
   let h := [Obj (KFunction (Native 0)) []] in
   let h' := h ++ [Obj (KFunction (Forwarder 0)) []] in
   copy 1 (VRef 0) h = Ok h' (VRef 1) /\
   call native 1 (VRef 0) (VNumber 1) [] h' = Ok h' (VNumber 1) /\
   call native 2 (VRef 1) (VNumber 1) [] h' = Ok h' VUndefined).
Proof.
  split; [|split].
  - repeat (split; [reflexivity|]).
    intros H. inversion H as [ | | | ? ? ? ? ? Hl Hlo Hl' Hall]; subst; try done.
    injection Hl as <- <-. injection Hl' as <-.
    apply Forall2_length in Hall. done.
  - repeat (split; [reflexivity|]).
    intros H. inversion H; subst; done.
  - repeat split.
Qed.
(** ** PayloadInterceptionPipeline: outbound *)

#[local] Arguments on_objects : simpl never.
#[local] Arguments read_capabilities : simpl never.
#[local] Arguments write_capabilities : simpl never.

Lemma read_capabilities_Ok s : read_capabilities s = Ok s (capabilities s).
Proof. reflexivity. Qed.

Lemma write_capabilities_Ok v s :
  write_capabilities v s = Ok (State (objects s) v) tt.
Proof. reflexivity. Qed.

Lemma ret_Ok {S A} (a : A) (s : S) : ret a s = Ok s a.
Proof. reflexivity. Qed.

Lemma on_objects_Ok {A} (m : M A) s h a :
  m (objects s) = Ok h a -> on_objects m s = Ok (State h (capabilities s)) a.
Proof. unfold on_objects. by intros ->. Qed.

Lemma assoc_assoc_set k x ps : assoc k (assoc_set k x ps) = Some x.
Proof.
  induction ps as [|[k' x'] ps IH]; simpl.
  - by rewrite String.eqb_refl.
  - destruct (String.eqb_spec k k') as [->|Hne]; simpl.
    + by rewrite String.eqb_refl.
    + by destruct (String.eqb_spec k k').
Qed.

Lemma copy_primitive_inv fuel v h h' v' :
  primitive v -> copy fuel v h = Ok h' v' -> v' = v /\ h' = h.
Proof.
  intros Hv. destruct fuel; [done|].
  rewrite copy_primitive by done. by intros [= <- <-].
Qed.

(** What an identify send does with a well-formed payload: the mask in
    force is the stored one, or the payload's when none is stored; it
    is stored, and it is what the copy sent on carries. *)
Lemma outgoing_identify n s data c flag :
  identify_data n (objects s) data c ->
  let current := if is_undefined (capabilities s) then c else capabilities s in
  exists h' l',
    _interceptOutgoingPayload (S n) 2 data flag s
      = Ok (State h' current) (2%Z, VRef l', default true flag) /\
    preserved (objects s) h' /\
    length (objects s) <= l' /\
    Get (VRef l') "capabilities" h' = Ok h' current.
Proof.
  intros (l & p & ps & -> & Hl & Hc & Hmem & Hstr) current.
  destruct s as [h caps]. simpl in *.
  destruct (copy_correct n h h (VRef l) Hstr (preserved_refl h))
    as (h1 & v' & Hcopy & Hp1 & Hd).
  inversion Hd as [v Hv | ? l' ? ? Hl0 | ? l' ? ? Hl0 | ? l' p0 ps0 ps' Hl0 Hlo Hl' Hall];
    subst; try done; try congruence.
  rewrite Hl in Hl0. injection Hl0 as <- <-.
  assert (Hput : Put (VRef l') "capabilities" current h1 =
                 Ok (<[l' := Obj (KRecord (copied_proto p))
                               (assoc_set "capabilities" current ps')]> h1) tt).
  { apply Put_record; [done | done |]. by destruct p. }
  exists (<[l' := Obj (KRecord (copied_proto p))
                   (assoc_set "capabilities" current ps')]> h1), l'.
  split; [|split; [|split]].
  - unfold _interceptOutgoingPayload. simpl.
    assert (Hget : Get (VRef l) "capabilities" h = Ok h c).
    { eapply Get_ref; [done|]. unfold get_property, own_property. simpl. by rewrite Hc. }
    mstep (read_capabilities_Ok (State h caps)).
    subst current. destruct (is_undefined caps) eqn:Hu.
    + mstep (on_objects_Ok _ (State h caps) _ _ Hget).
      mstep (write_capabilities_Ok c (State h caps)).
      mstep (on_objects_Ok _ (State h c) _ _ Hcopy).
      mstep (read_capabilities_Ok (State h1 c)).
      mstep (on_objects_Ok _ (State h1 c) _ _ Hput).
      by destruct flag.
    + mstep (@ret_Ok state unit tt (State h caps)).
      mstep (on_objects_Ok _ (State h caps) _ _ Hcopy).
      mstep (read_capabilities_Ok (State h1 caps)).
      mstep (on_objects_Ok _ (State h1 caps) _ _ Hput).
      by destruct flag.
  - apply preserved_store; done.
  - done.
  - eapply Get_ref; [apply list_lookup_insert_eq; by eapply lookup_lt_Some|].
    unfold get_property, own_property. simpl. by rewrite assoc_assoc_set.
Qed.

Lemma on_objects_inv {A} (m : M A) s :
  match on_objects m s with
  | Ok s' a => m (objects s) = Ok (objects s') a /\ capabilities s' = capabilities s
  | Throw s' e => m (objects s) = Throw (objects s') e /\ capabilities s' = capabilities s
  | OutOfFuel | Unmodelled => True
  end.
Proof. unfold on_objects. by destruct (m (objects s)). Qed.

Lemma Get_unchanged v k h :
  match Get v k h with
  | Ok h' _ | Throw h' _ => h' = h
  | OutOfFuel | Unmodelled => True
  end.
Proof.
  destruct v; unfold Get; try done;
    try (by destruct (mem_string k payload_fields)).
  unfold bind, deref. destruct (h !! l); [|done].
  by destruct (get_property o k).
Qed.

(** Run the first computation of a sequence, whatever it returns. *)
Ltac mcase s1 a E :=
  repeat rewrite bind_assoc; unfold bind at 1;
  match goal with
  | |- context [match ?m ?s with _ => _ end] =>
      destruct (m s) as [s1 a|s1 ?| |] eqn:E; simpl; try done
  end.

(** Every way a send can end: the objects that were in the store are
    unchanged, a mask already stored stays, the flag defaults to [true],
    and on identify the data sent on is an object that was not there
    before. *)
Lemma outgoing_inv fuel opcode data flag s :
  match _interceptOutgoingPayload fuel opcode data flag s with
  | Ok s' (opcode', data', flag') =>
      opcode' = opcode /\ flag' = default true flag /\
      preserved (objects s) (objects s') /\
      (is_undefined (capabilities s) = false -> capabilities s' = capabilities s) /\
      (opcode <> 2%Z -> s' = s /\ data' = data) /\
      (opcode = 2%Z -> forall l, data = VRef l ->
         exists l', data' = VRef l' /\ length (objects s) <= l')
  | Throw s' _ =>
      preserved (objects s) (objects s') /\
      (is_undefined (capabilities s) = false -> capabilities s' = capabilities s)
  | OutOfFuel | Unmodelled => True
  end.
Proof.
  unfold _interceptOutgoingPayload.
  destruct (Z.eqb_spec opcode 2) as [->|Hne].
  2: { rewrite (bind_Ok _ _ _ _ _ (ret_Ok _ _)). simpl.
       split; [done|]. split; [by destruct flag|].
       split; [apply preserved_refl|]. done. }
  rewrite bind_assoc, (bind_Ok _ _ _ _ _ (read_capabilities_Ok _)).
  assert (Hcapture :
    match (if is_undefined (capabilities s)
           then let* c := on_objects (Get data "capabilities") in write_capabilities c
           else ret tt) s with
    | Ok s1 _ => objects s1 = objects s /\
                 (is_undefined (capabilities s) = false -> capabilities s1 = capabilities s)
    | Throw s1 _ => objects s1 = objects s /\ capabilities s1 = capabilities s
    | OutOfFuel | Unmodelled => True
    end).
  { destruct (is_undefined (capabilities s)); [|done].
    unfold bind at 1.
    pose proof (on_objects_inv (Get data "capabilities") s) as Hinv.
    pose proof (Get_unchanged data "capabilities" (objects s)) as Hget.
    destruct (on_objects _ s) as [s1 c|s1 e| |]; try done; simpl.
    - destruct Hinv as [Hinv _]. rewrite Hinv in Hget. by rewrite Hget.
    - destruct Hinv as [Hinv ?]. rewrite Hinv in Hget. by rewrite Hget. }
  mcase s1 u E1.
  2: { destruct Hcapture as [-> ->]. split; [apply preserved_refl | done]. }
  destruct Hcapture as [Hobj Hcaps].
  pose proof (on_objects_inv (copy fuel data) s1) as Hinv.
  mcase s2 data' E2.
  2: { destruct Hinv as [Hcopy Hc2].
       pose proof (copy_preserves fuel data (objects s1)) as Hp. rewrite Hcopy in Hp.
       rewrite <- Hobj. split; [done|]. intros Hu. rewrite Hc2. by apply Hcaps. }
  destruct Hinv as [Hcopy Hc2].
  pose proof (copy_preserves fuel data (objects s1)) as Hp. rewrite Hcopy in Hp.
  mstep (read_capabilities_Ok s2).
  assert (Hfresh : forall r, data' = VRef r -> length (objects s1) <= r).
  { intros r ->. destruct data as [| | | | | |l];
      try (by apply copy_primitive_inv in Hcopy as [? ?]).
    apply copy_ref_fresh in Hcopy as (l' & [= <-] & Hl'). done. }
  pose proof (on_objects_inv (Put data' "capabilities" (capabilities s2)) s2) as Hinv.
  pose proof (la_Put (objects s1) data' "capabilities" (capabilities s2) Hfresh
                (objects s2) Hp) as Hput.
  mcase s3 u3 E3.
  - destruct Hinv as [HPut Hc3]. rewrite HPut in Hput. rewrite <- Hobj.
    split; [done|]. split; [by destruct flag|]. split; [done|].
    split; [|split; [done|]].
    + intros Hu. rewrite Hc3, Hc2. by apply Hcaps.
    + intros _ l ->.
      apply copy_ref_fresh in Hcopy as (l' & -> & Hl'). eauto.
  - destruct Hinv as [HPut Hc3]. rewrite HPut in Hput. rewrite <- Hobj.
    split; [done|]. intros Hu. rewrite Hc3, Hc2. by apply Hcaps.
Qed.

(** C6. Capability capture is first-write-wins.  From the unset state,
    an identify send whose data carries [capabilities: a] returns and
    stores [a]; a following identify send whose data carries
    [capabilities: b] returns and leaves [a] stored; and so does every
    later send, whatever it is given and however it ends.  (The claim's
    scenario is [a = 5], [b = 9].) *)
Theorem capture_is_first_write_wins
    (n1 n2 : nat) (s : state) (data1 : value) (flag1 : option bool) (a b : Z) :
  capabilities s = VUndefined ->
  identify_data n1 (objects s) data1 (VNumber a) ->
  exists s1 r1,
    _interceptOutgoingPayload (S n1) 2 data1 flag1 s = Ok s1 r1 /\
    capabilities s1 = VNumber a /\
    (forall data2 flag2,
       identify_data n2 (objects s1) data2 (VNumber b) ->
       exists s2 r2,
         _interceptOutgoingPayload (S n2) 2 data2 flag2 s1 = Ok s2 r2 /\
         capabilities s2 = VNumber a) /\
    (forall fuel opcode data flag,
       match _interceptOutgoingPayload fuel opcode data flag s1 with
       | Ok s' _ | Throw s' _ => capabilities s' = VNumber a
       | OutOfFuel | Unmodelled => True
       end).
Proof.
  intros Hunset Hdata1.
  destruct (outgoing_identify n1 s data1 (VNumber a) flag1 Hdata1)
    as (h1 & l1 & Hrun1 & _).
  rewrite Hunset in Hrun1. simpl in Hrun1.
  eexists _, _. split; [exact Hrun1|]. split; [done|]. split.
  - intros data2 flag2 Hdata2.
    destruct (outgoing_identify n2 _ data2 (VNumber b) flag2 Hdata2)
      as (h2 & l2 & Hrun2 & _).
    simpl in Hrun2. eexists _, _. split; [exact Hrun2 | done].
  - intros fuel opcode data flag.
    pose proof (outgoing_inv fuel opcode data flag (State h1 (VNumber a))) as Hinv.
    destruct (_interceptOutgoingPayload fuel opcode data flag _)
      as [s' [[? ?] ?]|s' e| |]; simpl in *; try done.
    + destruct Hinv as (_ & _ & _ & Hc & _). by apply Hc.
    + destruct Hinv as (_ & Hc). by apply Hc.
Qed.

Definition identify_5 : heap :=
  [ Obj (KRecord ProtoObject) [("capabilities", VNumber 5); ("token", VString "x")] ].

Lemma identify_5_data : identify_data 1 identify_5 (VRef 0) (VNumber 5).
Proof.
  eexists 0, ProtoObject, _.
  split; [done|]. split; [done|]. split; [done|]. split; [done|].
  solve_structural.
Qed.

Lemma capture_is_first_write_wins_witness :
  let s := State identify_5 VUndefined in
  capabilities s = VUndefined /\
  identify_data 1 (objects s) (VRef 0) (VNumber 5) /\
  exists s1 r1,
    _interceptOutgoingPayload 2 2 (VRef 0) None s = Ok s1 r1 /\
    capabilities s1 = VNumber 5 /\
    (forall data2 flag2,
       identify_data 1 (objects s1) data2 (VNumber 9) ->
       exists s2 r2,
         _interceptOutgoingPayload 2 2 data2 flag2 s1 = Ok s2 r2 /\
         capabilities s2 = VNumber 5) /\
    (forall fuel opcode data flag,
       match _interceptOutgoingPayload fuel opcode data flag s1 with
       | Ok s' _ | Throw s' _ => capabilities s' = VNumber 5
       | OutOfFuel | Unmodelled => True
       end).
Proof.
  intros s. split; [reflexivity|]. split; [exact identify_5_data|].
  exact (capture_is_first_write_wins 1 1 s (VRef 0) None 5 9 eq_refl identify_5_data).
Defined.

(** C7. With a mask stored, an identify send whose data carries its own
    [capabilities] returns data whose [capabilities] is the stored mask,
    and the mask stays stored, so the same holds on every later identify
    send.  (The claim's scenario is the stored mask 5 and the payload's
    own value 999.) *)
Theorem identify_carries_stored_bitmask
    (n : nat) (s : state) (data : value) (flag : option bool) (mask own : Z) :
  capabilities s = VNumber mask ->
  identify_data n (objects s) data (VNumber own) ->
  exists s' data',
    _interceptOutgoingPayload (S n) 2 data flag s
      = Ok s' (2%Z, data', default true flag) /\
    Get data' "capabilities" (objects s') = Ok (objects s') (VNumber mask) /\
    capabilities s' = VNumber mask.
Proof.
  intros Hmask Hdata.
  destruct (outgoing_identify n s data (VNumber own) flag Hdata)
    as (h' & l' & Hrun & _ & _ & Hget).
  rewrite Hmask in Hrun, Hget. simpl in Hrun, Hget.
  eexists _, _. split; [exact Hrun|]. by split.
Qed.

Definition identify_999 : heap :=
  [ Obj (KRecord ProtoObject) [("capabilities", VNumber 999); ("token", VString "x")] ].

Lemma identify_999_data : identify_data 1 identify_999 (VRef 0) (VNumber 999).
Proof.
  eexists 0, ProtoObject, _.
  split; [done|]. split; [done|]. split; [done|]. split; [done|].
  solve_structural.
Qed.

Lemma identify_carries_stored_bitmask_witness :
  let s := State identify_999 (VNumber 5) in
  capabilities s = VNumber 5 /\
  identify_data 1 (objects s) (VRef 0) (VNumber 999) /\
  exists s' data',
    _interceptOutgoingPayload 2 2 (VRef 0) None s = Ok s' (2%Z, data', true) /\
    Get data' "capabilities" (objects s') = Ok (objects s') (VNumber 5) /\
    capabilities s' = VNumber 5.
Proof.
  intros s. split; [reflexivity|]. split; [exact identify_999_data|].
  exact (identify_carries_stored_bitmask 1 s (VRef 0) None 5 999 eq_refl identify_999_data).
Defined.

(** C8. However a send ends, every object that was in the store when it
    was called is unchanged, the caller's data object among them; on
    identify (opcode 2) the data returned is an object that was not in
    the store before, so the overwrite of [capabilities] went to the
    copy; and with the flag left out the flag returned is [true].  A
    send returns: at once with its arguments on any other opcode, and on
    identify for data that is an object carrying [capabilities]. *)
Theorem outgoing_never_mutates_data
    (fuel : nat) (opcode : Z) (data : value) (flag : option bool) (s : state) :
  match _interceptOutgoingPayload fuel opcode data flag s with
  | Ok s' (opcode', data', flag') =>
      preserved (objects s) (objects s') /\
      (opcode = 2%Z -> forall l, data = VRef l ->
         exists l', data' = VRef l' /\ length (objects s) <= l') /\
      (flag = None -> flag' = true)
  | Throw s' _ => preserved (objects s) (objects s')
  | OutOfFuel | Unmodelled => True
  end /\
  (opcode <> 2%Z ->
   _interceptOutgoingPayload fuel opcode data flag s
     = Ok s (opcode, data, default true flag)) /\
  (forall n c,
     identify_data n (objects s) data c ->
     exists s' l',
       _interceptOutgoingPayload (S n) 2 data flag s
         = Ok s' (2%Z, VRef l', default true flag) /\
       preserved (objects s) (objects s') /\
       length (objects s) <= l' /\
       objects s' !! l' <> None).
Proof.
  split; [|split].
  - pose proof (outgoing_inv fuel opcode data flag s) as Hinv.
    destruct (_interceptOutgoingPayload _ _ _ _ _) as [s' [[opcode' data'] flag']|s' e| |];
      simpl in *; try done.
    + destruct Hinv as (_ & Hflag & Hp & _ & _ & Hfresh).
      split; [done|]. split; [done|]. by intros ->.
    + by destruct Hinv.
  - intros Hne. unfold _interceptOutgoingPayload.
    destruct (Z.eqb_spec opcode 2) as [->|_]; [done|].
    rewrite (bind_Ok _ _ _ _ _ (ret_Ok _ _)). by destruct flag.
  - intros n c Hdata.
    destruct (outgoing_identify n s data c flag Hdata) as (h' & l' & Hrun & Hp & Hl & Hget).
    eexists _, l'. split; [exact Hrun|]. simpl.
    split; [done|]. split; [done|].
    intros Hnone. unfold Get in Hget. simpl in Hget.
    unfold modelled, bind, deref in Hget. by rewrite Hnone in Hget.
Qed.

Lemma outgoing_never_mutates_data_witness :
  let s := State identify_999 (VNumber 5) in
  exists s' l',
    _interceptOutgoingPayload 2 2 (VRef 0) None s = Ok s' (2%Z, VRef l', true) /\
    preserved (objects s) (objects s') /\
    length (objects s) <= l' /\
    objects s' !! l' <> None.
Proof.
  intros s.
  exact (proj2 (proj2 (outgoing_never_mutates_data 0 2 (VRef 0) None s))
           1 (VNumber 999) identify_999_data).
Defined.
(** ** SchemaNormalizer *)

(** *** Keys and own properties *)

Lemma to_uint_nonnil i : Nat.to_uint i <> Decimal.Nil.
Proof.
  rewrite <- (DecimalNat.Unsigned.of_to i) at 1.
  rewrite DecimalNat.Unsigned.to_of. apply DecimalFacts.unorm_nonnil.
Qed.

Lemma index_key_reserved i : array_reserved_key (index_key i) = true.
Proof.
  unfold index_key. pose proof (to_uint_nonnil i) as H.
  destruct (Nat.to_uint i); try done.
Qed.

Lemma key_index_Some k len i :
  key_index k len = Some i -> k = index_key i /\ i < len.
Proof.
  unfold key_index. intros H. apply find_some in H as [Hin Heq].
  apply String.eqb_eq in Heq. apply in_seq in Hin. split; [done | lia].
Qed.

Lemma key_index_not_reserved k len :
  array_reserved_key k = false -> key_index k len = None.
Proof.
  intros Hk. destruct (key_index k len) as [i|] eqn:E; [|done].
  apply key_index_Some in E as [-> _]. by rewrite index_key_reserved in Hk.
Qed.

Lemma assoc_assoc_set_ne k k' x ps :
  k' <> k -> assoc k' (assoc_set k x ps) = assoc k' ps.
Proof.
  intros Hne. induction ps as [|[k0 x0] ps IH]; simpl.
  - by destruct (String.eqb_spec k' k).
  - destruct (String.eqb_spec k k0) as [->|Hk]; simpl.
    + by destruct (String.eqb_spec k' k0).
    + destruct (String.eqb_spec k' k0); [done | apply IH].
Qed.

Lemma assoc_assoc_remove_ne k k' ps :
  k' <> k -> assoc k' (assoc_remove k ps) = assoc k' ps.
Proof.
  intros Hne. induction ps as [|[k0 x0] ps IH]; simpl; [done|].
  destruct (String.eqb_spec k k0) as [->|Hk]; simpl.
  - by destruct (String.eqb_spec k' k0).
  - destruct (String.eqb_spec k' k0); [done | apply IH].
Qed.

Lemma shape_same_kind o o' : okind o' = okind o -> shape o' = shape o.
Proof. unfold shape. by intros ->. Qed.

(** An assignment keeps the kind of the object, sets the key, and
    leaves the other keys as they were. *)
Lemma put_property_spec o k x o' :
  k <> "__proto__" ->
  put_property o k x = Some o' ->
  okind o' = okind o /\
  own_property o' k = Some x /\
  (forall k', k' <> k -> own_property o' k' = own_property o k').
Proof.
  intros Hk. unfold put_property.
  destruct (String.eqb_spec k "__proto__") as [|_]; [done|].
  destruct o as [kd ps]. simpl.
  assert (Hrec : forall kd', (forall es, kd' <> KArray es) ->
    own_property (Obj kd' (assoc_set k x ps)) k = Some x /\
    (forall k', k' <> k ->
       own_property (Obj kd' (assoc_set k x ps)) k' = own_property (Obj kd' ps) k')).
  { intros kd' Hkd. unfold own_property. simpl.
    destruct kd' as [p|es|c]; [|by destruct (Hkd es)|];
      (split; [apply assoc_assoc_set | intros; by apply assoc_assoc_set_ne]). }
  destruct kd as [[| |c ms]|es|c]; simpl.
  - intros [= <-]. split; [done|]. by apply Hrec.
  - intros [= <-]. split; [done|]. by apply Hrec.
  - destruct (mem_string k ms); [done|]. intros [= <-]. split; [done|]. by apply Hrec.
  - destruct (array_reserved_key k) eqn:Hres; [done|]. intros [= <-].
    split; [done|]. unfold own_property. simpl.
    assert (Hlen : (k =? "length")%string = false).
    { unfold array_reserved_key in Hres. by apply orb_false_elim in Hres as [? _]. }
    split.
    + rewrite (key_index_not_reserved _ _ Hres), Hlen. apply assoc_assoc_set.
    + intros k' Hk'. destruct (key_index k' (length es)); [done|].
      destruct (k' =? "length")%string; [done|]. by apply assoc_assoc_set_ne.
  - intros [= <-]. split; [done|]. by apply Hrec.
Qed.

(** A deletion keeps the kind of object and the other keys. *)
Lemma delete_property_spec o k o' :
  delete_property o k = Some o' ->
  shape o' = shape o /\
  (forall k', k' <> k -> own_property o' k' = own_property o k').
Proof.
  unfold delete_property. destruct o as [kd ps]. simpl.
  destruct kd as [p|es|c]; simpl.
  - intros [= <-]. split; [done|]. intros k' Hk'. unfold own_property. simpl.
    by apply assoc_assoc_remove_ne.
  - destruct (key_index k (length es)) as [i|] eqn:Hi.
    + intros [= <-]. split; [done|]. intros k' Hk'. unfold own_property. simpl.
      rewrite length_insert.
      destruct (key_index k' (length es)) as [i'|] eqn:Hi'; [|done].
      rewrite list_lookup_insert_ne; [done|].
      apply key_index_Some in Hi as [-> _]. apply key_index_Some in Hi' as [-> _].
      congruence.
    + destruct (k =? "length")%string; [done|]. intros [= <-]. split; [done|].
      intros k' Hk'. unfold own_property. simpl.
      destruct (key_index k' (length es)); [done|].
      destruct (k' =? "length")%string; [done|]. by apply assoc_assoc_remove_ne.
  - intros [= <-]. split; [done|]. intros k' Hk'. unfold own_property. simpl.
    by apply assoc_assoc_remove_ne.
Qed.

(** *** Objects over time *)

Lemma later_object_refl K o : later_object K o o.
Proof. by repeat split. Qed.

Lemma later_object_trans K o1 o2 o3 :
  later_object K o1 o2 -> later_object K o2 o3 -> later_object K o1 o3.
Proof.
  intros (Hs1 & Hk1 & Hp1) (Hs2 & Hk2 & Hp2). repeat split.
  - by rewrite Hs2.
  - intros k Hk. rewrite Hk2 by done. by apply Hk1.
  - intros H. by apply Hp2, Hp1.
Qed.

Lemma later_object_weaken (K K' : string -> Prop) o o' :
  (forall k, K' k -> K k) -> later_object K o o' -> later_object K' o o'.
Proof. intros HK (Hs & Hk & Hp). repeat split; auto. Qed.

Lemma evolves_refl K h : evolves K h h.
Proof. intros l o Hl. exists o. split; [done | apply later_object_refl]. Qed.

Lemma evolves_trans K h1 h2 h3 :
  evolves K h1 h2 -> evolves K h2 h3 -> evolves K h1 h3.
Proof.
  intros H12 H23 l o1 Hl.
  destruct (H12 l o1 Hl) as (o2 & Hl2 & Ho2).
  destruct (H23 l o2 Hl2) as (o3 & Hl3 & Ho3).
  exists o3. split; [done|]. by eapply later_object_trans.
Qed.

Lemma evolves_weaken (K K' : string -> Prop) h h' :
  (forall k, K' k -> K k) -> evolves K h h' -> evolves K' h h'.
Proof.
  intros HK H l o Hl. destruct (H l o Hl) as (o' & Hl' & Ho').
  exists o'. split; [done|]. by eapply later_object_weaken.
Qed.

Lemma evolves_preserved K h h' : preserved h h' -> evolves K h h'.
Proof.
  intros H l o Hl. exists o. split; [by apply H | apply later_object_refl].
Qed.

(** A store in which one object was replaced by a later one. *)
Lemma evolves_insert K h l o o' :
  h !! l = Some o -> later_object K o o' -> evolves K h (<[l := o']> h).
Proof.
  intros Hl Ho l0 o0 Hl0. destruct (decide (l0 = l)) as [->|Hne].
  - exists o'. rewrite list_lookup_insert_eq by (by eapply lookup_lt_Some).
    split; [done|]. congruence.
  - exists o0. rewrite list_lookup_insert_ne by done.
    split; [done | apply later_object_refl].
Qed.
(** *** What each operation does to the store *)

Lemma modelled_inv {A} (x : option A) h h' a :
  modelled x h = Ok h' a -> x = Some a /\ h' = h.
Proof. destruct x; [|done]. by intros [= <- <-]. Qed.

Lemma deref_inv l h h' o : deref l h = Ok h' o -> h !! l = Some o /\ h' = h.
Proof. unfold deref. destruct (h !! l); [|done]. by intros [= <- <-]. Qed.

Lemma store_inv l o h h' u :
  store l o h = Ok h' u -> is_Some (h !! l) /\ h' = <[l := o]> h.
Proof. unfold store. destruct (h !! l); [|done]. intros [= <-]. eauto. Qed.

Lemma Get_inv v k h h' x :
  Get v k h = Ok h' x ->
  h' = h /\
  (forall l, v = VRef l -> exists o, h !! l = Some o /\ get_property o k = Some x).
Proof.
  intros H. pose proof (Get_unchanged v k h) as Hu. rewrite H in Hu.
  split; [done|]. intros l ->. unfold Get in H.
  apply bind_inv_Ok in H as (h1 & o & Ho & H).
  apply deref_inv in Ho as [Ho ->]. apply modelled_inv in H as [H _]. eauto.
Qed.

Lemma js_in_inv k v h h' b :
  js_in k v h = Ok h' b ->
  h' = h /\ exists l o, v = VRef l /\ h !! l = Some o /\ has_property o k = Some b.
Proof.
  destruct v; try done. unfold js_in. intros H.
  apply bind_inv_Ok in H as (h1 & o & Ho & H).
  apply deref_inv in Ho as [Ho ->]. apply modelled_inv in H as [H ->]. eauto 6.
Qed.

Lemma Put_inv v k x h h' u :
  Put v k x h = Ok h' u ->
  exists l o o', v = VRef l /\ h !! l = Some o /\ put_property o k x = Some o' /\
                 h' = <[l := o']> h.
Proof.
  destruct v; try done. unfold Put. intros H.
  apply bind_inv_Ok in H as (h1 & o & Ho & H).
  apply deref_inv in Ho as [Ho ->].
  apply bind_inv_Ok in H as (h1 & o' & Ho' & H).
  apply modelled_inv in Ho' as [Ho' ->].
  apply store_inv in H as [_ ->]. eauto 8.
Qed.

Lemma Delete_ref_inv l k h h' u :
  Delete (VRef l) k h = Ok h' u ->
  exists o o', h !! l = Some o /\ delete_property o k = Some o' /\ h' = <[l := o']> h.
Proof.
  unfold Delete. intros H.
  apply bind_inv_Ok in H as (h1 & o & Ho & H).
  apply deref_inv in Ho as [Ho ->].
  destruct (delete_property o k) as [o'|] eqn:Hd; [|done].
  apply store_inv in H as [_ ->]. eauto.
Qed.

Lemma Array_isArray_inv v h h' b :
  Array_isArray v h = Ok h' b -> h' = h.
Proof.
  destruct v; try (by intros [= <-]). unfold Array_isArray. intros H.
  apply bind_inv_Ok in H as (h1 & o & Ho & H).
  apply deref_inv in Ho as [Ho ->]. by destruct (okind o); injection H as <-.
Qed.

(** *** What survives while objects evolve *)

Lemma inherits_shape o o' k : shape o' = shape o -> inherits o' k = inherits o k.
Proof.
  unfold shape, inherits.
  destruct (okind o) as [[| |]| |], (okind o') as [[| |]| |]; intros H; by try injection H as -> ->.
Qed.

Lemma Get_evolves (K : string -> Prop) h h' v k x :
  evolves K h h' -> K k -> Get v k h = Ok h x -> Get v k h' = Ok h' x.
Proof.
  intros He Hk H. destruct v; try done.
  - unfold Get in *. destruct (mem_string k payload_fields); [|done]. by injection H as <-.
  - unfold Get in *. destruct (mem_string k payload_fields); [|done]. by injection H as <-.
  - unfold Get in *. destruct (mem_string k payload_fields); [|done]. by injection H as <-.
  - unfold Get in *. destruct (mem_string k payload_fields); [|done]. by injection H as <-.
  - apply Get_inv in H as [_ H]. destruct (H l eq_refl) as (o & Hl & Hx).
    destruct (He l o Hl) as (o' & Hl' & Hs & Hown & _).
    eapply Get_ref; [done|]. unfold get_property in *.
    rewrite (Hown k Hk), (inherits_shape o o' k Hs). done.
Qed.

Lemma Array_isArray_evolves K h h' x b :
  evolves K h h' -> Array_isArray x h = Ok h b -> Array_isArray x h' = Ok h' b.
Proof.
  intros He H. destruct x; try (by injection H as <-).
  unfold Array_isArray in H. apply bind_inv_Ok in H as (h1 & o & Ho & H).
  apply deref_inv in Ho as [Ho ->].
  destruct (He l o Ho) as (o' & Hl' & Hs & _).
  rewrite (Array_isArray_ref _ _ _ Hl').
  unfold shape in Hs.
  destruct (okind o), (okind o'); try done; by injection H as <-.
Qed.

Lemma not_array_field_evolves (K : string -> Prop) h h' data f :
  evolves K h h' -> K f -> not_array_field h data f -> not_array_field h' data f.
Proof.
  intros He Hf (x & Hx & Ha). exists x. split.
  - by eapply Get_evolves.
  - by eapply Array_isArray_evolves.
Qed.

Lemma has_properties_evolves K h h' l o :
  evolves K h h' -> h !! l = Some o -> has_property o "properties" = Some true ->
  js_in "properties" (VRef l) h' = Ok h' true.
Proof.
  intros He Hl Hp. destruct (He l o Hl) as (o' & Hl' & Hs & _ & Hown).
  eapply js_in_ref; [done|]. unfold has_property in *.
  destruct (own_property o "properties") as [x|] eqn:Ho.
  - destruct (Hown ltac:(eauto)) as [x' ->]. done.
  - destruct (own_property o' "properties"); [done|].
    rewrite (inherits_shape o o' _ Hs).
    unfold shape in Hs. destruct (okind o) as [p|es|c], (okind o') as [p'|es'|c'];
      try done.
Qed.

(** *** The loop over the guild list *)

Lemma in_array_properties : in_array "properties" outerFields = false.
Proof. reflexivity. Qed.

Lemma kept_key_not_moved k key :
  kept_key k -> in_array key outerFields = true -> k <> key.
Proof. intros [Hk _] Hkey ->. congruence. Qed.

Lemma for_each_noop {A} (xs : list A) (body : A -> M unit) h :
  (forall x, x ∈ xs -> body x h = Ok h tt) -> for_each xs body h = Ok h tt.
Proof.
  induction xs as [|x xs IH]; intros H; simpl; [done|].
  mstep (H x ltac:(left)). apply IH. intros y Hy. apply H. by right.
Qed.

(** The inner loop, which moves keys from the guild record [g] to the
    new object [P]: nothing else changes, and in [g] only keys that
    are [in outerFields]. *)
Lemma move_fields_inv g P keys : forall h h',
  for_each keys
    (fun key =>
       if in_array key outerFields then
         let* x := Get (VRef g) key in
         Put (VRef P) key x;;
         Delete (VRef g) key
       else ret tt) h = Ok h' tt ->
  g <> P ->
  (forall l o, l <> g -> l <> P -> h !! l = Some o -> h' !! l = Some o) /\
  (forall o, h !! g = Some o ->
             exists o', h' !! g = Some o' /\ later_object kept_key o o').
Proof.
  induction keys as [|key keys IH]; intros h h' H HgP; simpl in H.
  - injection H as <-. split; [done|]. intros o Ho. exists o.
    split; [done | apply later_object_refl].
  - apply bind_inv_Ok in H as (h1 & [] & Hbody & Hrest).
    destruct (IH h1 h' Hrest HgP) as [Hframe Hg].
    destruct (in_array key outerFields) eqn:Hkey.
    2: { by injection Hbody as <-. }
    apply bind_inv_Ok in Hbody as (h2 & x & Hget & Hbody).
    apply Get_inv in Hget as [-> _].
    apply bind_inv_Ok in Hbody as (h2 & [] & Hput & Hdel).
    apply Put_inv in Hput as (? & oP & oP' & [= <-] & HP & _ & ->).
    apply Delete_ref_inv in Hdel as (og & og' & Hog & Hdel & ->).
    rewrite list_lookup_insert_ne in Hog by done.
    apply delete_property_spec in Hdel as [Hshape Hown].
    split.
    + intros l o Hlg HlP Hl. apply Hframe; [done | done |].
      by rewrite !list_lookup_insert_ne.
    + intros o Ho. rewrite Ho in Hog. injection Hog as <-.
      destruct (Hg og') as (o' & Ho' & Hlater).
      { apply list_lookup_insert_eq. rewrite length_insert. by eapply lookup_lt_Some. }
      exists o'. split; [done|].
      eapply later_object_trans; [|exact Hlater].
      split; [done|]. split.
      * intros k Hk. apply Hown. by eapply kept_key_not_moved.
      * rewrite Hown; [done|]. intros <-. by rewrite in_array_properties in Hkey.
Qed.

Lemma Object_keys_inv v h h' keys : Object_keys v h = Ok h' keys -> h' = h.
Proof.
  unfold Object_keys. intros H.
  apply bind_inv_Ok in H as (h1 & es & Hes & H). injection H as <- _.
  pose proof (la_Object_entries h v h (preserved_refl h)) as _.
  destruct v; try done. unfold Object_entries in Hes.
  apply bind_inv_Ok in Hes as (h2 & o & Ho & Hes).
  apply deref_inv in Ho as [_ ->]. by destruct (okind o); injection Hes as <-.
Qed.

(** One turn of the loop: the guild record is an object, only it and a
    new object are written, only keys that are [in outerFields] leave
    it, and it ends with a [properties]. *)
Lemma normalize_guild_inv x h h' :
  normalize_guild x h = Ok h' tt ->
  exists g o',
    x = VRef g /\
    evolves kept_key h h' /\
    (forall l o, l <> g -> h !! l = Some o -> h' !! l = Some o) /\
    h' !! g = Some o' /\ has_property o' "properties" = Some true.
Proof.
  unfold normalize_guild. intros H.
  apply bind_inv_Ok in H as (h1 & b & Hin & H).
  apply js_in_inv in Hin as (-> & g & o & -> & Hg & Hhas).
  exists g. destruct b; simpl in H.
  { injection H as <-. exists o. repeat split; try done. apply evolves_refl. }
  apply bind_inv_Ok in H as (h1 & P & HP & H). injection HP as <- <-.
  apply bind_inv_Ok in H as (h1 & keys & Hkeys & H).
  apply Object_keys_inv in Hkeys as ->.
  apply bind_inv_Ok in H as (hb & [] & Hloop & Hput).
  assert (Hlt : g < length h) by (by eapply lookup_lt_Some).
  apply move_fields_inv in Hloop as [Hframe Hgb]; [|lia].
  destruct (Hgb o) as (ob & Hob & Hlater); [by apply preserved_alloc|].
  apply Put_inv in Hput as (? & ? & o'' & [= <-] & Hob' & Hput & ->).
  rewrite Hob in Hob'. injection Hob' as <-.
  apply put_property_spec in Hput as (Hkind & Hprop & Hother); [|done].
  assert (Hlater' : later_object kept_key o o'').
  { eapply later_object_trans; [exact Hlater|].
    split; [by apply shape_same_kind|]. split.
    - intros k [_ Hk]. by apply Hother.
    - intros _. rewrite Hprop. eauto. }
  exists o''. split; [done|]. split; [|split; [|split]].
  - intros l o0 Hl. destruct (decide (l = g)) as [->|Hne].
    + exists o''. rewrite list_lookup_insert_eq by (by eapply lookup_lt_Some).
      split; [done|]. congruence.
    + exists o0. rewrite list_lookup_insert_ne by done. split.
      * apply Hframe; [done | | by apply preserved_alloc].
        apply lookup_lt_Some in Hl. lia.
      * apply later_object_refl.
  - intros l o0 Hne Hl. rewrite list_lookup_insert_ne by done.
    apply Hframe; [done | | by apply preserved_alloc].
    apply lookup_lt_Some in Hl. lia.
  - apply list_lookup_insert_eq. by eapply lookup_lt_Some.
  - unfold has_property. by rewrite Hprop.
Qed.

Lemma array_element_Ok h lg G elems i :
  h !! lg = Some G -> okind G = KArray elems ->
  array_element lg i h = Ok h (default VUndefined (mjoin (elems !! i))).
Proof.
  intros Hlg HG. unfold array_element. mstep (deref_Ok _ _ _ Hlg). by rewrite HG.
Qed.

(** The whole loop over an array that is not one of its own elements:
    the array stays as it is, and every element it went through is an
    object that ends with a [properties]. *)
Lemma guild_loop_inv lg G elems :
  okind G = KArray elems ->
  (forall i, elems !! i <> Some (Some (VRef lg))) ->
  forall (indices : list nat) h h',
    h !! lg = Some G ->
    for_each indices
      (fun i => let* x := array_element lg i in normalize_guild x) h = Ok h' tt ->
    evolves kept_key h h' /\
    h' !! lg = Some G /\
    (forall i, i ∈ indices ->
       exists g, default VUndefined (mjoin (elems !! i)) = VRef g /\
                 js_in "properties" (VRef g) h' = Ok h' true).
Proof.
  intros HG Hnest. induction indices as [|i indices IH]; intros h h' Hlg H; simpl in H.
  - injection H as <-. split; [apply evolves_refl|]. split; [done|].
    intros i Hi. by apply elem_of_nil in Hi.
  - apply bind_inv_Ok in H as (h1 & [] & Hbody & Hrest).
    rewrite (bind_Ok _ _ _ _ _ (array_element_Ok _ _ _ _ i Hlg HG)) in Hbody.
    apply normalize_guild_inv in Hbody as (g & o' & Hx & Hev & Hframe & Hg & Hhas).
    assert (Hne : lg <> g).
    { intros <-. apply (Hnest i).
      destruct (elems !! i) as [[x|]|]; simpl in Hx; try done. by rewrite Hx. }
    destruct (IH h1 h' (Hframe _ _ Hne Hlg) Hrest) as (Hev' & Hlg' & Hall).
    split; [by eapply evolves_trans|]. split; [done|].
    intros j Hj. apply elem_of_cons in Hj as [->|Hj]; [|by apply Hall].
    exists g. split; [done|]. by eapply has_properties_evolves.
Qed.

(** *** The two wrappers *)

Lemma bind_ext {S A B} (m : Comp S A) (k1 k2 : A -> Comp S B) s :
  (forall s' a, k1 a s' = k2 a s') -> bind m k1 s = bind m k2 s.
Proof. intros H. unfold bind. by destruct (m s). Qed.

Lemma intercept_unfold fixReady type data extra h :
  _interceptIncomingDispatchPayload fixReady type data extra h =
  ((if String.eqb type "READY" && fixReady then
      wrap_versioned "read_state" data;;
      wrap_versioned "user_guild_settings" data;;
      let* guilds := Get data "guilds" in
      for_of guilds normalize_guild
    else ret tt);;
   ret (type, data)) h.
Proof.
  unfold _interceptIncomingDispatchPayload, wrap_versioned.
  destruct (_ && _); [|done].
  repeat (rewrite ?bind_assoc; apply bind_ext; intros ? ?). done.
Qed.

Lemma wrap_versioned_noop f data h :
  not_array_field h data f -> wrap_versioned f data h = Ok h tt.
Proof.
  intros (x & Hx & Ha). unfold wrap_versioned. mstep Hx. by mstep Ha.
Qed.

(** After the block the field is not an array; objects keep their
    kind and all their other keys; a new object is a plain record. *)
Lemma wrap_versioned_inv f data h h' :
  wrap_versioned f data h = Ok h' tt ->
  f <> "__proto__" ->
  not_array_field h' data f /\
  (forall l o, h !! l = Some o ->
     exists o', h' !! l = Some o' /\ okind o' = okind o /\
                forall k, k <> f -> own_property o' k = own_property o k) /\
  (forall l o', h' !! l = Some o' ->
     is_Some (h !! l) \/ okind o' = KRecord ProtoObject).
Proof.
  unfold wrap_versioned. intros H Hfp.
  apply bind_inv_Ok in H as (h1 & x & Hx & H).
  destruct (Get_inv _ _ _ _ _ Hx) as [-> _].
  apply bind_inv_Ok in H as (h1 & b & Hb & H).
  pose proof (Array_isArray_inv _ _ _ _ Hb) as ->.
  destruct b.
  2: { injection H as <-. split; [by exists x|]. split; [|eauto].
       intros l o Hl. exists o. by repeat split. }
  apply bind_inv_Ok in H as (h1 & entries & Hentries & H).
  destruct (Get_inv _ _ _ _ _ Hentries) as [-> _].
  apply bind_inv_Ok in H as (h1 & W & HW & H). injection HW as <- <-.
  apply Put_inv in H as (ld & o & o' & -> & Hld & Hput & ->).
  destruct (Get_inv _ _ _ _ _ Hx) as [_ Hdata].
  destruct (Hdata ld eq_refl) as (o0 & Hld0 & _).
  assert (Hlt : ld < length h) by (by eapply lookup_lt_Some).
  rewrite lookup_app_l in Hld by done. rewrite Hld0 in Hld. injection Hld as <-.
  apply put_property_spec in Hput as (Hkind & Hprop & Hother); [|done].
  set (Wobj := Obj (KRecord ProtoObject) _).
  assert (HW : (<[ld := o']> (h ++ [Wobj])) !! length h = Some Wobj).
  { rewrite list_lookup_insert_ne by lia. by rewrite list_lookup_middle. }
  split; [|split].
  - exists (VRef (length h)). split.
    + eapply Get_ref.
      * apply list_lookup_insert_eq. rewrite length_app. simpl. lia.
      * unfold get_property. by rewrite Hprop.
    + by rewrite (Array_isArray_ref _ _ _ HW).
  - intros l o Hl. destruct (decide (l = ld)) as [->|Hne].
    + exists o'. rewrite list_lookup_insert_eq by (rewrite length_app; simpl; lia).
      rewrite Hld0 in Hl. injection Hl as <-. by repeat split.
    + exists o. rewrite list_lookup_insert_ne by done.
      split; [by apply preserved_alloc | done].
  - intros l o1 Hl. destruct (decide (l < length h)) as [Hlt'|Hge].
    + left. by apply lookup_lt_is_Some_2.
    + right. assert (l = length h) as ->.
      { apply lookup_lt_Some in Hl. rewrite length_insert, length_app in Hl.
        simpl in Hl. lia. }
      rewrite HW in Hl. by injection Hl as <-.
Qed.

Lemma wrap_versioned_evolves f data h h' :
  wrap_versioned f data h = Ok h' tt -> f <> "properties" -> f <> "__proto__" ->
  evolves (fun k => k <> f) h h'.
Proof.
  intros H Hf Hfp l o Hl.
  apply wrap_versioned_inv in H as (_ & H & _); [|done].
  destruct (H l o Hl) as (o' & Hl' & Hkind & Hown).
  exists o'. split; [done|]. split; [by apply shape_same_kind|].
  split; [done|]. rewrite Hown; [done|]. by intros <-.
Qed.

(** *** Idempotence *)

Lemma kept_key_read_state : kept_key "read_state".
Proof. by split. Qed.

Lemma kept_key_user_guild_settings : kept_key "user_guild_settings".
Proof. by split. Qed.

Lemma kept_key_guilds : kept_key "guilds".
Proof. by split. Qed.

Lemma get_property_own o k l :
  get_property o k = Some (VRef l) -> own_property o k = Some (VRef l).
Proof.
  unfold get_property. destruct (own_property o k); [done|].
  by destruct (inherits o k).
Qed.

(** A store on which the READY rewrite has nothing left to do. *)
Lemma normalized_noop type data extra h :
  not_array_field h data "read_state" ->
  not_array_field h data "user_guild_settings" ->
  (exists guilds,
     Get data "guilds" h = Ok h guilds /\ for_of guilds normalize_guild h = Ok h tt) ->
  _interceptIncomingDispatchPayload true type data extra h = Ok h (type, data).
Proof.
  intros Hrs Hugs (guilds & Hget & Hloop).
  rewrite intercept_unfold. destruct (_ && _); [|done].
  mstep (wrap_versioned_noop _ _ _ Hrs).
  mstep (wrap_versioned_noop _ _ _ Hugs).
  mstep Hget. by mstep Hloop.
Qed.

(** Back through a wrapper block: an array was there before, and so
    was the payload, with the same other fields. *)
Lemma wrap_versioned_array f data h h' l o' elems :
  wrap_versioned f data h = Ok h' tt -> f <> "__proto__" ->
  h' !! l = Some o' -> okind o' = KArray elems ->
  exists o, h !! l = Some o /\ okind o = KArray elems.
Proof.
  intros Hw Hfp Hl Hkind.
  destruct (wrap_versioned_inv _ _ _ _ Hw Hfp) as (_ & Hk & Hnew).
  destruct (Hnew _ _ Hl) as [[o Ho]|Hrec]; [|congruence].
  destruct (Hk _ _ Ho) as (o1 & Ho1 & Hkind1 & _).
  exists o. split; [done|]. congruence.
Qed.

Lemma wrap_versioned_data f ld h h' o' k :
  wrap_versioned f (VRef ld) h = Ok h' tt -> f <> "__proto__" ->
  h' !! ld = Some o' -> k <> f ->
  exists o, h !! ld = Some o /\ own_property o k = own_property o' k.
Proof.
  intros Hw Hfp Hl Hkf.
  destruct (wrap_versioned_inv _ _ _ _ Hw Hfp) as (_ & Hk & _).
  unfold wrap_versioned in Hw. apply bind_inv_Ok in Hw as (h1 & x & Hx & _).
  apply Get_inv in Hx as [_ Hx]. destruct (Hx ld eq_refl) as (o & Ho & _).
  destruct (Hk _ _ Ho) as (o1 & Ho1 & _ & Hown).
  exists o. split; [done|]. rewrite <- Hown by done. congruence.
Qed.

(** What a READY rewrite that returns has done: the two wrapper
    blocks, then a loop that only let objects evolve, and that would
    now go through the guild list without touching anything. *)
Lemma ready_inv data extra h h1 r :
  guilds_not_nested h data ->
  _interceptIncomingDispatchPayload true "READY" data extra h = Ok h1 r ->
  r = ("READY", data) /\
  exists ha hb,
    wrap_versioned "read_state" data h = Ok ha tt /\
    wrap_versioned "user_guild_settings" data ha = Ok hb tt /\
    evolves kept_key hb h1 /\
    exists guilds,
      Get data "guilds" h1 = Ok h1 guilds /\
      for_of guilds normalize_guild h1 = Ok h1 tt.
Proof.
  intros Hnest H. rewrite intercept_unfold in H. simpl in H.
  apply bind_inv_Ok in H as (h' & [] & H & [= <- <-]). split; [done|].
  apply bind_inv_Ok in H as (ha & [] & Hw1 & H).
  apply bind_inv_Ok in H as (hb & [] & Hw2 & H).
  apply bind_inv_Ok in H as (hb' & guilds & Hget & Hloop).
  destruct (Get_inv _ _ _ _ _ Hget) as [-> Hdata].
  exists ha, hb. split; [done|]. split; [done|].
  destruct guilds as [| | | |s| |lg]; try done.
  - (* a string: only the empty one gets through *)
    destruct s as [|c s]; simpl in Hloop.
    + injection Hloop as <-. split; [apply evolves_refl|].
      exists (VString ""). by split.
    + by apply bind_inv_Ok in Hloop as (? & ? & ? & _).
  - (* an object: only an array gets through *)
    unfold for_of in Hloop.
    apply bind_inv_Ok in Hloop as (hb' & G & HG & Hloop).
    apply deref_inv in HG as [HG ->].
    destruct (okind G) as [[| |c ms]|elems|code] eqn:Hkind; try done.
    assert (Hnest' : forall i, elems !! i <> Some (Some (VRef lg))).
    { destruct data as [| | | | | |ld];
        try (by unfold Get in Hget).
      destruct (Hdata ld eq_refl) as (ob & Hob & Hgb).
      apply get_property_own in Hgb.
      destruct (wrap_versioned_array _ _ _ _ _ _ _ Hw2 ltac:(done) HG Hkind) as (Ga & HGa & Hkinda).
      destruct (wrap_versioned_array _ _ _ _ _ _ _ Hw1 ltac:(done) HGa Hkinda) as (G0 & HG0 & Hkind0).
      destruct (wrap_versioned_data _ _ _ _ _ "guilds" Hw2 ltac:(done) Hob ltac:(done))
        as (oa & Hoa & Howna).
      destruct (wrap_versioned_data _ _ _ _ _ "guilds" Hw1 ltac:(done) Hoa ltac:(done))
        as (o0 & Ho0 & Hown0).
      intros i. eapply (Hnest ld o0 lg G0 elems i); try done. congruence. }
    destruct (guild_loop_inv lg G elems Hkind Hnest' _ _ _ HG Hloop)
      as (He3 & HG1 & Hall).
    split; [done|].
    exists (VRef lg). split.
    + eapply Get_evolves; [exact He3 | apply kept_key_guilds | exact Hget].
    + unfold for_of. mstep (deref_Ok _ _ _ HG1). rewrite Hkind.
      apply for_each_noop. intros i Hi.
      destruct (Hall i Hi) as (g & Hx & Hin).
      mstep (array_element_Ok _ _ _ _ i HG1 Hkind). rewrite Hx.
      unfold normalize_guild. by mstep Hin.
Qed.


(** C4. Applying the rewrite of [_interceptIncomingDispatchPayload] to
    a payload it has already been applied to changes nothing: whenever
    a first call returns, a second call on the resulting store returns
    the same pair and leaves every object as the first call left it (a
    wrapped [read_state] or [user_guild_settings] is not wrapped again,
    a guild record that has [properties] is not touched).  The array
    under [data.guilds] must not be one of its own elements. *)
Theorem normalizer_idempotent
    (fixReady : bool) (type : string) (data extra : value)
    (h h1 : heap) (r : string * value) :
  guilds_not_nested h data ->
  _interceptIncomingDispatchPayload fixReady type data extra h = Ok h1 r ->
  _interceptIncomingDispatchPayload fixReady type data extra h1 = Ok h1 r.
Proof.
  intros Hnest H.
  destruct ((type =? "READY")%string && fixReady) eqn:Hcond.
  2: { rewrite intercept_unfold, Hcond in H.
       apply bind_inv_Ok in H as (h' & [] & [= <-] & [= <- <-]).
       rewrite intercept_unfold, Hcond. done. }
  apply andb_prop in Hcond as [Htype ->]. apply String.eqb_eq in Htype as ->.
  destruct (ready_inv _ _ _ _ _ Hnest H)
    as (-> & ha & hb & Hw1 & Hw2 & He3 & Hguilds).
  pose proof (wrap_versioned_evolves _ _ _ _ Hw2 ltac:(done) ltac:(done)) as He2.
  destruct (wrap_versioned_inv _ _ _ _ Hw1 ltac:(done)) as (Hna1 & _).
  destruct (wrap_versioned_inv _ _ _ _ Hw2 ltac:(done)) as (Hna2 & _).
  apply normalized_noop; [| |done].
  - eapply not_array_field_evolves;
      [exact He3 | apply kept_key_read_state |].
    eapply not_array_field_evolves; [exact He2 | done | exact Hna1].
  - eapply not_array_field_evolves;
      [exact He3 | apply kept_key_user_guild_settings | exact Hna2].
Qed.
(** *** The rewrite on JSON objects *)

Lemma assoc_app_fresh k v ps rest :
  k ∉ map fst ps -> assoc k (ps ++ (k, v) :: rest) = Some v.
Proof.
  induction ps as [|[k' v'] ps IH]; simpl; intros H.
  - by rewrite String.eqb_refl.
  - apply not_elem_of_cons in H as [Hne Hin].
    destruct (String.eqb_spec k k'); [done | by apply IH].
Qed.

Lemma assoc_remove_app_fresh k v ps rest :
  k ∉ map fst ps -> assoc_remove k (ps ++ (k, v) :: rest) = ps ++ rest.
Proof.
  induction ps as [|[k' v'] ps IH]; simpl; intros H.
  - by rewrite String.eqb_refl.
  - apply not_elem_of_cons in H as [Hne Hin].
    destruct (String.eqb_spec k k'); [done | by rewrite IH].
Qed.

Lemma assoc_None k ps : k ∉ map fst ps -> assoc k ps = None.
Proof.
  induction ps as [|[k' v'] ps IH]; simpl; intros H; [done|].
  apply not_elem_of_cons in H as [Hne Hin].
  destruct (String.eqb_spec k k'); [done | by apply IH].
Qed.

Lemma assoc_None_inv k ps : assoc k ps = None -> k ∉ map fst ps.
Proof.
  induction ps as [|[k' v'] ps IH]; simpl; intros H.
  - apply not_elem_of_nil.
  - destruct (String.eqb_spec k k') as [|Hne]; [done|].
    apply not_elem_of_cons. split; [done | by apply IH].
Qed.

Lemma assoc_Some_elem k v ps : assoc k ps = Some v -> k ∈ map fst ps.
Proof.
  induction ps as [|[k' v'] ps IH]; simpl; [done|].
  destruct (String.eqb_spec k k') as [->|_]; intros H; [by left | right; auto].
Qed.

Lemma in_array_proto_key : in_array "__proto__" outerFields = true.
Proof. reflexivity. Qed.

Lemma without_proto_key_fresh ps : "__proto__" ∉ map fst (without_proto_key ps).
Proof.
  induction ps as [|[k v] ps IH]; simpl; [apply not_elem_of_nil|].
  destruct (String.eqb_spec k "__proto__"); simpl; [done|].
  apply not_elem_of_cons. split; [by apply not_eq_sym | done].
Qed.

(** The inner loop on a JSON object [g], with the new object at [P]:
    the entries whose key is [in outerFields] go to [P], the others
    stay.  [__proto__] is such a key, and its entry does not arrive:
    the assignment to [P] runs the setter of [Object.prototype]. *)
Lemma move_fields_plain g P : forall rest kept moved pm h,
  g <> P ->
  h !! g = Some (Obj (KRecord ProtoObject) (kept ++ rest)) ->
  h !! P = Some (Obj (KRecord pm) moved) ->
  NoDup (map fst kept ++ map fst rest) ->
  NoDup (map fst moved ++ map fst rest) ->
  "__proto__" ∉ map fst moved ->
  (forall x, assoc "__proto__" rest = Some x -> primitive x) ->
  pm = ProtoObject \/ (pm = ProtoNull /\ "__proto__" ∉ map fst rest) ->
  for_each (map fst rest)
    (fun key =>
       if in_array key outerFields then
         let* x := Get (VRef g) key in
         Put (VRef P) key x;;
         Delete (VRef g) key
       else ret tt) h
  = Ok (<[g := Obj (KRecord ProtoObject) (kept ++ left_entries rest)]>
          (<[P := Obj (KRecord (match assoc "__proto__" rest with
                                | Some VNull => ProtoNull
                                | _ => pm
                                end))
                      (moved ++ without_proto_key (moved_entries rest))]> h)) tt.
Proof.
  induction rest as [|[k v] rest IH];
    intros kept moved pm h HgP Hg HP Hnd1 Hnd2 Hfresh Hprim Hpm.
  - simpl. rewrite !app_nil_r in *.
    rewrite (list_insert_id h P) by done. by rewrite list_insert_id.
  - simpl in Hnd1, Hnd2.
    assert (Hkept : k ∉ map fst kept).
    { apply NoDup_app in Hnd1 as (_ & Hd & _). intros Hin. apply (Hd k Hin). by left. }
    assert (Hmoved : k ∉ map fst moved).
    { apply NoDup_app in Hnd2 as (_ & Hd & _). intros Hin. apply (Hd k Hin). by left. }
    assert (Hrest : k ∉ map fst rest).
    { apply NoDup_app in Hnd1 as (_ & _ & Hd). by apply NoDup_cons in Hd as [? _]. }
    assert (Hnd2r : NoDup (map fst moved ++ map fst rest)).
    { apply NoDup_app in Hnd2 as (Hn1 & Hd & Hn2).
      apply NoDup_cons in Hn2 as [_ Hn2].
      apply NoDup_app. repeat split; try done.
      intros x Hx Hx'. apply (Hd x Hx). by right. }
    cbn [map fst for_each].
    match goal with |- _ = ?R => set (res := R) end.
    destruct (in_array k outerFields) eqn:Hin.
    + assert (Hget : Get (VRef g) k h = Ok h v).
      { eapply Get_ref; [done|]. unfold get_property, own_property. simpl.
        by rewrite assoc_app_fresh. }
      mstep Hget.
      assert (Hput : exists pm' moved',
        Put (VRef P) k v h = Ok (<[P := Obj (KRecord pm') moved']> h) tt /\
        ("__proto__" ∉ map fst moved') /\
        NoDup (map fst moved' ++ map fst rest) /\
        (pm' = ProtoObject \/ (pm' = ProtoNull /\ "__proto__" ∉ map fst rest)) /\
        match assoc "__proto__" ((k, v) :: rest) with
        | Some VNull => ProtoNull
        | _ => pm
        end = match assoc "__proto__" rest with
              | Some VNull => ProtoNull
              | _ => pm'
              end /\
        moved ++ without_proto_key ((k, v) :: List.filter (fun kv => in_array kv.1 outerFields) rest)
        = moved' ++ without_proto_key (List.filter (fun kv => in_array kv.1 outerFields) rest)).
      { destruct (String.eqb_spec k "__proto__") as [->|Hkp].
        - assert (Hv : primitive v).
          { apply Hprim. cbn [assoc]. by rewrite String.eqb_refl. }
          destruct Hpm as [-> | [_ Hn]]; [|exfalso; apply Hn; by left].
          exists (match v with VNull => ProtoNull | _ => ProtoObject end), moved.
          split.
          { apply Put_ref with (o := Obj (KRecord ProtoObject) moved); [done|].
            unfold put_property. rewrite String.eqb_refl. cbn [props okind].
            rewrite (assoc_None _ _ Hfresh). by destruct v. }
          split; [done|]. split; [done|].
          split; [destruct v; (by left) || (by right)|].
          split.
          { cbn [assoc]. rewrite String.eqb_refl, (assoc_None _ _ Hrest). by destruct v. }
          unfold without_proto_key at 1. cbn [List.filter fst].
          by rewrite String.eqb_refl.
        - exists pm, (moved ++ [(k, v)]).
          split.
          { rewrite <- (assoc_set_fresh k v moved Hmoved).
            apply Put_record; [done | done |].
            by destruct Hpm as [-> | [-> _]]. }
          split.
          { rewrite map_app. intros Hx. apply elem_of_app in Hx as [Hx|Hx]; [done|].
            apply list_elem_of_singleton in Hx. by apply Hkp. }
          split; [rewrite map_app; simpl; by rewrite <- app_assoc|].
          split.
          { destruct Hpm as [-> | [-> Hn]]; [by left|]. right. split; [done|].
            intros Hx. apply Hn. by right. }
          split.
          { cbn [assoc]. by destruct (String.eqb_spec "__proto__" k) as [<-|_]. }
          unfold without_proto_key at 1. cbn [List.filter fst].
          destruct (String.eqb_spec k "__proto__") as [|_]; [done|].
          cbn [negb]. by rewrite <- app_assoc. }
      destruct Hput as (pm' & moved' & Hput & Hfresh' & Hnd2' & Hpm' & Hproto_eq & Hmoved_eq).
      mstep Hput.
      set (h2 := <[P := Obj (KRecord pm') moved']> h).
      assert (Hg2 : h2 !! g = Some (Obj (KRecord ProtoObject) (kept ++ (k, v) :: rest))).
      { unfold h2. by rewrite list_lookup_insert_ne. }
      assert (Hdel : Delete (VRef g) k h2 =
                     Ok (<[g := Obj (KRecord ProtoObject) (kept ++ rest)]> h2) tt).
      { eapply Delete_ref; [done|]. unfold delete_property. simpl.
        by rewrite assoc_remove_app_fresh. }
      mstep Hdel.
      set (h3 := <[g := Obj (KRecord ProtoObject) (kept ++ rest)]> h2).
      assert (Hg3 : h3 !! g = Some (Obj (KRecord ProtoObject) (kept ++ rest))).
      { unfold h3. apply list_lookup_insert_eq.
        unfold h2. rewrite length_insert. by eapply lookup_lt_Some. }
      assert (HP3 : h3 !! P = Some (Obj (KRecord pm') moved')).
      { unfold h3. rewrite list_lookup_insert_ne by done.
        unfold h2. apply list_lookup_insert_eq. by eapply lookup_lt_Some. }
      assert (Hnd1' : NoDup (map fst kept ++ map fst rest)).
      { apply NoDup_app in Hnd1 as (Hn1 & Hd & Hn2).
        apply NoDup_cons in Hn2 as [_ Hn2].
        apply NoDup_app. repeat split; try done.
        intros x Hx Hx'. apply (Hd x Hx). by right. }
      assert (Hprim' : forall x, assoc "__proto__" rest = Some x -> primitive x).
      { intros x Hx. apply Hprim. cbn [assoc].
        destruct (String.eqb_spec "__proto__" k) as [<-|_]; [|done].
        by rewrite (assoc_None _ _ Hrest) in Hx. }
      rewrite (IH kept moved' pm' h3 HgP Hg3 HP3 Hnd1' Hnd2' Hfresh' Hprim' Hpm').
      unfold res, moved_entries, left_entries. cbn [List.filter fst].
      rewrite Hin. cbn [negb]. rewrite Hproto_eq, Hmoved_eq.
      f_equal. unfold h3, h2.
      rewrite (list_insert_insert_ne _ P g) by done.
      by rewrite !list_insert_insert_eq.
    + mstep (@ret_Ok heap unit tt h).
      assert (Hkp : "__proto__" <> k).
      { intros <-. by rewrite in_array_proto_key in Hin. }
      assert (Hg' : h !! g = Some (Obj (KRecord ProtoObject) ((kept ++ [(k, v)]) ++ rest))).
      { by rewrite <- app_assoc. }
      assert (Hnd1' : NoDup (map fst (kept ++ [(k, v)]) ++ map fst rest)).
      { rewrite map_app. simpl. by rewrite <- app_assoc. }
      assert (Hassoc : assoc "__proto__" ((k, v) :: rest) = assoc "__proto__" rest).
      { cbn [assoc]. by destruct (String.eqb_spec "__proto__" k). }
      assert (Hprim' : forall x, assoc "__proto__" rest = Some x -> primitive x).
      { intros x Hx. apply Hprim. by rewrite Hassoc. }
      assert (Hpm' : pm = ProtoObject \/ (pm = ProtoNull /\ "__proto__" ∉ map fst rest)).
      { destruct Hpm as [-> | [-> Hn]]; [by left|]. right. split; [done|].
        intros Hx. apply Hn. by right. }
      rewrite (IH (kept ++ [(k, v)]) moved pm h HgP Hg' HP Hnd1' Hnd2r Hfresh Hprim' Hpm').
      unfold res, moved_entries, left_entries. cbn [List.filter fst].
      rewrite Hin, Hassoc. cbn [negb]. by rewrite <- app_assoc.
Qed.

Lemma insert_alloc (h : heap) o o' : <[length h := o']> (h ++ [o]) = h ++ [o'].
Proof.
  rewrite insert_app_r_alt by done. by rewrite Nat.sub_diag.
Qed.

Lemma map_fst_filter (f : string -> bool) (ps : list (string * value)) :
  map fst (List.filter (fun kv => f kv.1) ps) = List.filter f (map fst ps).
Proof.
  induction ps as [|[k v] ps IH]; simpl; [done|].
  destruct (f k); simpl; by rewrite IH.
Qed.

Lemma left_entries_keys k ps : k ∈ map fst (left_entries ps) -> k ∈ map fst ps.
Proof.
  unfold left_entries.
  rewrite (map_fst_filter (fun k => negb (in_array k outerFields))).
  rewrite !list_elem_of_In. intros H. by apply filter_In in H as [? _].
Qed.

Lemma left_entries_NoDup ps : NoDup (map fst ps) -> NoDup (map fst (left_entries ps)).
Proof.
  unfold left_entries.
  rewrite (map_fst_filter (fun k => negb (in_array k outerFields))).
  rewrite !NoDup_ListNoDup. apply List.NoDup_filter.
Qed.

(** What one turn of the loop over the guild list does to a JSON
    object: nothing when it has a [properties]; otherwise the entries
    whose key is [in outerFields] leave it, those with a key other than
    [__proto__] for a new object, which becomes its [properties]. *)
Lemma normalize_guild_plain h g ps :
  h !! g = Some (Obj (KRecord ProtoObject) ps) ->
  NoDup (map fst ps) ->
  (forall x, assoc "__proto__" ps = Some x -> primitive x) ->
  normalize_guild (VRef g) h =
  match assoc "properties" ps with
  | Some _ => Ok h tt
  | None =>
      Ok (<[g := Obj (KRecord ProtoObject)
                   (left_entries ps ++ [("properties", VRef (length h))])]>
            (h ++ [moved_object ps])) tt
  end.
Proof.
  intros Hg Hnd Hproto. unfold normalize_guild.
  destruct (assoc "properties" ps) as [x|] eqn:Hp.
  - assert (Hin : js_in "properties" (VRef g) h = Ok h true).
    { eapply js_in_ref; [done|]. unfold has_property, own_property. simpl. by rewrite Hp. }
    by mstep Hin.
  - assert (Hin : js_in "properties" (VRef g) h = Ok h false).
    { eapply js_in_ref; [done|]. unfold has_property, own_property. simpl. by rewrite Hp. }
    mstep Hin. mstep (alloc_Ok (Obj (KRecord ProtoObject) []) h).
    set (ha := h ++ [Obj (KRecord ProtoObject) []]).
    assert (Hga : ha !! g = Some (Obj (KRecord ProtoObject) ps)) by (by apply preserved_alloc).
    assert (Hkeys : Object_keys (VRef g) ha = Ok ha (map fst ps)).
    { unfold Object_keys, Object_entries. by mstep (deref_Ok _ _ _ Hga). }
    mstep Hkeys.
    assert (Hlt : g < length h) by (by eapply lookup_lt_Some).
    assert (HgP : g <> length h) by lia.
    assert (HPa : ha !! length h = Some (Obj (KRecord ProtoObject) [])).
    { unfold ha. by rewrite list_lookup_middle. }
    mstep (move_fields_plain g (length h) ps [] [] ProtoObject ha HgP Hga HPa Hnd Hnd
             (not_elem_of_nil _) Hproto (or_introl eq_refl)).
    unfold ha. rewrite insert_alloc.
    change (Obj (KRecord _) ([] ++ without_proto_key (moved_entries ps)))
      with (moved_object ps).
    set (hb := <[g := _]> (h ++ _)).
    assert (Hfresh : "properties" ∉ map fst (left_entries ps)).
    { intros Hin'. apply left_entries_keys in Hin'.
      by apply (assoc_None_inv _ _ Hp). }
    assert (Hput : Put (VRef g) "properties" (VRef (length h)) hb =
      Ok (<[g := Obj (KRecord ProtoObject)
                   (left_entries ps ++ [("properties", VRef (length h))])]> hb) tt).
    { rewrite <- (assoc_set_fresh _ _ _ Hfresh).
      apply Put_record; [|done|done].
      unfold hb. apply list_lookup_insert_eq. rewrite length_app. simpl. lia. }
    rewrite Hput. unfold hb. by rewrite list_insert_insert_eq.
Qed.

Lemma left_entries_proto_key ps : "__proto__" ∉ map fst (left_entries ps).
Proof.
  unfold left_entries.
  rewrite (map_fst_filter (fun k => negb (in_array k outerFields))).
  rewrite list_elem_of_In. intros H. apply filter_In in H as [_ H].
  by rewrite in_array_proto_key in H.
Qed.

Lemma normalize_guild_total h g :
  plain_record h g ->
  exists h',
    normalize_guild (VRef g) h = Ok h' tt /\
    (forall l, plain_record h l -> plain_record h' l) /\
    (forall l o, l <> g -> h !! l = Some o -> h' !! l = Some o).
Proof.
  intros (ps & Hg & Hnd & Hproto).
  rewrite (normalize_guild_plain h g ps Hg Hnd Hproto).
  destruct (assoc "properties" ps) eqn:Hp; [by exists h|].
  eexists. split; [done|].
  assert (Hlt : g < length h) by (by eapply lookup_lt_Some).
  split.
  - intros l (ps' & Hl & Hnd' & Hproto'). destruct (decide (l = g)) as [->|Hne].
    + eexists. split; [apply list_lookup_insert_eq; rewrite length_app; simpl; lia|].
      rewrite map_app. simpl. split.
      * apply NoDup_app. split; [by apply left_entries_NoDup|]. split.
        -- intros k Hk Hk'. apply list_elem_of_singleton in Hk' as ->.
           apply left_entries_keys in Hk. by apply (assoc_None_inv _ _ Hp).
        -- apply NoDup_singleton.
      * intros x Hx. rewrite assoc_None in Hx; [done|].
        rewrite map_app. intros Hin. apply elem_of_app in Hin as [Hin|Hin].
        -- by apply left_entries_proto_key in Hin.
        -- by apply list_elem_of_singleton in Hin.
    + exists ps'. rewrite list_lookup_insert_ne by done.
      split; [by apply preserved_alloc | done].
  - intros l o Hne Hl. rewrite list_lookup_insert_ne by done. by apply preserved_alloc.
Qed.


Lemma assoc_set_keys k x v ps :
  assoc k ps = Some x -> map fst (assoc_set k v ps) = map fst ps.
Proof.
  induction ps as [|[k' v'] ps IH]; simpl; [done|].
  destruct (String.eqb_spec k k') as [->|Hne]; simpl; [done|].
  intros H. by rewrite IH.
Qed.

(** A wrapper block on a JSON payload goes through. *)
Lemma wrap_versioned_total f h ld :
  plain_record h ld -> fields_valid h ld ->
  mem_string f Object_prototype_names = false -> f <> "__proto__" ->
  f <> "properties" ->
  exists h',
    wrap_versioned f (VRef ld) h = Ok h' tt /\
    (forall l, plain_record h l -> plain_record h' l) /\
    fields_valid h' ld /\
    (forall l o, l <> ld -> h !! l = Some o -> h' !! l = Some o) /\
    (forall k x, k <> f -> Get (VRef ld) k h = Ok h x -> Get (VRef ld) k h' = Ok h' x).
Proof.
  intros (ps & Hld & Hnd & Hproto) Hvalid Hf Hf' Hf''.
  assert (Hget : Get (VRef ld) f h = Ok h (default VUndefined (assoc f ps))).
  { eapply Get_ref; [done|]. unfold get_property, own_property. cbn [okind props].
    destruct (assoc f ps); [done|]. unfold inherits. cbn [okind]. by rewrite Hf. }
  assert (Hsame : forall h', wrap_versioned f (VRef ld) h = Ok h' tt ->
    forall k x, k <> f -> Get (VRef ld) k h = Ok h x -> Get (VRef ld) k h' = Ok h' x).
  { intros h' Hw k x Hk Hx.
    eapply (Get_evolves (fun k => k <> f)); [|done|done].
    by eapply wrap_versioned_evolves. }
  assert (Hnoop : Array_isArray (default VUndefined (assoc f ps)) h = Ok h false ->
    exists h', wrap_versioned f (VRef ld) h = Ok h' tt /\
      (forall l, plain_record h l -> plain_record h' l) /\
      fields_valid h' ld /\
      (forall l o, l <> ld -> h !! l = Some o -> h' !! l = Some o) /\
      (forall k x, k <> f -> Get (VRef ld) k h = Ok h x -> Get (VRef ld) k h' = Ok h' x)).
  { intros Ha. exists h. split; [|done].
    apply wrap_versioned_noop. by eexists. }
  destruct (assoc f ps) as [x|] eqn:Hx; simpl in *; [|by apply Hnoop].
  destruct x as [| | | | | |lx]; try (by apply Hnoop).
  destruct (Hvalid _ f lx Hld Hx) as [ox Hox].
  pose proof (Array_isArray_ref _ _ _ Hox) as Ha.
  destruct (okind ox) as [p|elems|code] eqn:Hkind; try (by apply Hnoop).
  set (Wobj := Obj (KRecord ProtoObject)
                 [("entries", VRef lx); ("partial", VBool false); ("version", VNumber 1)]).
  set (o' := Obj (KRecord ProtoObject) (assoc_set f (VRef (length h)) ps)).
  assert (Hlt : ld < length h) by (by eapply lookup_lt_Some).
  assert (Hw : wrap_versioned f (VRef ld) h = Ok (<[ld := o']> (h ++ [Wobj])) tt).
  { unfold wrap_versioned. mstep Hget. mstep Ha. mstep Hget.
    mstep (alloc_Ok Wobj h).
    apply Put_record; [by apply preserved_alloc | done | done]. }
  eexists. split; [exact Hw|]. split; [|split; [|split]].
  - intros l (ps' & Hl & Hnd' & Hproto'). destruct (decide (l = ld)) as [->|Hne].
    + eexists. split; [apply list_lookup_insert_eq; rewrite length_app; simpl; lia|].
      simpl. rewrite (assoc_set_keys _ _ _ _ Hx). split; [done|].
      intros y. rewrite assoc_assoc_set_ne by (by apply not_eq_sym). apply Hproto.
    + exists ps'. rewrite list_lookup_insert_ne by done.
      split; [by apply preserved_alloc | done].
  - intros o k l' Ho Hk.
    rewrite list_lookup_insert_eq in Ho by (rewrite length_app; simpl; lia).
    injection Ho as <-. simpl in Hk.
    apply lookup_lt_is_Some_2. rewrite length_insert, length_app. simpl.
    destruct (String.eqb_spec k f) as [->|Hne].
    + rewrite assoc_assoc_set in Hk. injection Hk as <-. lia.
    + rewrite assoc_assoc_set_ne in Hk by done.
      destruct (Hvalid _ k l' Hld Hk) as [? Hl']. apply lookup_lt_Some in Hl'. lia.
  - intros l o Hne Hl. rewrite list_lookup_insert_ne by done. by apply preserved_alloc.
  - by apply Hsame.
Qed.

Lemma fields_valid_intro (h : heap) l :
  (forall o, h !! l = Some o ->
     Forall (fun kv => match kv.2 with
                       | VRef l' => is_Some (h !! l')
                       | _ => True
                       end) (props o)) ->
  fields_valid h l.
Proof.
  intros H o k l' Ho Hk. specialize (H o Ho).
  induction (props o) as [|[k0 v0] ps IH]; simpl in Hk; [done|].
  apply Forall_cons in H as [H0 H].
  destruct (String.eqb k k0); [injection Hk as ->; exact H0 | by apply IH].
Qed.


(** The READY payload [{read_state: [], guilds: [{id: "1"}]}]. *)
Definition ready_json : heap :=
  [ Obj (KRecord ProtoObject) [("read_state", VRef 1); ("guilds", VRef 2)];
    Obj (KArray []) [];
    Obj (KArray [Some (VRef 3)]) [];
    Obj (KRecord ProtoObject) [("id", VString "1")] ].



(** C1, as the code has it.  The guild record
    [{id: "1", member_count: 5, name: "G"}] of a READY payload keeps
    all its fields and gets an empty [properties]: [key in outerFields]
    asks whether [key] is an index or a built-in name of the array, and
    none of the names the array holds is one. *)
Theorem ready_guild_fields_not_moved :
  _interceptIncomingDispatchPayload true "READY" (VRef 0) VNull
    [ Obj (KRecord ProtoObject) [("guilds", VRef 1)];
      Obj (KArray [Some (VRef 2)]) [];
      Obj (KRecord ProtoObject)
        [("id", VString "1"); ("member_count", VNumber 5); ("name", VString "G")] ]
  = Ok
      [ Obj (KRecord ProtoObject) [("guilds", VRef 1)];
        Obj (KArray [Some (VRef 2)]) [];
        Obj (KRecord ProtoObject)
          [("id", VString "1"); ("member_count", VNumber 5); ("name", VString "G");
           ("properties", VRef 3)];
        Obj (KRecord ProtoObject) [] ]
      ("READY", VRef 0)
  /\
  forallb (fun key => negb (in_array key outerFields)) outerFields = true.
Proof. split; reflexivity. Qed.

(** [ready_json] once the rewrite has returned. *)
Definition ready_json_rewritten : heap :=
  Eval vm_compute in
    match _interceptIncomingDispatchPayload true "READY" (VRef 0) VNull ready_json with
    | Ok h _ => h
    | _ => []
    end.

Lemma ready_json_not_nested : guilds_not_nested ready_json (VRef 0).
Proof.
  intros l o lg G elems i [= <-] [= <-] [= <-] [= <-] [= <-].
  by destruct i as [|[|i]].
Qed.

Lemma normalizer_idempotent_witness :
  guilds_not_nested ready_json (VRef 0) /\
  _interceptIncomingDispatchPayload true "READY" (VRef 0) VNull ready_json
    = Ok ready_json_rewritten ("READY", VRef 0) /\
  _interceptIncomingDispatchPayload true "READY" (VRef 0) VNull ready_json_rewritten
    = Ok ready_json_rewritten ("READY", VRef 0).
Proof.
  split; [exact ready_json_not_nested|]. split; [reflexivity|].
  exact (normalizer_idempotent true "READY" (VRef 0) VNull ready_json
           ready_json_rewritten ("READY", VRef 0) ready_json_not_nested eq_refl).
Defined.

(** Without the condition on the guild list the second call can differ:
    an array that holds itself loses that element in the first call,
    which returns, and the second call finds [undefined] there. *)
Lemma nested_guilds_not_idempotent :
  let h := [ Obj (KRecord ProtoObject) [("guilds", VRef 1)];
             Obj (KArray [Some (VRef 1)]) [] ] in
  exists h1,
    _interceptIncomingDispatchPayload true "READY" (VRef 0) VNull h
      = Ok h1 ("READY", VRef 0) /\
    _interceptIncomingDispatchPayload true "READY" (VRef 0) VNull h1
      = Throw h1 TypeError.
Proof. eexists. split; reflexivity. Qed.
(** ** CallTraceTree: [buildTree] *)

Section buildTree_equations.
Variable Number_toString : float -> string.

(** [buildTree] on a one-element list is the text of that element, as
    the recursive call [buildTree([subCall])] of the source needs. *)
Lemma buildTree_singleton call :
  buildTree Number_toString [call] = buildTree_call Number_toString call.
Proof. reflexivity. Qed.

Lemma append_assoc (a b c : string) :
  String.append (String.append a b) c = String.append a (String.append b c).
Proof.
  induction a as [|x a IH]; [done|].
  change (String x (String.append (String.append a b) c)
          = String x (String.append a (String.append b c))).
  by rewrite IH.
Qed.

Lemma append_empty_r (a : string) : String.append a EmptyString = a.
Proof.
  induction a as [|x a IH]; [done|].
  change (String x (String.append a EmptyString) = String x a).
  by rewrite IH.
Qed.

Lemma buildTree_from acc calls :
  fold_left (fun result call =>
               String.append result (buildTree_call Number_toString call))
            calls acc
  = String.append acc (buildTree Number_toString calls).
Proof.
  unfold buildTree. revert acc.
  induction calls as [|c calls IH]; intros acc; simpl.
  - by rewrite append_empty_r.
  - rewrite (IH (String.append acc _)), (IH (String.append EmptyString _)).
    by rewrite append_assoc.
Qed.

Lemma buildTree_cons call calls :
  buildTree Number_toString (call :: calls) =
  String.append (buildTree_call Number_toString call)
                (buildTree Number_toString calls).
Proof. unfold buildTree at 1. simpl. apply buildTree_from. Qed.
End buildTree_equations.

(** C9, as the code has it.  For the two top-level nodes [r1] (with one
    child [c]) and [r2], [buildTree] returns
    ["r1: 1\n|  c: 1\n|  r2: 2\n"]: splitting the text of [c] at its
    final newline leaves an empty last piece, which gets a prefix of
    its own, and the line of [r2] is appended to it. *)
Theorem buildTree_stray_prefix (Number_toString : float -> string) :
  Number_toString 1%float = "1" ->
  Number_toString 2%float = "2" ->
  buildTree Number_toString
    [ MkCallTrace "r1" 1%float [MkCallTrace "c" 1%float []];
      MkCallTrace "r2" 2%float [] ]
  = String.append "r1: 1" (String.append newline
      (String.append "|  c: 1" (String.append newline
        (String.append "|  r2: 2" newline)))).
Proof.
  intros H1 H2. unfold buildTree. simpl. rewrite H1, H2. reflexivity.
Qed.

Lemma buildTree_stray_prefix_witness :
  let Number_toString := fun x : float => if PrimFloat.eqb x 2 then "2" else "1" in
  Number_toString 1%float = "1" /\
  Number_toString 2%float = "2" /\
  buildTree Number_toString
    [ MkCallTrace "r1" 1%float [MkCallTrace "c" 1%float []];
      MkCallTrace "r2" 2%float [] ]
  = String.append "r1: 1" (String.append newline
      (String.append "|  c: 1" (String.append newline
        (String.append "|  r2: 2" newline)))).
Proof.
  intros Number_toString. split; [reflexivity|]. split; [reflexivity|].
  exact (buildTree_stray_prefix Number_toString eq_refl eq_refl).
Defined.

(** *** [buildTree] on lists and on nodes without children *)

Section CallTrace_induction.
Variable P : CallTrace -> Prop.
Hypothesis P_node : forall name duration calls,
  Forall P calls -> P (MkCallTrace name duration calls).

Fixpoint CallTrace_nested_ind (c : CallTrace) : P c :=
  match c with
  | MkCallTrace name duration calls =>
      P_node name duration calls
        ((fix all (cs : list CallTrace) : Forall P cs :=
            match cs with
            | [] => List.Forall_nil _
            | c' :: rest => List.Forall_cons _ c' rest (CallTrace_nested_ind c') (all rest)
            end) calls)
  end.
End CallTrace_induction.

(** The line of a node: [`${call.name}: ${call.duration}\n`]. *)
Definition node_line (Number_toString : float -> string) (call : CallTrace) : string :=
  name call +:+ ": " +:+ Number_toString (duration call) +:+ newline.

(** The last of the pieces [s.split('\n')] gives. *)
Definition last_piece (s : string) : string := List.last (split_newline s) EmptyString.

Lemma append_inj_String (c : ascii) (a b : string) :
  String c a +:+ b = String c (a +:+ b).
Proof. reflexivity. Qed.

Lemma split_newline_nonempty s : split_newline s <> [].
Proof.
  destruct s as [|c s]; simpl; [done|].
  destruct (Ascii.eqb c "010"); [done|]. by destruct (split_newline s).
Qed.

Lemma last_piece_String c s :
  last_piece (String c s) = if Ascii.eqb c "010" then last_piece s
                            else match split_newline s with
                                 | [_] => String c (last_piece s)
                                 | _ => last_piece s
                                 end.
Proof.
  unfold last_piece. simpl.
  pose proof (split_newline_nonempty s) as Hne.
  destruct (Ascii.eqb c "010").
  - by destruct (split_newline s).
  - destruct (split_newline s) as [|x [|y r]]; done.
Qed.

Lemma split_newline_append_single a u :
  forall x, split_newline a = [x] ->
  split_newline u = [u] ->
  split_newline (a +:+ u) = [x +:+ u].
Proof.
  induction a as [|c a IH]; intros x Ha Hu.
  - injection Ha as <-. exact Hu.
  - rewrite append_inj_String. simpl in *.
    pose proof (split_newline_nonempty a) as Hne.
    destruct (Ascii.eqb c "010"); [by destruct (split_newline a)|].
    destruct (split_newline a) as [|y [|z r]] eqn:E; try done.
    injection Ha as <-. by rewrite (IH y eq_refl Hu).
Qed.

(** Text without a newline added at the end goes to the last piece. *)
Lemma last_piece_append a u :
  split_newline u = [u] -> last_piece (a +:+ u) = last_piece a +:+ u.
Proof.
  intros Hu. induction a as [|c a IH].
  - unfold last_piece. simpl. change (EmptyString +:+ u) with u. by rewrite Hu.
  - rewrite append_inj_String, !last_piece_String.
    destruct (Ascii.eqb c "010"); [exact IH|].
    pose proof (split_newline_nonempty a) as Hne.
    destruct (split_newline a) as [|y [|z r]] eqn:E; try done.
    + rewrite (split_newline_append_single a u y E Hu).
      rewrite IH. reflexivity.
    + pose proof (split_newline_nonempty (a +:+ u)) as Hne'.
      destruct (split_newline (a +:+ u)) as [|y' [|z' r']] eqn:E'; try done.
      exfalso. clear IH Hne Hne'.
      revert y z r y' E E'. induction a as [|d a IHa]; intros y z r y' E E'; [done|].
      rewrite append_inj_String in E'. simpl in E, E'.
      destruct (Ascii.eqb d "010").
      * pose proof (split_newline_nonempty (a +:+ u)).
        by destruct (split_newline (a +:+ u)).
      * pose proof (split_newline_nonempty a) as Hne.
        destruct (split_newline a) as [|y0 [|z0 r0]] eqn:Ea; try done.
        pose proof (split_newline_nonempty (a +:+ u)) as Hne'.
        destruct (split_newline (a +:+ u)) as [|y1 [|z1 r1]] eqn:Ea'; try done.
        eapply IHa; eauto.
Qed.

Lemma last_piece_newline a : last_piece (a +:+ newline) = EmptyString.
Proof.
  induction a as [|c a IH]; [reflexivity|].
  rewrite append_inj_String, last_piece_String.
  destruct (Ascii.eqb c "010"); [exact IH|].
  assert (H : exists x y r, split_newline (a +:+ newline) = x :: y :: r).
  { clear. induction a as [|d a [x [y [r IH]]]]; [by eexists _, _, _|].
    rewrite append_inj_String. simpl.
    destruct (Ascii.eqb d "010"); rewrite IH; by eexists _, _, _. }
  destruct H as (x & y & r & ->). exact IH.
Qed.

Lemma join_last sep xs :
  xs <> [] -> exists pre, join sep xs = pre +:+ List.last xs EmptyString.
Proof.
  induction xs as [|x [|y r] IH]; intros Hne; [done| |].
  - by exists EmptyString.
  - destruct (IH ltac:(done)) as [pre Hpre].
    exists (x +:+ sep +:+ pre).
    change (join sep (x :: y :: r)) with (x +:+ sep +:+ join sep (y :: r)).
    rewrite Hpre. by rewrite ?append_assoc.
Qed.

Lemma last_map {A B} (f : A -> B) (xs : list A) (a : A) (b : B) :
  xs <> [] -> List.last (map f xs) b = f (List.last xs a).
Proof.
  induction xs as [|x [|y r] IH]; intros Hne; [done|done|].
  exact (IH ltac:(done)).
Qed.

Section buildTree_properties.
Variable Number_toString : float -> string.

Lemma buildTree_call_leaf call :
  calls call = [] ->
  buildTree_call Number_toString call = node_line Number_toString call.
Proof.
  destruct call as [n d cs]. simpl. intros ->. simpl.
  unfold node_line. simpl. by rewrite append_empty_r.
Qed.

(** The text of the children of a node: what [buildTree] appends after
    the line of a node that has children. *)
Lemma buildTree_call_children n d cs :
  cs <> [] ->
  buildTree_call Number_toString (MkCallTrace n d cs) =
  node_line Number_toString (MkCallTrace n d cs) +:+
  join newline
    (map (fun subCall =>
            join newline
              (map (fun line => "|  " +:+ line)
                   (split_newline (buildTree_call Number_toString subCall))))
         cs).
Proof.
  intros Hne. destruct cs as [|c cs]; [done|].
  unfold node_line. cbn [name duration].
  change (buildTree_call Number_toString (MkCallTrace n d (c :: cs))) with
    ((n +:+ ": " +:+ Number_toString d +:+ newline) +:+
     join newline
       (map (fun subCall =>
               join newline
                 (map (fun line => "|  " +:+ line)
                      (split_newline (buildTree_call Number_toString subCall))))
            (c :: cs))).
  by rewrite ?append_assoc.
Qed.

Lemma prefixed_ends_with_prefix (s : string) :
  last_piece s = EmptyString \/ (exists x, last_piece s = x +:+ "|  ") ->
  exists pre,
    join newline (map (fun line => "|  " +:+ line) (split_newline s)) = pre +:+ "|  ".
Proof.
  intros H.
  destruct (join_last newline (map (fun line => "|  " +:+ line) (split_newline s)))
    as [pre Hpre].
  { pose proof (split_newline_nonempty s). by destruct (split_newline s). }
  rewrite (last_map _ _ EmptyString) in Hpre by apply split_newline_nonempty.
  fold (last_piece s) in Hpre. rewrite Hpre.
  destruct H as [-> | [x ->]].
  - exists pre. by rewrite append_empty_r.
  - exists (pre +:+ "|  " +:+ x). by rewrite ?append_assoc.
Qed.

Lemma buildTree_call_ends call :
  if decide (calls call = []) then
    exists pre, buildTree_call Number_toString call = pre +:+ newline
  else
    exists pre, buildTree_call Number_toString call = pre +:+ "|  ".
Proof.
  induction call as [n d cs IH] using CallTrace_nested_ind.
  cbn [calls]. destruct (decide (cs = [])) as [->|Hne].
  - rewrite buildTree_call_leaf by done. unfold node_line.
    exists (n +:+ ": " +:+ Number_toString d). cbn [name duration].
    by rewrite ?append_assoc.
  - rewrite buildTree_call_children by done.
    destruct (join_last newline
                (map (fun subCall =>
                        join newline
                          (map (fun line => "|  " +:+ line)
                               (split_newline (buildTree_call Number_toString subCall))))
                     cs)) as [pre Hpre]; [by destruct cs|].
    rewrite (last_map _ _ (MkCallTrace EmptyString 0%float [])) in Hpre by done.
    rewrite Hpre.
    assert (Hlast : List.last cs (MkCallTrace EmptyString 0%float []) ∈ cs).
    { clear -Hne. induction cs as [|c [|c' r] IHcs]; [done| |].
      - apply list_elem_of_here.
      - apply list_elem_of_further. by apply IHcs. }
    rewrite List.Forall_forall in IH.
    specialize (IH _ (proj1 (list_elem_of_In _ _) Hlast)).
    set (sub := List.last cs (MkCallTrace EmptyString 0%float [])) in *.
    destruct (prefixed_ends_with_prefix (buildTree_call Number_toString sub))
      as [pre' Hpre'].
    { destruct (decide (calls sub = [])).
      - left. destruct IH as [p ->]. apply last_piece_newline.
      - right. destruct IH as [p ->]. exists (last_piece p).
        by apply last_piece_append. }
    rewrite Hpre'.
    exists (node_line Number_toString (MkCallTrace n d cs) +:+ pre +:+ pre').
    by rewrite ?append_assoc.
Qed.
End buildTree_properties.

(** X1.  [buildTree] of two lists one after the other is the two texts one
    after the other. *)
Theorem buildTree_app (Number_toString : float -> string) (xs ys : list CallTrace) :
  buildTree Number_toString (xs ++ ys) =
  buildTree Number_toString xs +:+ buildTree Number_toString ys.
Proof.
  unfold buildTree at 1. rewrite fold_left_app. fold (buildTree Number_toString xs).
  apply buildTree_from.
Qed.

(** X2.  For nodes that have no children [buildTree] gives one line per
    node, [name: duration] and a newline, in the order of the list, and
    nothing else. *)
Theorem buildTree_flat (Number_toString : float -> string) (nodes : list CallTrace) :
  Forall (fun call => calls call = []) nodes ->
  buildTree Number_toString nodes =
  fold_right (fun call text => node_line Number_toString call +:+ text)
             EmptyString nodes.
Proof.
  induction 1 as [|call rest Hcall _ IH]; [reflexivity|].
  rewrite buildTree_cons, IH, buildTree_call_leaf by done. reflexivity.
Qed.

Lemma buildTree_flat_witness :
  let show := fun _ : float => "7" in
  let nodes := [MkCallTrace "a" 7%float []; MkCallTrace "b" 7%float []] in
  Forall (fun call => calls call = []) nodes /\
  buildTree show nodes = "a: 7" +:+ newline +:+ "b: 7" +:+ newline.
Proof.
  intros show nodes.
  assert (H : Forall (fun call => calls call = []) nodes) by (repeat constructor).
  split; [exact H|]. exact (buildTree_flat show nodes H).
Defined.

(** X3.  When the last node of the list has children, the text [buildTree]
    gives ends with the prefix ["|  "] and not with a newline: the empty
    piece after the final newline of the last child's text is prefixed
    as well. *)
Theorem buildTree_dangling_prefix
    (Number_toString : float -> string) (nodes : list CallTrace) (call : CallTrace) :
  calls call <> [] ->
  exists text, buildTree Number_toString (nodes ++ [call]) = text +:+ "|  ".
Proof.
  intros Hne. unfold buildTree at 1. rewrite fold_left_app.
  fold (buildTree Number_toString nodes). rewrite buildTree_from, buildTree_singleton.
  pose proof (buildTree_call_ends Number_toString call) as H.
  destruct (decide (calls call = [])); [done|].
  destruct H as [pre ->].
  exists (buildTree Number_toString nodes +:+ pre). by rewrite append_assoc.
Qed.

Lemma buildTree_dangling_prefix_witness :
  let show := fun _ : float => "1" in
  let call := MkCallTrace "r" 1%float [MkCallTrace "c" 1%float []] in
  calls call <> [] /\
  exists text, buildTree show ([] ++ [call]) = text +:+ "|  ".
Proof.
  intros show call.
  assert (H : calls call <> []) by done.
  split; [exact H|]. exact (buildTree_dangling_prefix show [] call H).
Defined.

(** *** The lines [buildTree] gives for one tree *)

(** [c] is in the tree under [root], with [k] nodes above it. *)
Inductive node_at : nat -> CallTrace -> CallTrace -> Prop :=
| node_at_root root : node_at 0 root root
| node_at_child k c sub root :
    sub ∈ calls root -> node_at k c sub -> node_at (S k) c root.

(** ["|  "] repeated [k] times. *)
Fixpoint prefixes (k : nat) : string :=
  match k with
  | O => EmptyString
  | S k' => "|  " +:+ prefixes k'
  end.

Lemma split_newline_app_newline a b :
  split_newline (a +:+ newline +:+ b) = split_newline a ++ split_newline b.
Proof.
  induction a as [|c a IH]; [reflexivity|].
  rewrite append_inj_String. simpl. rewrite IH.
  destruct (Ascii.eqb c "010"); [done|].
  pose proof (split_newline_nonempty a). by destruct (split_newline a).
Qed.

Lemma split_newline_String_single c s x :
  split_newline (String c s) = [x] ->
  Ascii.eqb c "010" = false /\ exists y, split_newline s = [y] /\ x = String c y.
Proof.
  simpl. pose proof (split_newline_nonempty s) as Hne.
  destruct (Ascii.eqb c "010"); [by destruct (split_newline s)|].
  destruct (split_newline s) as [|y [|z r]]; try done.
  intros [= <-]. eauto.
Qed.

Lemma split_newline_single_id s x : split_newline s = [x] -> x = s.
Proof.
  revert x. induction s as [|c s IH]; intros x H; [by injection H|].
  apply split_newline_String_single in H as (_ & y & Hy & ->).
  by rewrite (IH y Hy).
Qed.

(** the pieces have no newline in them *)
Lemma split_newline_pieces s : forall p, p ∈ split_newline s -> split_newline p = [p].
Proof.
  induction s as [|c s IH]; intros p Hp; simpl in Hp.
  - apply list_elem_of_singleton in Hp as ->. reflexivity.
  - pose proof (split_newline_nonempty s) as Hne.
    destruct (Ascii.eqb c "010") eqn:Hc.
    + apply elem_of_cons in Hp as [->|Hp]; [reflexivity | by apply IH].
    + destruct (split_newline s) as [|y r] eqn:Hs; [done|].
      apply elem_of_cons in Hp as [->|Hp].
      * simpl. rewrite Hc. rewrite (IH y ltac:(left)). reflexivity.
      * apply IH. by right.
Qed.

Lemma split_newline_join y ys p :
  y ∈ ys -> p ∈ split_newline y -> p ∈ split_newline (join newline ys).
Proof.
  induction ys as [|y0 [|y1 r] IH]; intros Hy Hp.
  - by apply elem_of_nil in Hy.
  - apply list_elem_of_singleton in Hy as ->. exact Hp.
  - change (join newline (y0 :: y1 :: r))
      with (y0 +:+ newline +:+ join newline (y1 :: r)).
    rewrite split_newline_app_newline. apply elem_of_app.
    apply elem_of_cons in Hy as [->|Hy]; [by left|]. right. by apply IH.
Qed.

Section buildTree_lines.
Variable Number_toString : float -> string.

(** [`${call.name}: ${call.duration}`], the line of a node without its
    newline. *)
Definition node_text (call : CallTrace) : string :=
  name call +:+ ": " +:+ Number_toString (duration call).

Lemma buildTree_call_split n d cs :
  split_newline (buildTree_call Number_toString (MkCallTrace n d cs)) =
  split_newline (node_text (MkCallTrace n d cs)) ++
  split_newline
    (if (0 <? length cs)%nat then
       join newline
         (map (fun subCall =>
                 join newline
                   (map (fun line => "|  " +:+ line)
                        (split_newline (buildTree_call Number_toString subCall))))
              cs)
     else EmptyString).
Proof.
  rewrite <- split_newline_app_newline. f_equal.
  unfold node_text. cbn [name duration buildTree_call].
  by rewrite ?append_assoc.
Qed.

Lemma node_line_in_tree k c root :
  node_at k c root ->
  split_newline (node_text c) = [node_text c] ->
  (prefixes k +:+ node_text c) ∈ split_newline (buildTree_call Number_toString root).
Proof.
  intros Hat Hline. induction Hat as [root | k c sub root Hsub Hat IH].
  - destruct root as [n d cs]. rewrite buildTree_call_split, Hline.
    apply elem_of_app. left. by left.
  - specialize (IH Hline). destruct root as [n d cs]. cbn [calls] in Hsub.
    rewrite buildTree_call_split. apply elem_of_app. right.
    destruct cs as [|c0 cs]; [by apply elem_of_nil in Hsub|].
    change (0 <? length (c0 :: cs))%nat with true. cbv iota.
    set (g := fun subCall =>
                join newline
                  (map (fun line => "|  " +:+ line)
                       (split_newline (buildTree_call Number_toString subCall)))).
    apply (split_newline_join (g sub)).
    { apply list_elem_of_fmap. by exists sub. }
    unfold g.
    set (y := "|  " +:+ prefixes k +:+ node_text c).
    apply (split_newline_join y).
    { apply list_elem_of_fmap. by eexists. }
    assert (Hy : split_newline y = [y]).
    { unfold y. apply (split_newline_append_single "|  " _ "|  "); [reflexivity|].
      by eapply split_newline_pieces. }
    rewrite Hy. by left.
Qed.
End buildTree_lines.

(** X23.  In the text [buildTree] gives for one tree, every node of the
    tree has its line: for a node with [k] nodes above it, one of the
    lines of the text is ["|  "] [k] times followed by
    [name: duration] (for a node whose name and printed duration hold no
    newline). *)
Theorem buildTree_has_every_line
    (Number_toString : float -> string) (root c : CallTrace) (k : nat) :
  node_at k c root ->
  split_newline (node_text Number_toString c) = [node_text Number_toString c] ->
  (prefixes k +:+ node_text Number_toString c)
    ∈ split_newline (buildTree Number_toString [root]).
Proof.
  intros Hat Hline. rewrite buildTree_singleton.
  by apply node_line_in_tree.
Qed.

Lemma buildTree_has_every_line_witness :
  let show := fun _ : float => "1" in
  let c := MkCallTrace "c" 1%float [] in
  let root := MkCallTrace "r" 1%float [MkCallTrace "b" 1%float []; c] in
  node_at 1 c root /\
  split_newline (node_text show c) = [node_text show c] /\
  "|  c: 1" ∈ split_newline (buildTree show [root]).
Proof.
  intros show c root.
  assert (H : node_at 1 c root).
  { apply (node_at_child 0 c c root); [|constructor]. simpl. by right; left. }
  split; [exact H|]. split; [reflexivity|].
  exact (buildTree_has_every_line show root c 1 H eq_refl).
Defined.

(** *** The wire round trip on every tuple list *)

(** X4.  Whatever the tuple list, [toWire (fromWire t)] has the names of [t]
    in the same order and nesting; each payload comes back with its
    [micros] replaced by [Math.round(micros / 1000 * 1000)] and with a
    [calls] key, empty where there was none. *)
Theorem wire_roundtrip_every_input (t : list (string * CallTracePayload)) :
  toWire (fromWire t) = map (fun '(n, d) => (n, roundtrip_payload d)) t /\
  map fst (toWire (fromWire t)) = map fst t /\
  Forall (fun p => payload_calls p.2 <> None) (toWire (fromWire t)).
Proof.
  rewrite toWire_fromWire. split; [done|]. split.
  - rewrite map_map. apply map_ext. by intros [n d].
  - apply List.Forall_forall. intros [n d] Hin.
    apply in_map_iff in Hin as ([n' d'] & [= <- <-] & _).
    by destruct d'.
Qed.

(** X5.  A tuple list whose payloads have no children renders as one line
    per tuple, the name and [micros / 1000]. *)
Theorem buildTree_fromWire_flat
    (Number_toString : float -> string) (t : list (string * CallTracePayload)) :
  Forall (fun p => payload_calls p.2 = None \/ payload_calls p.2 = Some []) t ->
  buildTree Number_toString (fromWire t) =
  fold_right
    (fun p text =>
       p.1 +:+ ": " +:+ Number_toString (micros p.2 / 1000)%float +:+ newline +:+ text)
    EmptyString t.
Proof.
  induction 1 as [|[n [m cs]] rest Hp _ IH]; [reflexivity|].
  change (fromWire ((n, Payload m cs) :: rest))
    with (new_CallTrace n (Payload m cs) :: fromWire rest).
  rewrite buildTree_cons, IH, buildTree_call_leaf.
  - unfold node_line. simpl. by rewrite ?append_assoc.
  - simpl in Hp. by destruct Hp as [-> | ->].
Qed.

Lemma buildTree_fromWire_flat_witness :
  let show := fun _ : float => "x" in
  let t := [("a", Payload 1000 None); ("b", Payload 2000 (Some []))] in
  Forall (fun p => payload_calls p.2 = None \/ payload_calls p.2 = Some []) t /\
  buildTree show (fromWire t) = "a: x" +:+ newline +:+ "b: x" +:+ newline.
Proof.
  intros show t.
  assert (H : Forall (fun p => payload_calls p.2 = None \/ payload_calls p.2 = Some []) t).
  { constructor; [by left|]. constructor; [by right|]. constructor. }
  split; [exact H|]. exact (buildTree_fromWire_flat show t H).
Defined.

(** *** The capability checkboxes *)

Local Open Scope Z_scope.

(** the bit a checkbox shows *)
Lemma capability_checked_testbit k c :
  0 <= k < 32 -> capability_checked (ToInt32 (2 ^ k)) c = Z.testbit c k.
Proof.
  intros Hk. unfold capability_checked, js_and.
  rewrite ToInt32_idem, <- (ToInt32_testbit c k) by lia.
  pose proof (ToInt32_range c) as Hc. revert Hc. generalize (ToInt32 c). clear c.
  intros c Hc.
  destruct (Z.testbit c k) eqn:E; simpl.
  - apply negb_true_iff, Z.eqb_neq. intros H0.
    assert (H : Z.testbit (Z.land c (ToInt32 (2 ^ k))) k = false)
      by (rewrite H0; apply Z.bits_0).
    rewrite Z.land_spec, E, mask_testbit, Z.eqb_refl in H by lia.
    discriminate.
  - apply negb_false_iff, Z.eqb_eq.
    apply int32_bits_inj.
    + apply int32_land; [assumption | apply ToInt32_range].
    + unfold int32; lia.
    + intros i Hi. rewrite Z.land_spec, mask_testbit, Z.bits_0 by lia.
      destruct (Z.eqb_spec k i) as [<-|]; [rewrite E|]; auto using andb_false_r.
Qed.

Lemma toggle_testbit_any k c j :
  0 <= k < 32 -> 0 <= j < 32 ->
  Z.testbit (capability_onChange (ToInt32 (2 ^ k)) c) j =
  if Z.eqb k j then negb (Z.testbit c j) else Z.testbit c j.
Proof.
  intros Hk Hj. rewrite (capability_onChange_ToInt32 _ c).
  rewrite toggle_testbit by (assumption || apply ToInt32_range).
  by rewrite ToInt32_testbit.
Qed.

Lemma capability_onChange_range k c :
  int32 (capability_onChange (ToInt32 (2 ^ k)) c).
Proof.
  rewrite (capability_onChange_ToInt32 _ c).
  apply capability_onChange_int32, ToInt32_range.
Qed.

(** X6.  After the handler of a checkbox has run, the checkbox shows the
    opposite of what it showed, whatever number [capabilities] held. *)
Theorem checkbox_shows_the_toggle (k : nat) (entry : string * Z * string) (c : Z) :
  KNOWN_CAPABILITIES !! k = Some entry ->
  let value := entry.1.2 in
  capability_checked value (capability_onChange value c)
  = negb (capability_checked value c).
Proof.
  intros He value.
  destruct (known_capability_mask k entry He) as [Hv Hk].
  subst value. rewrite Hv.
  rewrite !capability_checked_testbit, toggle_testbit_any by lia.
  by rewrite Z.eqb_refl.
Qed.

Lemma checkbox_shows_the_toggle_witness :
  let value := js_shl 1 31 in
  KNOWN_CAPABILITIES !! 31%nat = Some ("UNKNOWN_BIT_31", value, "Unknown bit 31") /\
  capability_checked value 5 = false /\
  capability_checked value (capability_onChange value 5) = true.
Proof.
  intros value. split; [reflexivity|]. split; [reflexivity|].
  exact (checkbox_shows_the_toggle 31 _ 5 eq_refl).
Defined.

(** X7.  The handlers of two checkboxes can run in either order: the number
    left in [capabilities] is the same. *)
Theorem toggles_commute
    (j k : nat) (entry_j entry_k : string * Z * string) (c : Z) :
  KNOWN_CAPABILITIES !! j = Some entry_j ->
  KNOWN_CAPABILITIES !! k = Some entry_k ->
  capability_onChange entry_j.1.2 (capability_onChange entry_k.1.2 c)
  = capability_onChange entry_k.1.2 (capability_onChange entry_j.1.2 c).
Proof.
  intros Hj Hk.
  destruct (known_capability_mask j entry_j Hj) as [-> Hj'].
  destruct (known_capability_mask k entry_k Hk) as [-> Hk'].
  apply int32_bits_inj; try apply capability_onChange_range.
  intros i Hi. rewrite !toggle_testbit_any by lia.
  destruct (Z.of_nat j =? i), (Z.of_nat k =? i); reflexivity.
Qed.

Lemma toggles_commute_witness :
  let a := js_shl 1 0 in
  let b := js_shl 1 31 in
  KNOWN_CAPABILITIES !! 0%nat
    = Some ("LAZY_USER_NOTES", a, "Remove the notes field from the READY event.") /\
  KNOWN_CAPABILITIES !! 31%nat = Some ("UNKNOWN_BIT_31", b, "Unknown bit 31") /\
  capability_onChange a (capability_onChange b 4) = -2147483643 /\
  capability_onChange b (capability_onChange a 4) = -2147483643.
Proof.
  intros a b. split; [reflexivity|]. split; [reflexivity|]. split; [reflexivity|].
  exact (eq_trans (toggles_commute 31 0 _ _ 4 eq_refl eq_refl) eq_refl).
Defined.

(** X8.  Whatever number [capabilities] held, the handler of a checkbox
    leaves a signed 32-bit integer there; so once one checkbox has been
    used, using any checkbox twice gives back exactly the number there
    was. *)
Theorem toggle_twice_after_first
    (j k : nat) (entry_j entry_k : string * Z * string) (c : Z) :
  KNOWN_CAPABILITIES !! j = Some entry_j ->
  KNOWN_CAPABILITIES !! k = Some entry_k ->
  let c1 := capability_onChange entry_j.1.2 c in
  - 2 ^ 31 <= c1 < 2 ^ 31 /\
  capability_onChange entry_k.1.2 (capability_onChange entry_k.1.2 c1) = c1.
Proof.
  intros Hj Hk c1. subst c1.
  destruct (known_capability_mask j entry_j Hj) as [-> Hj'].
  destruct (known_capability_mask k entry_k Hk) as [-> Hk'].
  split; [apply capability_onChange_range|].
  apply int32_bits_inj; try apply capability_onChange_range.
  intros i Hi. rewrite !toggle_testbit_any by lia.
  destruct (Z.of_nat j =? i), (Z.of_nat k =? i); by rewrite ?negb_involutive.
Qed.

Lemma toggle_twice_after_first_witness :
  let a := js_shl 1 0 in
  let b := js_shl 1 1 in
  KNOWN_CAPABILITIES !! 0%nat
    = Some ("LAZY_USER_NOTES", a, "Remove the notes field from the READY event.") /\
  KNOWN_CAPABILITIES !! 1%nat
    = Some ("NO_AFFINE_USER_IDS", b,
            "Disable member/presence syncing for implicit relationships") /\
  capability_onChange a 4294967296 = 1 /\
  capability_onChange b (capability_onChange b 1) = 1.
Proof.
  intros a b. split; [reflexivity|]. split; [reflexivity|]. split; [reflexivity|].
  exact (proj2 (toggle_twice_after_first 0 1 _ _ 4294967296 eq_refl eq_refl)).
Defined.

Local Close Scope Z_scope.

(** *** Dispatches the rewrite does not apply to *)

(** X9.  Unless the type is ["READY"] and the setting is on, a dispatch is
    returned as it came, whatever the data, and no object is touched. *)
Theorem dispatch_passthrough
    (fixReady : bool) (type : string) (data extra : value) (h : heap) :
  type <> "READY" \/ fixReady = false ->
  _interceptIncomingDispatchPayload fixReady type data extra h = Ok h (type, data).
Proof.
  intros H. rewrite intercept_unfold.
  assert (Hcond : String.eqb type "READY" && fixReady = false).
  { destruct H as [H | ->]; [|apply andb_false_r].
    apply String.eqb_neq in H. by rewrite H. }
  by rewrite Hcond.
Qed.

Lemma dispatch_passthrough_witness :
  _interceptIncomingDispatchPayload true "MESSAGE_CREATE" VUndefined VNull []
  = Ok [] ("MESSAGE_CREATE", VUndefined).
Proof. apply dispatch_passthrough. by left. Defined.

(** X10.  A READY dispatch whose data is not an object throws a [TypeError]
    with the setting on: at the first read for [undefined] and [null],
    at the loop over [data.guilds], which reads [undefined], for the
    other primitives.  No object is touched. *)
Theorem ready_on_primitive_throws (data extra : value) (h : heap) :
  primitive data ->
  _interceptIncomingDispatchPayload true "READY" data extra h = Throw h TypeError.
Proof. intros H. by destruct data. Qed.

Lemma ready_on_primitive_throws_witness :
  _interceptIncomingDispatchPayload true "READY" (VString "x") VNull []
  = Throw [] TypeError.
Proof. exact (ready_on_primitive_throws (VString "x") VNull [] I). Defined.

(** *** The READY rewrite on a JSON payload *)

(** [{entries: x, partial: false, version: 1}] *)
Definition versioned (entries : value) : object :=
  Obj (KRecord ProtoObject)
    [("entries", entries); ("partial", VBool false); ("version", VNumber 1)].

(** In [h] the value [x] is an array. *)
Definition is_array_in (h : heap) (x : option value) : Prop :=
  exists la A es, x = Some (VRef la) /\ h !! la = Some A /\ okind A = KArray es.

Lemma is_array_in_dec h x : is_array_in h x \/ ~ is_array_in h x.
Proof.
  destruct x as [[| | | | | |la]|]; try (right; by intros (? & ? & ? & [=] & _)).
  destruct (h !! la) as [A|] eqn:HA; [|right; intros (? & ? & ? & [= <-] & ? & _); congruence].
  destruct (okind A) as [p|es|c] eqn:Hk.
  - right. intros (? & ? & ? & [= <-] & ? & ?). congruence.
  - left. by exists la, A, es.
  - right. intros (? & ? & ? & [= <-] & ? & ?). congruence.
Qed.

(** One wrapper block on a JSON object. *)
Lemma wrap_versioned_plain f h ld ps :
  h !! ld = Some (Obj (KRecord ProtoObject) ps) ->
  fields_valid h ld ->
  mem_string f Object_prototype_names = false -> f <> "__proto__" ->
  wrap_versioned f (VRef ld) h =
  Ok (match assoc f ps with
      | Some (VRef la) =>
          match h !! la with
          | Some (Obj (KArray _) _) =>
              <[ld := Obj (KRecord ProtoObject) (assoc_set f (VRef (length h)) ps)]>
                (h ++ [versioned (VRef la)])
          | _ => h
          end
      | _ => h
      end) tt.
Proof.
  intros Hld Hvalid Hf Hf'.
  assert (Hget : Get (VRef ld) f h = Ok h (default VUndefined (assoc f ps))).
  { eapply Get_ref; [done|]. unfold get_property, own_property. cbn [okind props].
    destruct (assoc f ps); [done|]. unfold inherits. cbn [okind]. by rewrite Hf. }
  assert (Hnoop : Array_isArray (default VUndefined (assoc f ps)) h = Ok h false ->
                  wrap_versioned f (VRef ld) h = Ok h tt).
  { intros Ha. apply wrap_versioned_noop. by eexists. }
  destruct (assoc f ps) as [x|] eqn:Hx; simpl in *; [|by apply Hnoop].
  destruct x as [| | | | | |lx]; try (by apply Hnoop).
  destruct (Hvalid _ f lx Hld Hx) as [ox Hox]. rewrite Hox.
  pose proof (Array_isArray_ref _ _ _ Hox) as Ha.
  destruct ox as [[p|elems|code] ops]; simpl in Ha; try (by apply Hnoop).
  unfold wrap_versioned. mstep Hget. mstep Ha. mstep Hget.
  mstep (alloc_Ok (versioned (VRef lx)) h).
  apply Put_record; [by apply preserved_alloc | done | done].
Qed.

Lemma normalize_guild_length h g h1 :
  plain_record h g -> normalize_guild (VRef g) h = Ok h1 tt -> length h <= length h1.
Proof.
  intros (ps & Hg & Hnd & Hproto). rewrite (normalize_guild_plain h g ps Hg Hnd Hproto).
  destruct (assoc "properties" ps); intros [= <-]; [done|].
  rewrite length_insert, length_app. lia.
Qed.

Lemma assoc_app_l k (ps rest : list (string * value)) x :
  assoc k ps = Some x -> assoc k (ps ++ rest) = Some x.
Proof.
  induction ps as [|[k' v'] ps IH]; simpl; [done|].
  by destruct (String.eqb k k').
Qed.

(** The loop over an array of JSON objects: what it leaves alone and
    what it does to an element without [properties]. *)
Lemma guild_loop_post lg G elems :
  okind G = KArray elems ->
  forall (indices : list nat) h,
    h !! lg = Some G ->
    (forall i, i ∈ indices ->
       exists g, elems !! i = Some (Some (VRef g)) /\ plain_record h g) ->
    exists h',
      for_each indices
        (fun i => let* x := array_element lg i in normalize_guild x) h = Ok h' tt /\
      length h <= length h' /\
      (forall l o, h !! l = Some o ->
         (forall i, i ∈ indices -> elems !! i <> Some (Some (VRef l))) ->
         h' !! l = Some o) /\
      (forall l gps x, h !! l = Some (Obj (KRecord ProtoObject) gps) ->
         assoc "properties" gps = Some x ->
         h' !! l = Some (Obj (KRecord ProtoObject) gps)) /\
      (forall i g gps, i ∈ indices -> elems !! i = Some (Some (VRef g)) ->
         h !! g = Some (Obj (KRecord ProtoObject) gps) ->
         assoc "properties" gps = None ->
         exists p, length h <= p /\
           h' !! g = Some (Obj (KRecord ProtoObject)
                             (left_entries gps ++ [("properties", VRef p)])) /\
           h' !! p = Some (moved_object gps)).
Proof.
  intros HG. induction indices as [|i0 indices IH]; intros h Hlg Hall.
  - exists h. split; [done|]. split; [done|]. split; [done|]. split; [done|].
    intros i g gps Hi. by apply elem_of_nil in Hi.
  - destruct (Hall i0 ltac:(left)) as (g0 & Hi0 & Hplain0).
    destruct (normalize_guild_total h g0 Hplain0) as (h1 & Hrun & Hkeep & Hframe).
    pose proof (normalize_guild_length h g0 h1 Hplain0 Hrun) as Hlen1.
    assert (Hne : lg <> g0).
    { intros <-. destruct Hplain0 as (ps & Hps & _). rewrite Hlg in Hps.
      injection Hps as ->. done. }
    assert (Hall1 : forall i, i ∈ indices ->
              exists g, elems !! i = Some (Some (VRef g)) /\ plain_record h1 g).
    { intros j Hj. destruct (Hall j ltac:(by right)) as (g' & Hj' & Hplain').
      exists g'. split; [done | by apply Hkeep]. }
    destruct (IH h1 (Hframe _ _ Hne Hlg) Hall1)
      as (h' & Hrest & Hlen & Hfr & Hst & Hpost).
    exists h'. split.
    { simpl. mstep (array_element_Ok _ _ _ _ i0 Hlg HG). rewrite Hi0. simpl.
      by mstep Hrun. }
    split; [lia|].
    assert (Hstable1 : forall l gps x, h !! l = Some (Obj (KRecord ProtoObject) gps) ->
              assoc "properties" gps = Some x ->
              h1 !! l = Some (Obj (KRecord ProtoObject) gps)).
    { intros l gps x Hl Hx. destruct (decide (l = g0)) as [->|Hl0].
      - destruct Hplain0 as (ps & Hps & Hnd & Hproto).
        rewrite Hl in Hps. injection Hps as <-.
        rewrite (normalize_guild_plain h g0 gps Hl Hnd Hproto), Hx in Hrun.
        by injection Hrun as <-.
      - by apply Hframe. }
    split; [|split].
    + intros l o Hl Hnot. apply Hfr.
      * apply Hframe; [|done]. intros ->. by apply (Hnot i0 ltac:(left)).
      * intros i Hi. apply Hnot. by right.
    + intros l gps x Hl Hx. eapply Hst; [|exact Hx]. by eapply Hstable1.
    + intros i g gps Hi Hig Hg Hnone.
      destruct (decide (g = g0)) as [->|Hg0].
      * destruct Hplain0 as (ps & Hps & Hnd & Hproto).
        rewrite Hg in Hps. injection Hps as <-.
        rewrite (normalize_guild_plain h g0 gps Hg Hnd Hproto), Hnone in Hrun.
        injection Hrun as <-.
        assert (Hlt : g0 < length h) by (by eapply lookup_lt_Some).
        exists (length h). split; [done|]. split.
        -- eapply Hst.
           ++ apply list_lookup_insert_eq. rewrite length_app. simpl. lia.
           ++ apply assoc_app_fresh. intros Hin. apply left_entries_keys in Hin.
              by apply (assoc_None_inv _ _ Hnone).
        -- apply Hfr.
           ++ rewrite list_lookup_insert_ne by lia. by rewrite list_lookup_middle.
           ++ intros j Hj Hej.
              destruct (Hall j ltac:(by right)) as (g' & Hj' & (ps' & Hps' & _)).
              rewrite Hej in Hj'. injection Hj' as <-.
              apply lookup_lt_Some in Hps'. lia.
      * assert (Hi' : i ∈ indices).
        { apply elem_of_cons in Hi as [->|Hi]; [|done].
          rewrite Hi0 in Hig. by injection Hig as <-. }
        destruct (Hpost i g gps Hi' Hig (Hframe _ _ Hg0 Hg) Hnone) as (p & Hp & Hg' & Hp').
        exists p. split; [lia|done].
Qed.

Section ready_on_json.
Variables (h : heap) (ld lg : loc) (ps : list (string * value)).
Variables (G : object) (elems : list (option value)) (extra : value).
Hypothesis Hld : h !! ld = Some (Obj (KRecord ProtoObject) ps).
Hypothesis Hnd : NoDup (map fst ps).
Hypothesis Hproto : forall x, assoc "__proto__" ps = Some x -> primitive x.
Hypothesis Hvalid : fields_valid h ld.
Hypothesis Hguilds : assoc "guilds" ps = Some (VRef lg).
Hypothesis HG : h !! lg = Some G.
Hypothesis Hkind : okind G = KArray elems.
Hypothesis Helems : forall i e, elems !! i = Some e ->
  exists g, e = Some (VRef g) /\ plain_record h g /\ g <> ld.

Lemma ready_json_post :
  exists h' ps',
    _interceptIncomingDispatchPayload true "READY" (VRef ld) extra h
      = Ok h' ("READY", VRef ld) /\
    length h <= length h' /\
    h' !! ld = Some (Obj (KRecord ProtoObject) ps') /\
    h' !! lg = Some G /\
    map fst ps' = map fst ps /\
    (forall k, k <> "read_state" -> k <> "user_guild_settings" ->
       assoc k ps' = assoc k ps) /\
    (forall f, f = "read_state" \/ f = "user_guild_settings" ->
       if assoc f ps is Some (VRef la) then
         match h !! la with
         | Some (Obj (KArray es) aps) =>
             exists w, length h <= w /\
               assoc f ps' = Some (VRef w) /\
               h' !! w = Some (versioned (VRef la)) /\
               h' !! la = Some (Obj (KArray es) aps)
         | _ => assoc f ps' = assoc f ps
         end
       else assoc f ps' = assoc f ps) /\
    (forall i g gps, elems !! i = Some (Some (VRef g)) ->
       h !! g = Some (Obj (KRecord ProtoObject) gps) ->
       match assoc "properties" gps with
       | Some _ => h' !! g = Some (Obj (KRecord ProtoObject) gps)
       | None =>
           exists p, length h <= p /\
             h' !! g = Some (Obj (KRecord ProtoObject)
                               (left_entries gps ++ [("properties", VRef p)])) /\
             h' !! p = Some (moved_object gps)
       end).
Proof.
  assert (Hlt : ld < length h) by (by eapply lookup_lt_Some).
  assert (Hne : lg <> ld).
  { intros ->. rewrite HG in Hld. injection Hld as ->. done. }
  (* first block *)
  pose proof (wrap_versioned_plain "read_state" h ld ps Hld Hvalid eq_refl ltac:(done)) as Hw1.
  set (ha := match assoc "read_state" ps with
             | Some (VRef la) =>
                 match h !! la with
                 | Some (Obj (KArray _) _) =>
                     <[ld := Obj (KRecord ProtoObject)
                               (assoc_set "read_state" (VRef (length h)) ps)]>
                       (h ++ [versioned (VRef la)])
                 | _ => h
                 end
             | _ => h
             end) in *.
  destruct (wrap_versioned_total "read_state" h ld) as (ha' & Hw1' & Hplain1 & Hvalid1 & Hframe1 & _);
    try done.
  { by exists ps. }
  rewrite Hw1 in Hw1'. injection Hw1' as <-.
  assert (Hlen1 : length h <= length ha).
  { unfold ha. destruct (assoc "read_state" ps) as [[| | | | | |la]|]; try done.
    destruct (h !! la) as [[[?|?|?] ?]|]; try done.
    rewrite length_insert, length_app. lia. }
  assert (Hps1 : exists ps1,
    ha !! ld = Some (Obj (KRecord ProtoObject) ps1) /\
    map fst ps1 = map fst ps /\
    (forall k, k <> "read_state" -> assoc k ps1 = assoc k ps) /\
    (if assoc "read_state" ps is Some (VRef la) then
       match h !! la with
       | Some (Obj (KArray es) aps) =>
           assoc "read_state" ps1 = Some (VRef (length h)) /\
           ha !! length h = Some (versioned (VRef la))
       | _ => assoc "read_state" ps1 = assoc "read_state" ps
       end
     else assoc "read_state" ps1 = assoc "read_state" ps)).
  { unfold ha.
    destruct (assoc "read_state" ps) as [x|] eqn:Hx; [|by exists ps].
    destruct x as [| | | | | |la]; try (by exists ps; rewrite ?Hx).
    destruct (h !! la) as [[[?|es|?] aps]|] eqn:Hla; try (by exists ps; rewrite ?Hx).
    eexists. split; [apply list_lookup_insert_eq; rewrite length_app; simpl; lia|].
    split; [by eapply assoc_set_keys|].
    split; [intros k Hk; by apply assoc_assoc_set_ne|].
    split; [apply assoc_assoc_set|].
    rewrite list_lookup_insert_ne by lia. by rewrite list_lookup_middle. }
  destruct Hps1 as (ps1 & Hld1 & Hkeys1 & Hother1 & Hrs1).
  (* second block *)
  pose proof (wrap_versioned_plain "user_guild_settings" ha ld ps1 Hld1 Hvalid1
                eq_refl ltac:(done)) as Hw2.
  set (hb := match assoc "user_guild_settings" ps1 with
             | Some (VRef la) =>
                 match ha !! la with
                 | Some (Obj (KArray _) _) =>
                     <[ld := Obj (KRecord ProtoObject)
                               (assoc_set "user_guild_settings" (VRef (length ha)) ps1)]>
                       (ha ++ [versioned (VRef la)])
                 | _ => ha
                 end
             | _ => ha
             end) in *.
  assert (Hdata1 : plain_record ha ld).
  { apply Hplain1. by exists ps. }
  destruct (wrap_versioned_total "user_guild_settings" ha ld Hdata1 Hvalid1)
    as (hb' & Hw2' & Hplain2 & Hvalid2 & Hframe2 & _); try done.
  rewrite Hw2 in Hw2'. injection Hw2' as <-.
  assert (Hlt1 : ld < length ha) by lia.
  assert (Hlen2 : length ha <= length hb).
  { unfold hb. destruct (assoc "user_guild_settings" ps1) as [[| | | | | |la]|]; try done.
    destruct (ha !! la) as [[[?|?|?] ?]|]; try done.
    rewrite length_insert, length_app. lia. }
  assert (Hps2 : exists ps2,
    hb !! ld = Some (Obj (KRecord ProtoObject) ps2) /\
    map fst ps2 = map fst ps1 /\
    (forall k, k <> "user_guild_settings" -> assoc k ps2 = assoc k ps1) /\
    (if assoc "user_guild_settings" ps1 is Some (VRef la) then
       match ha !! la with
       | Some (Obj (KArray es) aps) =>
           assoc "user_guild_settings" ps2 = Some (VRef (length ha)) /\
           hb !! length ha = Some (versioned (VRef la))
       | _ => assoc "user_guild_settings" ps2 = assoc "user_guild_settings" ps1
       end
     else assoc "user_guild_settings" ps2 = assoc "user_guild_settings" ps1)).
  { unfold hb.
    destruct (assoc "user_guild_settings" ps1) as [x|] eqn:Hx; [|by exists ps1].
    destruct x as [| | | | | |la]; try (by exists ps1; rewrite ?Hx).
    destruct (ha !! la) as [[[?|es|?] aps]|] eqn:Hla; try (by exists ps1; rewrite ?Hx).
    eexists. split; [apply list_lookup_insert_eq; rewrite length_app; simpl; lia|].
    split; [by eapply assoc_set_keys|].
    split; [intros k Hk; by apply assoc_assoc_set_ne|].
    split; [apply assoc_assoc_set|].
    rewrite list_lookup_insert_ne by lia. by rewrite list_lookup_middle. }
  destruct Hps2 as (ps2 & Hld2 & Hkeys2 & Hother2 & Hugs2).
  (* the loop *)
  assert (Hguilds2 : Get (VRef ld) "guilds" hb = Ok hb (VRef lg)).
  { eapply Get_ref; [exact Hld2|]. unfold get_property, own_property. cbn [okind props].
    by rewrite Hother2, Hother1, Hguilds. }
  assert (HGb : hb !! lg = Some G) by (by apply Hframe2, Hframe1).
  destruct (guild_loop_post lg G elems Hkind (seq 0 (length elems)) hb HGb)
    as (h' & Hloop & Hlen3 & Hfr & Hst & Hpost).
  { intros i Hi. apply elem_of_seq in Hi as [_ Hi].
    destruct (lookup_lt_is_Some_2 elems i Hi) as [e He].
    destruct (Helems i e He) as (g & -> & Hg & _).
    exists g. split; [done|]. by apply Hplain2, Hplain1. }
  assert (Hnot_guild : forall l, (l = ld \/ length h <= l \/
                                  exists es aps, h !! l = Some (Obj (KArray es) aps)) ->
            forall i, i ∈ seq 0 (length elems) -> elems !! i <> Some (Some (VRef l))).
  { intros l Hl i _ Hi. destruct (Helems i _ Hi) as (g & [= <-] & (gps & Hg & _) & Hgld).
    destruct Hl as [-> | [Hl | (es & aps & Hl)]]; [done| |congruence].
    apply lookup_lt_Some in Hg. lia. }
  exists h', ps2. split.
  { rewrite intercept_unfold. simpl. mstep Hw1. mstep Hw2. mstep Hguilds2.
    unfold for_of. mstep (deref_Ok _ _ _ HGb). rewrite Hkind. by mstep Hloop. }
  split; [lia|].
  split; [apply Hfr; [done | apply Hnot_guild; by left]|].
  split.
  { apply Hfr; [done|]. apply Hnot_guild. right. right.
    destruct G as [k aps]. simpl in Hkind. subst k. by eexists _, _. }
  split; [by rewrite Hkeys2|].
  split; [intros k Hk1 Hk2; by rewrite Hother2, Hother1|].
  split.
  - intros f [-> | ->].
    + rewrite Hother2 by done.
      destruct (assoc "read_state" ps) as [[| | | | | |la]|]; try done.
      destruct (h !! la) as [[[?|es|?] aps]|] eqn:Hla; try done.
      destruct Hrs1 as [Hrs1 Hw].
      exists (length h). split; [done|]. split; [done|]. split.
      * apply Hfr; [|apply Hnot_guild; right; left; done].
        apply Hframe2; [lia|done].
      * apply Hfr; [|apply Hnot_guild; right; right; by eexists _, _].
        assert (la <> ld) by (intros ->; congruence).
        by apply Hframe2, Hframe1.
    + rewrite <- (Hother1 "user_guild_settings") by done.
      destruct (assoc "user_guild_settings" ps1) as [[| | | | | |la]|] eqn:Hx; try done.
      destruct (h !! la) as [[[?|es|?] aps]|] eqn:Hla.
      * destruct (ha !! la) as [[[?|es'|?] aps']|] eqn:Hla'; try done.
        assert (la <> ld) by (intros ->; congruence).
        rewrite (Hframe1 _ _ ltac:(done) Hla) in Hla'. done.
      * assert (la <> ld) by (intros ->; congruence).
        rewrite (Hframe1 _ _ ltac:(done) Hla) in Hugs2.
        destruct Hugs2 as [Hugs2 Hw].
        exists (length ha). split; [lia|]. split; [done|]. split.
        -- apply Hfr; [done|]. apply Hnot_guild. right. left. lia.
        -- apply Hfr; [|apply Hnot_guild; right; right; by eexists _, _].
           by apply Hframe2, Hframe1.
      * destruct (ha !! la) as [[[?|es'|?] aps']|] eqn:Hla'; try done.
        assert (la <> ld) by (intros ->; congruence).
        rewrite (Hframe1 _ _ ltac:(done) Hla) in Hla'. done.
      * (* a dangling reference is excluded by [fields_valid] *)
        rewrite (Hother1 "user_guild_settings") in Hx by done.
        destruct (Hvalid _ _ _ Hld Hx) as [? ?]. congruence.
  - intros i g gps Hi Hg.
    destruct (Helems i _ Hi) as (g' & [= <-] & _ & Hgld).
    assert (Hgb : hb !! g = Some (Obj (KRecord ProtoObject) gps)) by (by apply Hframe2, Hframe1).
    destruct (assoc "properties" gps) as [x|] eqn:Hx.
    + by eapply Hst.
    + destruct (Hpost i g gps) as (p & Hp & Hg' & Hp'); try done.
      { apply elem_of_seq. apply lookup_lt_Some in Hi. lia. }
      exists p. split; [lia|done].
Qed.
End ready_on_json.

(** A READY payload as [JSON.parse] gives it: the data is a JSON object
    with entries [ps] whose [guilds] is an array of JSON objects.  An
    entry under [__proto__], in the data or in a guild, holds a
    primitive. *)
Definition json_ready_payload
    (h : heap) (ld : loc) (ps : list (string * value))
    (lg : loc) (elems : list (option value)) : Prop :=
  h !! ld = Some (Obj (KRecord ProtoObject) ps) /\
  NoDup (map fst ps) /\
  (forall x, assoc "__proto__" ps = Some x -> primitive x) /\
  fields_valid h ld /\
  assoc "guilds" ps = Some (VRef lg) /\
  h !! lg = Some (Obj (KArray elems) []) /\
  (forall i e, elems !! i = Some e ->
     exists g, e = Some (VRef g) /\ plain_record h g /\ g <> ld).

(** X11.  On a JSON payload the READY rewrite returns, and a [read_state] or
    [user_guild_settings] that is an array is replaced in [data] by a
    new object [{entries, partial: false, version: 1}] whose [entries]
    is that same array, itself unchanged. *)
Theorem ready_wraps_sequences
    (h : heap) (ld lg : loc) (ps : list (string * value))
    (elems : list (option value)) (extra : value)
    (f : string) (la : loc) (es : list (option value)) (aps : list (string * value)) :
  json_ready_payload h ld ps lg elems ->
  f = "read_state" \/ f = "user_guild_settings" ->
  assoc f ps = Some (VRef la) ->
  h !! la = Some (Obj (KArray es) aps) ->
  exists h' w,
    _interceptIncomingDispatchPayload true "READY" (VRef ld) extra h
      = Ok h' ("READY", VRef ld) /\
    length h <= w /\
    Get (VRef ld) f h' = Ok h' (VRef w) /\
    h' !! w = Some (Obj (KRecord ProtoObject)
                      [("entries", VRef la); ("partial", VBool false);
                       ("version", VNumber 1)]) /\
    h' !! la = Some (Obj (KArray es) aps).
Proof.
  intros (Hld & Hnd & Hproto & Hvalid & Hguilds & HG & Helems) Hf Hx Hla.
  destruct (ready_json_post h ld lg ps _ elems extra Hld Hnd Hproto Hvalid Hguilds HG
              eq_refl Helems)
    as (h' & ps' & Hrun & _ & Hld' & _ & _ & _ & Hwrap & _).
  specialize (Hwrap f Hf). rewrite Hx, Hla in Hwrap.
  destruct Hwrap as (w & Hw & Hfw & Hw' & Hla').
  exists h', w. split; [done|]. split; [done|]. split; [|done].
  eapply Get_ref; [exact Hld'|].
  unfold get_property, own_property. cbn [okind props]. by rewrite Hfw.
Qed.

(** X12.  On a JSON payload in which an entry under [__proto__] holds a
    primitive, the READY rewrite leaves a guild object that has a
    [properties] key as it is.  In one that has none, the entries whose
    key passes [key in outerFields] (an index ["0"] to ["19"] or a name
    every array has, such as ["length"] or ["__proto__"]) are deleted;
    the guild keeps its other entries in their order, every name the
    allowlist holds among them, and gets a new object as [properties],
    last.  The new object has the deleted entries in their order, but
    for one under [__proto__]: that one is lost, and the new object has
    no prototype when it held [null]. *)
Theorem ready_rewrites_guilds
    (h : heap) (ld lg : loc) (ps : list (string * value))
    (elems : list (option value)) (extra : value)
    (i : nat) (g : loc) (gps : list (string * value)) :
  json_ready_payload h ld ps lg elems ->
  elems !! i = Some (Some (VRef g)) ->
  h !! g = Some (Obj (KRecord ProtoObject) gps) ->
  exists h',
    _interceptIncomingDispatchPayload true "READY" (VRef ld) extra h
      = Ok h' ("READY", VRef ld) /\
    match assoc "properties" gps with
    | Some _ => h' !! g = Some (Obj (KRecord ProtoObject) gps)
    | None =>
        exists p, length h <= p /\
          h' !! g = Some (Obj (KRecord ProtoObject)
                            (List.filter (fun kv => negb (in_array kv.1 outerFields)) gps
                             ++ [("properties", VRef p)])) /\
          h' !! p = Some (Obj (KRecord (match assoc "__proto__" gps with
                                        | Some VNull => ProtoNull
                                        | _ => ProtoObject
                                        end))
                            (List.filter (fun kv => negb (String.eqb kv.1 "__proto__"))
                               (List.filter (fun kv => in_array kv.1 outerFields) gps)))
    end /\
    forallb (fun key => negb (in_array key outerFields)) outerFields = true /\
    in_array "__proto__" outerFields = true.
Proof.
  intros (Hld & Hnd & Hproto & Hvalid & Hguilds & HG & Helems) Hi Hg.
  destruct (ready_json_post h ld lg ps _ elems extra Hld Hnd Hproto Hvalid Hguilds HG
              eq_refl Helems)
    as (h' & ps' & Hrun & _ & _ & _ & _ & _ & _ & Hpost).
  exists h'. split; [done|]. split; [|split; reflexivity].
  exact (Hpost i g gps Hi Hg).
Qed.

(** X13.  On a JSON payload the READY rewrite keeps the keys of [data] and
    their order, every field other than [read_state] and
    [user_guild_settings] holds what it held, and the guild array has
    the elements it had. *)
Theorem ready_keeps_other_fields
    (h : heap) (ld lg : loc) (ps : list (string * value))
    (elems : list (option value)) (extra : value) :
  json_ready_payload h ld ps lg elems ->
  exists h' ps',
    _interceptIncomingDispatchPayload true "READY" (VRef ld) extra h
      = Ok h' ("READY", VRef ld) /\
    h' !! ld = Some (Obj (KRecord ProtoObject) ps') /\
    map fst ps' = map fst ps /\
    (forall k, k <> "read_state" -> k <> "user_guild_settings" ->
       assoc k ps' = assoc k ps) /\
    h' !! lg = Some (Obj (KArray elems) []).
Proof.
  intros (Hld & Hnd & Hproto & Hvalid & Hguilds & HG & Helems).
  destruct (ready_json_post h ld lg ps _ elems extra Hld Hnd Hproto Hvalid Hguilds HG
              eq_refl Helems)
    as (h' & ps' & Hrun & _ & Hld' & HG' & Hkeys & Hother & _).
  by exists h', ps'.
Qed.

(** The READY payload
    [{read_state: [], guilds: [{id: "1", length: 2}, {properties: null}]}]. *)
Definition ready_sample : heap :=
  [ Obj (KRecord ProtoObject) [("read_state", VRef 1); ("guilds", VRef 2)];
    Obj (KArray []) [];
    Obj (KArray [Some (VRef 3); Some (VRef 4)]) [];
    Obj (KRecord ProtoObject) [("id", VString "1"); ("length", VNumber 2)];
    Obj (KRecord ProtoObject) [("properties", VNull)] ].

Lemma ready_sample_json :
  json_ready_payload ready_sample 0
    [("read_state", VRef 1); ("guilds", VRef 2)] 2 [Some (VRef 3); Some (VRef 4)].
Proof.
  split; [reflexivity|]. split; [compute_done|]. split; [done|].
  split; [|split; [reflexivity|split; [reflexivity|]]].
  - apply fields_valid_intro. intros o [= <-]. repeat constructor; simpl; eauto.
  - intros [|[|i]] e He; try done; injection He as <-.
    + exists 3. split; [done|]. split; [|done].
      eexists. split; [reflexivity|]. split; [compute_done | done].
    + exists 4. split; [done|]. split; [|done].
      eexists. split; [reflexivity|]. split; [compute_done | done].
Qed.

(** The READY payload
    [{guilds: [{"__proto__": 5, id: "1", length: 2}, {"__proto__": null}]}]. *)
Definition ready_proto_sample : heap :=
  [ Obj (KRecord ProtoObject) [("guilds", VRef 1)];
    Obj (KArray [Some (VRef 2); Some (VRef 3)]) [];
    Obj (KRecord ProtoObject)
      [("__proto__", VNumber 5); ("id", VString "1"); ("length", VNumber 2)];
    Obj (KRecord ProtoObject) [("__proto__", VNull)] ].

Lemma ready_proto_sample_json :
  json_ready_payload ready_proto_sample 0
    [("guilds", VRef 1)] 1 [Some (VRef 2); Some (VRef 3)].
Proof.
  split; [reflexivity|]. split; [compute_done|]. split; [done|].
  split; [|split; [reflexivity|split; [reflexivity|]]].
  - apply fields_valid_intro. intros o [= <-]. repeat constructor; simpl; eauto.
  - intros [|[|i]] e He; try done; injection He as <-.
    + exists 2. split; [done|]. split; [|done].
      eexists. split; [reflexivity|]. split; [compute_done|].
      by intros x [= <-].
    + exists 3. split; [done|]. split; [|done].
      eexists. split; [reflexivity|]. split; [compute_done|].
      by intros x [= <-].
Qed.

Lemma ready_wraps_sequences_witness :
  exists h' w,
    _interceptIncomingDispatchPayload true "READY" (VRef 0) VNull ready_sample
      = Ok h' ("READY", VRef 0) /\
    length ready_sample <= w /\
    Get (VRef 0) "read_state" h' = Ok h' (VRef w) /\
    h' !! w = Some (Obj (KRecord ProtoObject)
                      [("entries", VRef 1); ("partial", VBool false);
                       ("version", VNumber 1)]) /\
    h' !! 1 = Some (Obj (KArray []) []).
Proof.
  exact (ready_wraps_sequences ready_sample 0 2 _ _ VNull "read_state" 1 [] []
           ready_sample_json (or_introl eq_refl) eq_refl eq_refl).
Defined.

Lemma ready_rewrites_guilds_witness :
  (exists h',
     _interceptIncomingDispatchPayload true "READY" (VRef 0) VNull ready_sample
       = Ok h' ("READY", VRef 0) /\
     (exists p, length ready_sample <= p /\
        h' !! 3 = Some (Obj (KRecord ProtoObject)
                          [("id", VString "1"); ("properties", VRef p)]) /\
        h' !! p = Some (Obj (KRecord ProtoObject) [("length", VNumber 2)])) /\
     forallb (fun key => negb (in_array key outerFields)) outerFields = true /\
     in_array "__proto__" outerFields = true) /\
  (exists h',
     _interceptIncomingDispatchPayload true "READY" (VRef 0) VNull ready_proto_sample
       = Ok h' ("READY", VRef 0) /\
     (exists p, length ready_proto_sample <= p /\
        h' !! 2 = Some (Obj (KRecord ProtoObject)
                          [("id", VString "1"); ("properties", VRef p)]) /\
        h' !! p = Some (Obj (KRecord ProtoObject) [("length", VNumber 2)])) /\
     forallb (fun key => negb (in_array key outerFields)) outerFields = true /\
     in_array "__proto__" outerFields = true) /\
  (exists h',
     _interceptIncomingDispatchPayload true "READY" (VRef 0) VNull ready_proto_sample
       = Ok h' ("READY", VRef 0) /\
     (exists p, length ready_proto_sample <= p /\
        h' !! 3 = Some (Obj (KRecord ProtoObject) [("properties", VRef p)]) /\
        h' !! p = Some (Obj (KRecord ProtoNull) [])) /\
     forallb (fun key => negb (in_array key outerFields)) outerFields = true /\
     in_array "__proto__" outerFields = true).
Proof.
  split; [|split].
  - exact (ready_rewrites_guilds ready_sample 0 2 _ _ VNull 0 3 _
             ready_sample_json eq_refl eq_refl).
  - exact (ready_rewrites_guilds ready_proto_sample 0 1 _ _ VNull 0 2 _
             ready_proto_sample_json eq_refl eq_refl).
  - exact (ready_rewrites_guilds ready_proto_sample 0 1 _ _ VNull 1 3 _
             ready_proto_sample_json eq_refl eq_refl).
Defined.

Lemma ready_keeps_other_fields_witness :
  exists h' ps',
    _interceptIncomingDispatchPayload true "READY" (VRef 0) VNull ready_sample
      = Ok h' ("READY", VRef 0) /\
    h' !! 0 = Some (Obj (KRecord ProtoObject) ps') /\
    map fst ps' = ["read_state"; "guilds"] /\
    (forall k, k <> "read_state" -> k <> "user_guild_settings" ->
       assoc k ps' = assoc k [("read_state", VRef 1); ("guilds", VRef 2)]) /\
    h' !! 2 = Some (Obj (KArray [Some (VRef 3); Some (VRef 4)]) []).
Proof.
  exact (ready_keeps_other_fields ready_sample 0 2 _ _ VNull ready_sample_json).
Defined.
(** *** [copy] and an own [__proto__] key *)

(** The copy of an object with [Object.prototype] whose entries [ps]
    hold primitives.  [ret["__proto__"] = x] reaches the setter of
    [Object.prototype], which adds no key and takes the prototype away
    when [x] is [null]; the assignment [ret.__proto__ = obj.__proto__]
    that follows the loop then finds no setter and adds the key. *)
Definition flat_copy (ps : list (string * value)) : object :=
  match assoc "__proto__" ps with
  | Some VNull =>
      Obj (KRecord ProtoNull) (without_proto_key ps ++ [("__proto__", VNull)])
  | _ => Obj (KRecord ProtoObject) (without_proto_key ps)
  end.

Lemma put_proto_key acc x :
  assoc "__proto__" acc = None -> primitive x ->
  put_property (Obj (KRecord ProtoObject) acc) "__proto__" x
  = Some (Obj (KRecord (match x with VNull => ProtoNull | _ => ProtoObject end)) acc).
Proof. intros Hacc Hx. unfold put_property. simpl. rewrite Hacc. by destruct x. Qed.

(** The loop of [copy] over the entries of an object that hold
    primitives. *)
Lemma copy_flat_entries n r : forall ps acc pm h,
  h !! r = Some (Obj (KRecord pm) acc) ->
  "__proto__" ∉ map fst acc ->
  NoDup (map fst acc ++ map fst ps) ->
  Forall (fun kv => primitive kv.2) ps ->
  pm = ProtoObject \/ (pm = ProtoNull /\ "__proto__" ∉ map fst ps) ->
  for_each ps (fun '(k, v) => let* v' := copy (S n) v in Put (VRef r) k v') h
  = Ok (<[r := Obj (KRecord (match assoc "__proto__" ps with
                             | Some VNull => ProtoNull
                             | _ => pm
                             end))
                   (acc ++ without_proto_key ps)]> h) tt.
Proof.
  induction ps as [|[k v] ps IH]; intros acc pm h Hr Hacc Hnd Hall Hpm.
  - simpl. rewrite app_nil_r. by rewrite list_insert_id.
  - apply Forall_cons in Hall as [Hv Hall]. simpl in Hv.
    assert (Hlt : r < length h) by (by eapply lookup_lt_Some).
    assert (Hkacc : k ∉ map fst acc).
    { apply NoDup_app in Hnd as (_ & Hd & _). intros Hin. apply (Hd k Hin). by left. }
    assert (Hkps : k ∉ map fst ps).
    { apply NoDup_app in Hnd as (_ & _ & Hd). by apply NoDup_cons in Hd as [? _]. }
    assert (Hnd' : NoDup (map fst acc ++ map fst ps)).
    { apply NoDup_app in Hnd as (Hn1 & Hd & Hn2). apply NoDup_cons in Hn2 as [_ Hn2].
      apply NoDup_app. repeat split; try done.
      intros x Hx Hx'. apply (Hd x Hx). by right. }
    cbn [for_each].
    match goal with |- _ = ?R => set (res := R) end.
    mstep (copy_primitive n v h Hv).
    destruct (String.eqb_spec k "__proto__") as [->|Hne].
    + destruct Hpm as [-> | [_ Hn]]; [|exfalso; apply Hn; by left].
      mstep (Put_ref h r _ _ "__proto__" v Hr
               (put_proto_key acc v (assoc_not_key _ _ Hacc) Hv)).
      rewrite (IH acc (match v with VNull => ProtoNull | _ => ProtoObject end)
                 (<[r := Obj (KRecord (match v with VNull => ProtoNull | _ => ProtoObject end))
                             acc]> h)).
      * rewrite list_insert_insert_eq. unfold res, without_proto_key.
        cbn [assoc List.filter fst]. rewrite String.eqb_refl. cbn [negb].
        rewrite (assoc_not_key _ _ Hkps). by destruct v.
      * by apply list_lookup_insert_eq.
      * done.
      * done.
      * done.
      * destruct v; (by left) || (by right).
    + assert (Hput : Put (VRef r) k v h
                     = Ok (<[r := Obj (KRecord pm) (acc ++ [(k, v)])]> h) tt).
      { rewrite <- (assoc_set_fresh k v acc Hkacc).
        apply Put_record; [done | done |]. by destruct Hpm as [-> | [-> _]]. }
      mstep Hput.
      rewrite (IH (acc ++ [(k, v)]) pm (<[r := Obj (KRecord pm) (acc ++ [(k, v)])]> h)).
      * rewrite list_insert_insert_eq. unfold res, without_proto_key.
        cbn [assoc List.filter fst].
        destruct (String.eqb_spec k "__proto__") as [|_]; [done|].
        destruct (String.eqb_spec "__proto__" k) as [|_]; [done|].
        cbn [negb]. by rewrite <- app_assoc.
      * by apply list_lookup_insert_eq.
      * rewrite map_app. simpl. intros Hin. apply elem_of_app in Hin as [Hin|Hin]; [done|].
        apply list_elem_of_singleton in Hin. by apply Hne.
      * rewrite map_app. simpl. by rewrite <- app_assoc.
      * done.
      * destruct Hpm as [-> | [-> Hn]]; [by left|]. right. split; [done|].
        intros Hx. apply Hn. by right.
Qed.

Lemma assoc_Forall (P : value -> Prop) k x (ps : list (string * value)) :
  Forall (fun kv => P kv.2) ps -> assoc k ps = Some x -> P x.
Proof.
  induction ps as [|[k' v'] ps IH]; cbn [assoc]; [done|]. intros Hall Hx.
  apply Forall_cons in Hall as [Hv Hall].
  destruct (String.eqb k k'); [injection Hx as <-; exact Hv | by apply IH].
Qed.

(** [copy] of an object with [Object.prototype] whose entries hold
    primitives. *)
Lemma copy_flat_record n h l ps :
  h !! l = Some (Obj (KRecord ProtoObject) ps) ->
  NoDup (map fst ps) ->
  Forall (fun kv => primitive kv.2) ps ->
  copy (S (S n)) (VRef l) h = Ok (h ++ [flat_copy ps]) (VRef (length h)).
Proof.
  intros Hl Hnd Hall.
  rewrite (copy_record (S n) l ProtoObject ps h Hl).
  set (ha := h ++ [Obj (KRecord ProtoObject) []]).
  assert (Hr : ha !! length h = Some (Obj (KRecord ProtoObject) [])).
  { unfold ha. by rewrite list_lookup_middle. }
  mstep (copy_flat_entries n (length h) ps [] ProtoObject ha Hr (not_elem_of_nil _)
           Hnd Hall (or_introl eq_refl)).
  unfold ha. rewrite insert_alloc.
  match goal with |- context [h ++ [?o]] => set (o1 := o); set (hb := h ++ [o1]) end.
  assert (Hlb : hb !! l = Some (Obj (KRecord ProtoObject) ps)) by (by apply preserved_alloc).
  assert (Hrb : hb !! length h = Some o1).
  { unfold hb. by rewrite list_lookup_middle. }
  unfold copy_prototype. mstep (deref_Ok _ _ _ Hlb). cbn [props okind].
  unfold flat_copy. subst o1.
  destruct (assoc "__proto__" ps) as [x|] eqn:Hx; [|done].
  pose proof (assoc_Forall primitive _ _ _ Hall Hx) as Hprim.
  pose proof (assoc_not_key _ _ (without_proto_key_fresh ps)) as Hfresh.
  assert (Hput : exists o2,
    put_property (Obj (KRecord (match x with VNull => ProtoNull | _ => ProtoObject end))
                    (without_proto_key ps)) "__proto__" x = Some o2 /\
    o2 = match x with
         | VNull => Obj (KRecord ProtoNull) (without_proto_key ps ++ [("__proto__", VNull)])
         | _ => Obj (KRecord ProtoObject) (without_proto_key ps)
         end).
  { unfold put_property. rewrite String.eqb_refl. cbn [props okind]. rewrite Hfresh.
    destruct x; try done; eexists; (split; [reflexivity|]); try done.
    by rewrite (assoc_set_fresh _ _ _ (without_proto_key_fresh ps)). }
  destruct Hput as (o2 & Hput & ->).
  assert (Hrb' : hb !! length h
                 = Some (Obj (KRecord (match x with VNull => ProtoNull | _ => ProtoObject end))
                           (without_proto_key ps))).
  { rewrite Hrb. by destruct x. }
  mstep (Put_ref hb (length h) _ _ "__proto__" x Hrb' Hput).
  unfold hb. rewrite insert_alloc. by destruct x.
Qed.


(** *** Identify sends: data that is no object, missing key, other fields *)

(** X14.  An identify send whose data is not an object throws a [TypeError]:
    at the read of [data.capabilities] for [undefined] and [null] when no
    mask is stored, at the write to the copy otherwise.  The stored mask
    and the objects are as they were. *)
Theorem identify_on_primitive_throws
    (n : nat) (data : value) (flag : option bool) (s : state) :
  primitive data ->
  _interceptOutgoingPayload (S n) 2 data flag s = Throw s TypeError.
Proof.
  intros Hdata. destruct s as [h caps].
  destruct data; try done; by destruct caps.
Qed.

Lemma identify_on_primitive_throws_witness :
  _interceptOutgoingPayload 1 2 VNull None (State [] (VNumber 5))
  = Throw (State [] (VNumber 5)) TypeError.
Proof. exact (identify_on_primitive_throws 0 VNull None _ I). Defined.

Lemma entries_assoc_copy h h' lo ps ps' k :
  Forall2 (fun kv kv' => kv.1 = kv'.1 /\ deep_copy h h' lo kv.2 kv'.2) ps ps' ->
  match assoc k ps with
  | Some x => exists x', assoc k ps' = Some x' /\ deep_copy h h' lo x x'
  | None => assoc k ps' = None
  end.
Proof.
  induction 1 as [|[k0 x0] [k0' x0'] ps ps' [Hk Hx] _ IH]; simpl in *; [done|].
  subst k0'. destruct (String.eqb k k0); [by eexists|exact IH].
Qed.

(** An identify send on an object, whether or not it carries
    [capabilities]. *)
Lemma outgoing_identify_record n s l p ps flag :
  objects s !! l = Some (Obj (KRecord p) ps) ->
  mem_string "capabilities" (proto_members p) = false ->
  structural n (objects s) (VRef l) ->
  let c := default VUndefined (assoc "capabilities" ps) in
  let current := if is_undefined (capabilities s) then c else capabilities s in
  exists h1 l' ps',
    _interceptOutgoingPayload (S n) 2 (VRef l) flag s
      = Ok (State (<[l' := Obj (KRecord (copied_proto p))
                              (assoc_set "capabilities" current ps')]> h1) current)
           (2%Z, VRef l', default true flag) /\
    preserved (objects s) h1 /\
    length (objects s) <= l' < length h1 /\
    Forall2 (fun kv kv' => kv.1 = kv'.1 /\
                           deep_copy (objects s) h1 (length (objects s)) kv.2 kv'.2)
            ps ps'.
Proof.
  intros Hl Hmem Hstr c current.
  destruct s as [h caps]. simpl in *.
  destruct (copy_correct n h h (VRef l) Hstr (preserved_refl h))
    as (h1 & v' & Hcopy & Hp1 & Hd).
  inversion Hd as [v Hv | ? l' ? ? Hl0 | ? l' ? ? Hl0 | ? l' p0 ps0 ps' Hl0 Hlo Hl' Hall];
    subst; try done; try congruence.
  rewrite Hl in Hl0. injection Hl0 as <- <-.
  assert (Hput : Put (VRef l') "capabilities" current h1 =
                 Ok (<[l' := Obj (KRecord (copied_proto p))
                               (assoc_set "capabilities" current ps')]> h1) tt).
  { apply Put_record; [done | done |]. by destruct p. }
  exists h1, l', ps'. split; [|split; [done|split; [|done]]].
  - unfold _interceptOutgoingPayload. simpl.
    assert (Hget : Get (VRef l) "capabilities" h = Ok h c).
    { eapply Get_ref; [done|]. unfold get_property, own_property. cbn [okind props].
      subst c. destruct (assoc "capabilities" ps); [done|].
      unfold inherits. cbn [okind]. destruct p; simpl in *; by rewrite ?Hmem. }
    mstep (read_capabilities_Ok (State h caps)).
    subst current. destruct (is_undefined caps) eqn:Hu.
    + mstep (on_objects_Ok _ (State h caps) _ _ Hget).
      mstep (write_capabilities_Ok c (State h caps)).
      mstep (on_objects_Ok _ (State h c) _ _ Hcopy).
      mstep (read_capabilities_Ok (State h1 c)).
      mstep (on_objects_Ok _ (State h1 c) _ _ Hput).
      by destruct flag.
    + mstep (@ret_Ok state unit tt (State h caps)).
      mstep (on_objects_Ok _ (State h caps) _ _ Hcopy).
      mstep (read_capabilities_Ok (State h1 caps)).
      mstep (on_objects_Ok _ (State h1 caps) _ _ Hput).
      by destruct flag.
  - split; [done|]. by eapply lookup_lt_Some.
Qed.

(** X15.  With no mask stored, an identify send whose data has no
    [capabilities] (or holds [undefined] there) returns, stores nothing,
    and the data sent on has a [capabilities] key holding [undefined].
    The first later identify send that carries a value is the one
    captured. *)
Theorem identify_without_capabilities
    (n : nat) (s : state) (l : loc) (p : proto) (ps : list (string * value))
    (flag : option bool) :
  capabilities s = VUndefined ->
  objects s !! l = Some (Obj (KRecord p) ps) ->
  default VUndefined (assoc "capabilities" ps) = VUndefined ->
  mem_string "capabilities" (proto_members p) = false ->
  structural n (objects s) (VRef l) ->
  exists s' l' o',
    _interceptOutgoingPayload (S n) 2 (VRef l) flag s
      = Ok s' (2%Z, VRef l', default true flag) /\
    capabilities s' = VUndefined /\
    objects s' !! l' = Some o' /\
    assoc "capabilities" (props o') = Some VUndefined /\
    length (objects s) <= l' /\
    (forall m data2 flag2 c,
       c <> VUndefined ->
       identify_data m (objects s') data2 c ->
       exists s2 r2,
         _interceptOutgoingPayload (S m) 2 data2 flag2 s' = Ok s2 r2 /\
         capabilities s2 = c).
Proof.
  intros Hcaps Hl Hc Hmem Hstr.
  destruct (outgoing_identify_record n s l p ps flag Hl Hmem Hstr)
    as (h1 & l' & ps' & Hrun & Hp & [Hlo Hhi] & Hall).
  rewrite Hcaps, Hc in Hrun. simpl in Hrun.
  set (s' := State (<[l' := Obj (KRecord (copied_proto p))
                             (assoc_set "capabilities" VUndefined ps')]> h1)
                   VUndefined) in *.
  exists s', l', (Obj (KRecord (copied_proto p))
                    (assoc_set "capabilities" VUndefined ps')).
  split; [exact Hrun|].
  split; [done|]. split; [by apply list_lookup_insert_eq|].
  split; [apply assoc_assoc_set|]. split; [done|].
  intros m data2 flag2 c Hne Hdata2.
  destruct (outgoing_identify m s' data2 c flag2 Hdata2) as (h2 & l2 & Hrun2 & _).
  eexists _, _. split; [exact Hrun2|]. done.
Qed.

(** An identify payload without [capabilities]: [{token: "x"}]. *)
Definition identify_bare : heap :=
  [ Obj (KRecord ProtoObject) [("token", VString "x")] ].

Lemma identify_bare_structural : structural 1 identify_bare (VRef 0).
Proof. solve_structural. Qed.

Lemma identify_without_capabilities_witness :
  let s := State identify_bare VUndefined in
  exists s' l' o',
    _interceptOutgoingPayload 2 2 (VRef 0) None s = Ok s' (2%Z, VRef l', true) /\
    capabilities s' = VUndefined /\
    objects s' !! l' = Some o' /\
    assoc "capabilities" (props o') = Some VUndefined /\
    length (objects s) <= l' /\
    (forall m data2 flag2 c,
       c <> VUndefined ->
       identify_data m (objects s') data2 c ->
       exists s2 r2,
         _interceptOutgoingPayload (S m) 2 data2 flag2 s' = Ok s2 r2 /\
         capabilities s2 = c).
Proof.
  intros s.
  exact (identify_without_capabilities 1 s 0 ProtoObject _ None
           eq_refl eq_refl eq_refl eq_refl identify_bare_structural).
Defined.

(** An identify send whose data is an object with [Object.prototype]
    whose entries hold primitives. *)
Lemma outgoing_identify_flat n s l ps flag :
  objects s !! l = Some (Obj (KRecord ProtoObject) ps) ->
  NoDup (map fst ps) ->
  Forall (fun kv => primitive kv.2) ps ->
  let current := if is_undefined (capabilities s)
                 then default VUndefined (assoc "capabilities" ps)
                 else capabilities s in
  _interceptOutgoingPayload (S (S n)) 2 (VRef l) flag s
  = Ok (State (objects s ++
                 [Obj (okind (flat_copy ps))
                      (assoc_set "capabilities" current (props (flat_copy ps)))])
              current)
       (2%Z, VRef (length (objects s)), default true flag).
Proof.
  intros Hl Hnd Hall current. destruct s as [h caps]. simpl in *.
  pose proof (copy_flat_record n h l ps Hl Hnd Hall) as Hcopy.
  set (c := default VUndefined (assoc "capabilities" ps)) in *.
  assert (Hget : Get (VRef l) "capabilities" h = Ok h c).
  { eapply Get_ref; [done|]. unfold get_property, own_property. cbn [okind props].
    subst c. by destruct (assoc "capabilities" ps). }
  assert (Hput : Put (VRef (length h)) "capabilities" current (h ++ [flat_copy ps]) =
                 Ok (h ++ [Obj (okind (flat_copy ps))
                             (assoc_set "capabilities" current (props (flat_copy ps)))]) tt).
  { assert (Hk : exists pc, okind (flat_copy ps) = KRecord pc /\
                            mem_string "capabilities" (proto_members pc) = false).
    { unfold flat_copy. destruct (assoc "__proto__" ps) as [[]|]; by eexists. }
    destruct Hk as (pc & Hk & Hmem).
    rewrite (Put_record (h ++ [flat_copy ps]) (length h) pc (props (flat_copy ps))
               "capabilities" current); [by rewrite insert_alloc, Hk | | done | done].
    rewrite list_lookup_middle by done. f_equal.
    destruct (flat_copy ps) as [k pps]. simpl in Hk. by subst k. }
  unfold _interceptOutgoingPayload. simpl.
  mstep (read_capabilities_Ok (State h caps)).
  subst current. destruct (is_undefined caps) eqn:Hu.
  - mstep (on_objects_Ok _ (State h caps) _ _ Hget).
    mstep (write_capabilities_Ok c (State h caps)).
    mstep (on_objects_Ok _ (State h c) _ _ Hcopy).
    mstep (read_capabilities_Ok (State (h ++ [flat_copy ps]) c)).
    mstep (on_objects_Ok _ (State (h ++ [flat_copy ps]) c) _ _ Hput).
    by destruct flag.
  - mstep (@ret_Ok state unit tt (State h caps)).
    mstep (on_objects_Ok _ (State h caps) _ _ Hcopy).
    mstep (read_capabilities_Ok (State (h ++ [flat_copy ps]) caps)).
    mstep (on_objects_Ok _ (State (h ++ [flat_copy ps]) caps) _ _ Hput).
    by destruct flag.
Qed.

(** X16.  For data nested from primitives, functions, arrays that carry
    no named property and objects that have no own [__proto__] key, the
    data an identify send returns has the keys of the data it was given,
    in their order, with [capabilities] added last when it was missing;
    every field other than [capabilities] that held a primitive holds
    the same primitive.  An own [__proto__] key of the data is not kept
    like that: for data with [Object.prototype] whose entries hold
    primitives, the data sent on is a new object with the other entries
    in their order and [capabilities] set among them or added last; the
    entry under [__proto__] is lost, but when it holds [null] the new
    object has no prototype and the entry follows the others. *)
Theorem identify_keeps_other_fields :
  (forall (n : nat) (s : state) (l : loc) (p : proto) (ps : list (string * value))
          (flag : option bool),
     objects s !! l = Some (Obj (KRecord p) ps) ->
     mem_string "capabilities" (proto_members p) = false ->
     structural n (objects s) (VRef l) ->
     exists s' l' ps',
       _interceptOutgoingPayload (S n) 2 (VRef l) flag s
         = Ok s' (2%Z, VRef l', default true flag) /\
       objects s' !! l' = Some (Obj (KRecord (copied_proto p)) ps') /\
       map fst ps' = (if assoc "capabilities" ps is Some _ then map fst ps
                      else map fst ps ++ ["capabilities"]) /\
       (forall k x, k <> "capabilities" -> assoc k ps = Some x -> primitive x ->
                    assoc k ps' = Some x)) /\
  (forall (n : nat) (s : state) (l : loc) (ps : list (string * value))
          (flag : option bool),
     objects s !! l = Some (Obj (KRecord ProtoObject) ps) ->
     NoDup (map fst ps) ->
     Forall (fun kv => primitive kv.2) ps ->
     let current := if is_undefined (capabilities s)
                    then default VUndefined (assoc "capabilities" ps)
                    else capabilities s in
     let others := List.filter (fun kv => negb (String.eqb kv.1 "__proto__")) ps in
     _interceptOutgoingPayload (S (S n)) 2 (VRef l) flag s
     = Ok (State (objects s ++
                    [match assoc "__proto__" ps with
                     | Some VNull =>
                         Obj (KRecord ProtoNull)
                             (assoc_set "capabilities" current
                                (others ++ [("__proto__", VNull)]))
                     | _ => Obj (KRecord ProtoObject)
                                (assoc_set "capabilities" current others)
                     end])
                 current)
          (2%Z, VRef (length (objects s)), default true flag)).
Proof.
  split.
  - intros n s l p ps flag Hl Hmem Hstr.
    destruct (outgoing_identify_record n s l p ps flag Hl Hmem Hstr)
      as (h1 & l' & ps' & Hrun & Hp & [Hlo Hhi] & Hall).
    eexists _, l', _. split; [exact Hrun|]. simpl.
    split; [by apply list_lookup_insert_eq|].
    assert (Hkeys : map fst ps' = map fst ps).
    { clear -Hall.
      induction Hall as [|[k x] [k' x'] ps ps' [Hk _] _ IH]; simpl in *; [done|].
      by rewrite Hk, IH. }
    split.
    + pose proof (entries_assoc_copy _ _ _ _ _ "capabilities" Hall) as Hc.
      destruct (assoc "capabilities" ps) as [c|].
      * destruct Hc as (c' & Hc' & _). by rewrite (assoc_set_keys _ _ _ _ Hc').
      * rewrite assoc_set_fresh by (by apply assoc_None_inv).
        by rewrite map_app, Hkeys.
    + intros k x Hk Hx Hprim. rewrite assoc_assoc_set_ne by done.
      pose proof (entries_assoc_copy _ _ _ _ _ k Hall) as Hc. rewrite Hx in Hc.
      destruct Hc as (x' & Hx' & Hd). rewrite Hx'.
      inversion Hd; subst; done.
  - intros n s l ps flag Hl Hnd Hall current others.
    rewrite (outgoing_identify_flat n s l ps flag Hl Hnd Hall).
    unfold flat_copy, current, others, without_proto_key.
    by destruct (assoc "__proto__" ps) as [[]|].
Qed.

(** Identify data with an own [__proto__] key:
    [{"__proto__": 5, capabilities: 9, token: "x"}]. *)
Definition identify_proto_key : heap :=
  [ Obj (KRecord ProtoObject)
      [("__proto__", VNumber 5); ("capabilities", VNumber 9); ("token", VString "x")] ].

Lemma identify_keeps_other_fields_witness :
  (let s := State identify_999 VUndefined in
   exists s' l' ps',
     _interceptOutgoingPayload 2 2 (VRef 0) None s = Ok s' (2%Z, VRef l', true) /\
     objects s' !! l' = Some (Obj (KRecord ProtoObject) ps') /\
     map fst ps' = ["capabilities"; "token"] /\
     (forall k x, k <> "capabilities" ->
        assoc k [("capabilities", VNumber 999); ("token", VString "x")] = Some x ->
        primitive x -> assoc k ps' = Some x)) /\
  (let s := State identify_proto_key (VNumber 5) in
   _interceptOutgoingPayload 2 2 (VRef 0) None s
   = Ok (State (identify_proto_key ++
                  [Obj (KRecord ProtoObject)
                     [("capabilities", VNumber 5); ("token", VString "x")]])
               (VNumber 5))
        (2%Z, VRef 1, true)).
Proof.
  split.
  - intros s.
    assert (H : structural 1 identify_999 (VRef 0)) by solve_structural.
    exact (proj1 identify_keeps_other_fields 1 s 0 ProtoObject _ None
             eq_refl eq_refl H).
  - intros s.
    assert (Hnd : NoDup (map fst [("__proto__", VNumber 5); ("capabilities", VNumber 9);
                                  ("token", VString "x")])) by compute_done.
    assert (Hall : Forall (fun kv : string * value => primitive kv.2)
                     [("__proto__", VNumber 5); ("capabilities", VNumber 9);
                      ("token", VString "x")]) by (repeat constructor).
    exact (proj2 identify_keeps_other_fields 0 s 0 _ None eq_refl Hnd Hall).
Defined.

(** *** [copy]: cycles, sharing, named properties, prototypes *)

(** X17.  [copy] has no check for cycles: on an object whose first property
    is the object itself, or an array whose first element is the array
    itself, the recursion goes on whatever depth it is given (the engine
    ends it with a stack overflow); the call never returns a copy. *)
Theorem copy_of_cycle_never_returns (fuel : nat) (h : heap) (l : loc) :
  (exists p k ps, h !! l = Some (Obj (KRecord p) ((k, VRef l) :: ps))) \/
  (exists elems aps, h !! l = Some (Obj (KArray (Some (VRef l) :: elems)) aps)) ->
  copy fuel (VRef l) h = OutOfFuel.
Proof.
  revert h. induction fuel as [|n IH]; intros h Hl; [reflexivity|].
  destruct Hl as [(p & k & ps & Hl) | (elems & aps & Hl)].
  - rewrite (copy_record n l p _ h Hl).
    cbn [for_each]. unfold bind at 1 2 3.
    rewrite IH; [done|]. left. exists p, k, ps. by apply preserved_alloc.
  - rewrite (copy_array n l _ aps h Hl).
    cbn [map_elems]. unfold bind at 1 2.
    rewrite IH; [done|]. right. by exists elems, aps.
Qed.

Lemma copy_of_cycle_never_returns_witness :
  let h := [Obj (KRecord ProtoObject) [("self", VRef 0); ("x", VNumber 1)]] in
  (exists p k ps, h !! 0 = Some (Obj (KRecord p) ((k, VRef 0) :: ps))) /\
  copy 1000 (VRef 0) h = OutOfFuel.
Proof.
  intros h.
  assert (H : exists p k ps, h !! 0 = Some (Obj (KRecord p) ((k, VRef 0) :: ps)))
    by (by eexists _, _, _).
  split; [exact H|]. exact (copy_of_cycle_never_returns 1000 h 0 (or_introl H)).
Defined.

(** A computation that never makes the store shorter. *)
Definition grows {A} (m : M A) : Prop :=
  forall h, match m h with
            | Ok h' _ | Throw h' _ => length h <= length h'
            | OutOfFuel | Unmodelled => True
            end.

Section grows.
Lemma grows_ret {A} (a : A) : grows (ret a).
Proof. intros h. apply le_n. Qed.

Lemma grows_throw {A} e : grows (@throw heap A e).
Proof. intros h. apply le_n. Qed.

Lemma grows_unmodelled {A} : grows (@unmodelled heap A).
Proof. intros h. exact I. Qed.

Lemma grows_modelled {A} (x : option A) : grows (modelled x).
Proof. destruct x; [apply grows_ret | apply grows_unmodelled]. Qed.

Lemma grows_bind {A B} (m : M A) (k : A -> M B) :
  grows m -> (forall a, grows (k a)) -> grows (bind m k).
Proof.
  intros Hm Hk h. unfold bind. specialize (Hm h).
  destruct (m h) as [h1 a| | |]; try done.
  specialize (Hk a h1). destruct (k a h1); try done; lia.
Qed.

Lemma grows_deref l : grows (deref l).
Proof. intros h. unfold deref. by destruct (h !! l). Qed.

Lemma grows_alloc o : grows (alloc o).
Proof. intros h. unfold alloc. rewrite length_app. simpl. lia. Qed.

Lemma grows_store r o : grows (store r o).
Proof.
  intros h. unfold store. destruct (h !! r); simpl; [|done]. by rewrite length_insert.
Qed.

Lemma grows_typeof v : grows (typeof v).
Proof.
  destruct v; try apply grows_ret.
  apply grows_bind; [apply grows_deref|]. intros o. destruct (okind o); apply grows_ret.
Qed.

Lemma grows_Array_isArray v : grows (Array_isArray v).
Proof.
  destruct v; try apply grows_ret.
  apply grows_bind; [apply grows_deref|]. intros o. destruct (okind o); apply grows_ret.
Qed.

Lemma grows_Object_entries v : grows (Object_entries v).
Proof.
  destruct v; try apply grows_unmodelled; try apply grows_throw.
  apply grows_bind; [apply grows_deref|]. intros o. destruct (okind o); apply grows_ret.
Qed.

Lemma grows_Put v k x : grows (Put v k x).
Proof.
  destruct v; try apply grows_throw.
  apply grows_bind; [apply grows_deref|]. intros o.
  apply grows_bind; [apply grows_modelled|]. intros o'. apply grows_store.
Qed.

Lemma grows_for_each {A} (xs : list A) (body : A -> M unit) :
  (forall x, grows (body x)) -> grows (for_each xs body).
Proof.
  intros Hbody. induction xs as [|x xs IH]; simpl; [apply grows_ret|].
  apply grows_bind; [apply Hbody | intros _; apply IH].
Qed.

Lemma grows_map_elems f xs : (forall x, grows (f x)) -> grows (map_elems f xs).
Proof.
  intros Hf. induction xs as [|[x|] xs IH]; simpl; [apply grows_ret | |].
  - apply grows_bind; [apply Hf|]. intros x'.
    apply grows_bind; [apply IH|]. intros rest'. apply grows_ret.
  - apply grows_bind; [apply IH|]. intros rest'. apply grows_ret.
Qed.

Lemma grows_copy_prototype l r : grows (copy_prototype l r).
Proof.
  apply grows_bind; [apply grows_deref|]. intros o.
  destruct (assoc "__proto__" (props o)); [apply grows_Put|].
  destruct (okind o) as [[| |c ms]| |]; try apply grows_ret; try apply grows_unmodelled.
  destruct (mem_string "__proto__" ms); [apply grows_unmodelled|].
  apply grows_bind; [apply grows_deref|]. intros ro. apply grows_store.
Qed.

Lemma grows_copy fuel : forall v, grows (copy fuel v).
Proof.
  induction fuel as [|n IH]; intros v; [intros h; exact I|].
  rewrite copy_unfold.
  apply grows_bind; [apply grows_typeof|]. intros t.
  destruct (_ || _); [apply grows_ret|].
  destruct v as [| | | | | |l]; try apply grows_unmodelled.
  destruct (String.eqb t "function").
  { apply grows_bind; [apply grows_alloc|]. intros f. apply grows_ret. }
  apply grows_bind; [apply grows_Array_isArray|]. intros [|].
  { unfold Array_map. apply grows_bind; [apply grows_deref|]. intros o.
    destruct (okind o); try apply grows_unmodelled.
    apply grows_bind; [by apply grows_map_elems|]. intros elems'.
    apply grows_bind; [apply grows_alloc|]. intros r. apply grows_ret. }
  apply grows_bind; [apply grows_alloc|]. intros r.
  apply grows_bind; [apply grows_Object_entries|]. intros entries.
  apply grows_bind.
  { apply grows_for_each. intros [k x].
    apply grows_bind; [apply IH|]. intros x'. apply grows_Put. }
  intros _. apply grows_bind; [apply grows_copy_prototype|]. intros _. apply grows_ret.
Qed.
End grows.

Lemma grows_Ok {A} (m : M A) h h' a : grows m -> m h = Ok h' a -> length h <= length h'.
Proof. intros Hm Hrun. specialize (Hm h). by rewrite Hrun in Hm. Qed.

(** The copy of an object is a cell allocated during the call. *)
Lemma copy_ref_allocated fuel l h h' v' :
  copy fuel (VRef l) h = Ok h' v' ->
  exists l', v' = VRef l' /\ length h <= l' < length h'.
Proof.
  destruct fuel as [|n]; [done|]. intros H.
  destruct (h !! l) as [[[p|elems|code] ps]|] eqn:Hl.
  - rewrite (copy_record n l p ps h Hl) in H.
    assert (Hg : grows (for_each ps
                   (fun '(k, v) => let* v' := copy n v in Put (VRef (length h)) k v');;
                 copy_prototype l (length h);; ret (VRef (length h)))).
    { apply grows_bind.
      - apply grows_for_each. intros [k x].
        apply grows_bind; [apply grows_copy|]. intros x'. apply grows_Put.
      - intros _. apply grows_bind; [apply grows_copy_prototype|]. intros _.
        apply grows_ret. }
    pose proof (grows_Ok _ _ _ _ Hg H) as Hlen. rewrite length_app in Hlen. simpl in Hlen.
    apply bind_inv_Ok in H as (h3 & [] & _ & H).
    apply bind_inv_Ok in H as (h4 & [] & _ & H).
    injection H as <- <-. exists (length h). split; [done|lia].
  - rewrite (copy_array n l elems ps h Hl) in H.
    apply bind_inv_Ok in H as (h2 & elems' & Hm & H).
    apply bind_inv_Ok in H as (h3 & a & Ha & H).
    injection Ha as <- <-. injection H as <- <-.
    pose proof (grows_Ok _ _ _ _ (grows_map_elems _ elems (grows_copy n)) Hm).
    exists (length h2). rewrite length_app. simpl. split; [done|lia].
  - rewrite (copy_function n l code ps h Hl) in H. injection H as <- <-.
    exists (length h). rewrite length_app. simpl. split; [done|lia].
  - rewrite copy_unfold in H. unfold bind, typeof, bind, deref in H.
    by rewrite Hl in H.
Qed.

(** The elements [arr.map(copy)] gives: later ones are cells allocated
    later. *)
Lemma map_elems_copy_increasing fuel : forall elems h h' elems',
  map_elems (copy fuel) elems h = Ok h' elems' ->
  length elems' = length elems /\
  length h <= length h' /\
  (forall i a, elems' !! i = Some (Some (VRef a)) -> length h <= a < length h') /\
  (forall i j a b, i < j ->
     elems' !! i = Some (Some (VRef a)) -> elems' !! j = Some (Some (VRef b)) -> a < b).
Proof.
  induction elems as [|[x|] elems IH]; intros h h' elems' H; simpl in H.
  - injection H as <- <-. split; [done|]. split; [done|]. split; by intros [|?].
  - apply bind_inv_Ok in H as (h1 & x' & Hx & H).
    apply bind_inv_Ok in H as (h2 & rest' & Hrest & H). injection H as <- <-.
    destruct (IH _ _ _ Hrest) as (Hlen & Hgrow & Hfresh & Hinc).
    pose proof (grows_Ok _ _ _ _ (grows_copy fuel x) Hx) as Hgrow1.
    assert (Hhead : forall a, x' = VRef a -> length h <= a < length h1).
    { intros a ->. destruct x as [| | | | | |m];
        try (by apply copy_primitive_inv in Hx as [? _]).
      apply copy_ref_allocated in Hx as (l' & [= <-] & Hl'). done. }
    split; [simpl; by rewrite Hlen|]. split; [lia|]. split.
    + intros [|i] a Hi; simpl in Hi.
      * injection Hi as ->. specialize (Hhead a eq_refl). lia.
      * specialize (Hfresh i a Hi). lia.
    + intros [|i] [|j] a b Hij Hi Hj; simpl in *; try lia.
      * injection Hi as ->. specialize (Hhead a eq_refl).
        specialize (Hfresh j b Hj). lia.
      * apply (Hinc i j a b); [lia|done|done].
  - apply bind_inv_Ok in H as (h2 & rest' & Hrest & H). injection H as <- <-.
    destruct (IH _ _ _ Hrest) as (Hlen & Hgrow & Hfresh & Hinc).
    split; [simpl; by rewrite Hlen|]. split; [done|]. split.
    + intros [|i] a Hi; simpl in Hi; [done|]. by apply (Hfresh i).
    + intros [|i] [|j] a b Hij Hi Hj; simpl in *; try lia; try done.
      apply (Hinc i j a b); [lia|done|done].
Qed.

(** X18.  Whenever [copy] of an array returns, the objects among the elements
    of the result are new and pairwise different, also where the
    original held one object at several indices: sharing inside the
    original is not kept. *)
Theorem copy_array_unshares
    (fuel : nat) (h h' : heap) (l : loc)
    (elems : list (option value)) (aps : list (string * value)) (v' : value) :
  h !! l = Some (Obj (KArray elems) aps) ->
  copy fuel (VRef l) h = Ok h' v' ->
  exists l' elems',
    v' = VRef l' /\
    h' !! l' = Some (Obj (KArray elems') []) /\
    length elems' = length elems /\
    (forall i a, elems' !! i = Some (Some (VRef a)) -> length h <= a /\ a <> l') /\
    (forall i j a b, i <> j ->
       elems' !! i = Some (Some (VRef a)) -> elems' !! j = Some (Some (VRef b)) ->
       a <> b).
Proof.
  intros Hl H. destruct fuel as [|n]; [done|].
  rewrite (copy_array n l elems aps h Hl) in H.
  apply bind_inv_Ok in H as (h2 & elems' & Hm & H).
  apply bind_inv_Ok in H as (h3 & a & Ha & H).
  injection Ha as <- <-. injection H as <- <-.
  destruct (map_elems_copy_increasing n _ _ _ _ Hm) as (Hlen & Hgrow & Hfresh & Hinc).
  exists (length h2), elems'. split; [done|].
  split; [by rewrite list_lookup_middle|]. split; [done|]. split.
  - intros i a Hi. specialize (Hfresh i a Hi). lia.
  - intros i j a b Hij Hi Hj.
    destruct (Nat.lt_total i j) as [Hlt | [-> | Hlt]]; [|done|].
    + specialize (Hinc i j a b Hlt Hi Hj). lia.
    + specialize (Hinc j i b a Hlt Hj Hi). lia.
Qed.

(** The array [[o, o]] for one object [o = {x: 1}]. *)
Definition shared_pair : heap :=
  [ Obj (KArray [Some (VRef 1); Some (VRef 1)]) [];
    Obj (KRecord ProtoObject) [("x", VNumber 1)] ].

Lemma copy_array_unshares_witness :
  exists h' l' elems',
    copy 3 (VRef 0) shared_pair = Ok h' (VRef l') /\
    h' !! l' = Some (Obj (KArray elems') []) /\
    length elems' = 2 /\
    (forall i a, elems' !! i = Some (Some (VRef a)) -> 2 <= a /\ a <> l') /\
    (forall i j a b, i <> j ->
       elems' !! i = Some (Some (VRef a)) -> elems' !! j = Some (Some (VRef b)) ->
       a <> b).
Proof.
  assert (Hrun : copy 3 (VRef 0) shared_pair =
                 Ok [ Obj (KArray [Some (VRef 1); Some (VRef 1)]) [];
                      Obj (KRecord ProtoObject) [("x", VNumber 1)];
                      Obj (KRecord ProtoObject) [("x", VNumber 1)];
                      Obj (KRecord ProtoObject) [("x", VNumber 1)];
                      Obj (KArray [Some (VRef 2); Some (VRef 3)]) [] ] (VRef 4))
    by reflexivity.
  destruct (copy_array_unshares 3 shared_pair _ 0 _ [] _ eq_refl Hrun)
    as (l' & elems' & [= <-] & H).
  by eexists _, 4, elems'.
Defined.

(** X19.  Whenever [copy] of an array or of a function returns, the result
    has no named property of its own: those of the original are not
    carried over. *)
Theorem copy_drops_named_properties
    (fuel : nat) (h h' : heap) (l : loc) (o : object) (v' : value) :
  h !! l = Some o ->
  (forall p, okind o <> KRecord p) ->
  copy fuel (VRef l) h = Ok h' v' ->
  exists l' o',
    v' = VRef l' /\ h' !! l' = Some o' /\ props o' = [] /\
    match okind o with
    | KFunction _ => okind o' = KFunction (Forwarder l)
    | _ => exists elems', okind o' = KArray elems'
    end.
Proof.
  intros Hl Hkind H. destruct o as [[p|elems|code] ps]; [by destruct (Hkind p)| |].
  - destruct fuel as [|n]; [done|].
    rewrite (copy_array n l elems ps h Hl) in H.
    apply bind_inv_Ok in H as (h2 & elems' & Hm & H).
    apply bind_inv_Ok in H as (h3 & a & Ha & H).
    injection Ha as <- <-. injection H as <- <-.
    exists (length h2), (Obj (KArray elems') []).
    split; [done|]. split; [by rewrite list_lookup_middle|]. simpl. eauto.
  - destruct fuel as [|n]; [done|].
    rewrite (copy_function n l code ps h Hl) in H. injection H as <- <-.
    exists (length h), (Obj (KFunction (Forwarder l)) []).
    split; [done|]. split; [by rewrite list_lookup_middle|]. done.
Qed.

Lemma copy_drops_named_properties_witness :
  let h := [Obj (KFunction (Native 0)) [("displayName", VString "f")]] in
  exists l' o',
    copy 1 (VRef 0) h = Ok (h ++ [o']) (VRef l') /\
    (h ++ [o']) !! l' = Some o' /\ props o' = [] /\
    okind o' = KFunction (Forwarder 0).
Proof.
  intros h.
  destruct (copy_drops_named_properties 1 h _ 0 _ _ eq_refl ltac:(done) eq_refl)
    as (l' & o' & [= <-] & [= <-] & Hp & Hk).
  by eexists 1, _.
Defined.

(** X20.  For an object nested from primitives, functions, arrays that
    carry no named property and objects that have no own [__proto__]
    key, the copy has the class of a class instance and
    [Object.prototype] where the original had no prototype, and it has
    the same keys in the same order.  An own [__proto__] key is not
    copied as the others are: an object with [Object.prototype] whose
    entries hold primitives is copied to a new object with its other
    entries in their order, and the entry under [__proto__] is lost;
    but when that entry holds [null] the copy has no prototype and the
    entry comes last. *)
Theorem copy_and_prototypes :
  (forall (n : nat) (h : heap) (l : loc) (p : proto) (ps : list (string * value)),
     h !! l = Some (Obj (KRecord p) ps) ->
     structural n h (VRef l) ->
     exists h' l' ps',
       copy (S n) (VRef l) h = Ok h' (VRef l') /\
       h' !! l' = Some (Obj (KRecord (match p with
                                      | ProtoNull => ProtoObject
                                      | ProtoObject => ProtoObject
                                      | ProtoClass c members => ProtoClass c members
                                      end)) ps') /\
       map fst ps' = map fst ps) /\
  (forall (n : nat) (h : heap) (l : loc) (ps : list (string * value)),
     h !! l = Some (Obj (KRecord ProtoObject) ps) ->
     NoDup (map fst ps) ->
     Forall (fun kv => primitive kv.2) ps ->
     let others := List.filter (fun kv => negb (String.eqb kv.1 "__proto__")) ps in
     copy (S (S n)) (VRef l) h
     = Ok (h ++ [match assoc "__proto__" ps with
                 | Some VNull => Obj (KRecord ProtoNull) (others ++ [("__proto__", VNull)])
                 | _ => Obj (KRecord ProtoObject) others
                 end])
          (VRef (length h))).
Proof.
  split.
  - intros n h l p ps Hl Hstr.
    destruct (copy_correct n h h (VRef l) Hstr (preserved_refl h))
      as (h' & v' & Hcopy & _ & Hd).
    inversion Hd as [v Hv | ? l' ? ? Hl0 | ? l' ? ? Hl0 | ? l' p0 ps0 ps' Hl0 Hlo Hl' Hall];
      subst; try done; try congruence.
    rewrite Hl in Hl0. injection Hl0 as <- <-.
    exists h', l', ps'. split; [done|]. split; [by destruct p|].
    clear -Hall.
    induction Hall as [|[k x] [k' x'] ps ps' [Hk _] _ IH]; simpl in *; [done|].
    by rewrite Hk, IH.
  - intros n h l ps Hl Hnd Hall. exact (copy_flat_record n h l ps Hl Hnd Hall).
Qed.

Lemma copy_and_prototypes_witness :
  (let h := [Obj (KRecord ProtoNull) [("a", VNumber 1)]] in
   structural 1 h (VRef 0) /\
   exists h' l' ps',
     copy 2 (VRef 0) h = Ok h' (VRef l') /\
     h' !! l' = Some (Obj (KRecord ProtoObject) ps') /\
     map fst ps' = ["a"]) /\
  (let h := [Obj (KRecord ProtoObject) [("__proto__", VNumber 5); ("b", VNumber 2)]] in
   copy 2 (VRef 0) h = Ok (h ++ [Obj (KRecord ProtoObject) [("b", VNumber 2)]]) (VRef 1)) /\
  (let h := [Obj (KRecord ProtoObject) [("__proto__", VNull); ("b", VNumber 2)]] in
   copy 2 (VRef 0) h
   = Ok (h ++ [Obj (KRecord ProtoNull) [("b", VNumber 2); ("__proto__", VNull)]]) (VRef 1)).
Proof.
  split; [|split].
  - intros h. assert (H : structural 1 h (VRef 0)) by solve_structural.
    split; [exact H|]. exact (proj1 copy_and_prototypes 1 h 0 ProtoNull _ eq_refl H).
  - intros h.
    assert (Hnd : NoDup (map fst [("__proto__", VNumber 5); ("b", VNumber 2)]))
      by compute_done.
    assert (Hall : Forall (fun kv : string * value => primitive kv.2)
                          [("__proto__", VNumber 5); ("b", VNumber 2)])
      by (repeat constructor).
    exact (proj2 copy_and_prototypes 0 h 0 _ eq_refl Hnd Hall).
  - intros h.
    assert (Hnd : NoDup (map fst [("__proto__", VNull); ("b", VNumber 2)]))
      by compute_done.
    assert (Hall : Forall (fun kv : string * value => primitive kv.2)
                          [("__proto__", VNull); ("b", VNumber 2)])
      by (repeat constructor).
    exact (proj2 copy_and_prototypes 0 h 0 _ eq_refl Hnd Hall).
Defined.

(** *** The modal: checkboxes and identify, tabs *)

(** X21.  A change of a capability checkbox reaches the gateway: with a
    number stored, after the handler of a checkbox has run every
    identify send returns data carrying the number the handler left,
    whatever the payload's own value. *)
Theorem checkbox_edit_reaches_identify
    (k : nat) (entry : string * Z * string) (c own : Z)
    (n : nat) (s : state) (data : value) (flag : option bool) :
  KNOWN_CAPABILITIES !! k = Some entry ->
  capabilities s = VNumber c ->
  identify_data n (objects s) data (VNumber own) ->
  let c' := capability_onChange entry.1.2 c in
  exists s1 s2 data',
    capability_checkbox_onChange entry.1.2 s = Ok s1 tt /\
    objects s1 = objects s /\
    _interceptOutgoingPayload (S n) 2 data flag s1
      = Ok s2 (2%Z, data', default true flag) /\
    Get data' "capabilities" (objects s2) = Ok (objects s2) (VNumber c') /\
    capabilities s2 = VNumber c' /\
    (forall j, (0 <= j < 32)%Z ->
       Z.testbit c' j = if Z.eqb (Z.of_nat k) j then negb (Z.testbit c j)
                        else Z.testbit c j).
Proof.
  intros He Hc Hdata c'. destruct s as [h caps]. simpl in *. subst caps.
  set (s1 := State h (VNumber c')).
  destruct (outgoing_identify n s1 data (VNumber own) flag Hdata)
    as (h' & l' & Hrun & _ & _ & Hget).
  exists s1, (State h' (VNumber c')), (VRef l').
  split; [reflexivity|]. split; [reflexivity|]. split; [exact Hrun|].
  split; [exact Hget|]. split; [reflexivity|].
  intros j Hj. subst c'.
  destruct (known_capability_mask k entry He) as [-> Hk].
  apply toggle_testbit_any; lia.
Qed.

Lemma checkbox_edit_reaches_identify_witness :
  let s := State identify_999 (VNumber 5) in
  exists s1 s2 data',
    capability_checkbox_onChange (js_shl 1 1) s = Ok s1 tt /\
    objects s1 = objects s /\
    _interceptOutgoingPayload 2 2 (VRef 0) None s1 = Ok s2 (2%Z, data', true) /\
    Get data' "capabilities" (objects s2) = Ok (objects s2) (VNumber 7) /\
    capabilities s2 = VNumber 7 /\
    (forall j, (0 <= j < 32)%Z ->
       Z.testbit 7 j = if Z.eqb 1 j then negb (Z.testbit 5 j) else Z.testbit 5 j).
Proof.
  intros s.
  exact (checkbox_edit_reaches_identify 1 _ 5 999 1 s (VRef 0) None
           eq_refl eq_refl identify_999_data).
Defined.

(** X22.  Both toolbox actions open the modal on the text that asks to
    navigate to the Gateway tab manually: they pass the name of a tab as
    a string, and the contents are keyed by the numbers of the enum.
    Once a tab of the bar is selected, which sets [currentTab] to the
    number of an enum member, the content of that tab is shown. *)
Theorem toolbox_opens_on_fallback :
  (forall label defaultTab,
     (label, defaultTab) ∈ toolboxActions ->
     ReverseTkModalContent defaultTab = Some NavigateManually) /\
  (forall name id,
     (name, id) ∈ ReverseTkModalTab ->
     exists content,
       ReverseTkModalContent (VNumber id) = Some content /\
       content <> NavigateManually) /\
  (forall s : string,
     s <> "0" -> s <> "1" -> s <> "2" ->
     mem_string s Object_prototype_names = false ->
     ReverseTkModalContent (VString s) = Some NavigateManually).
Proof.
  split; [|split].
  - intros label defaultTab Hin.
    repeat (apply elem_of_cons in Hin as [[= -> ->]|Hin]; [reflexivity|]).
    by apply elem_of_nil in Hin.
  - intros name id Hin.
    repeat (apply elem_of_cons in Hin as [[= -> ->]|Hin]; [by eexists|]).
    by apply elem_of_nil in Hin.
  - intros s H0 H1 H2 Hs. unfold ReverseTkModalContent, property_key.
    apply String.eqb_neq in H0, H1, H2. by rewrite H0, H1, H2, Hs.
Qed.
